(** * The portfolio automation pipeline: a shallow embedding

    The functions of [automation/lib/github-fetcher.js],
    [automation/lib/template-generator.js] and
    [automation/lib/browse-updater.js] are transcribed into Gallina and
    the statements of the specification are settled on them.

    A JavaScript string is a sequence of UTF-16 code units.  This
    development covers the strings whose code units are below 256
    (Basic Latin and Latin-1 Supplement): one [ascii] of a Rocq [string]
    stands for one code unit.  A JavaScript object used as a dictionary
    is an association list in key order; where the code reads such an
    object at a key that it takes from its input, the properties that
    every object literal inherits from [Object.prototype] are part of
    the model.  A Number is a double: the file numbers, which are read
    from file names of any length, are rounded as [parseInt] and [+]
    round them; a timestamp and a count are integers below 2^53 and
    are kept in [N]. *)

From Stdlib Require Import Bool Arith NArith ZArith Lia List Ascii String.
From Stdlib Require Import Sorted.
From Stdlib Require DecimalString DecimalPos DecimalN.
Import ListNotations.
Open Scope string_scope.
Open Scope nat_scope.

(** ** Code units *)

Module Chars.

Definition code (c : ascii) : nat := nat_of_ascii c.

Definition between (lo hi : nat) (c : ascii) : bool :=
  (lo <=? code c) && (code c <=? hi).

Definition is_digit (c : ascii) : bool := between 48 57 c.
Definition is_lower (c : ascii) : bool := between 97 122 c.
Definition is_upper (c : ascii) : bool := between 65 90 c.

(** [\w] *)
Definition is_word (c : ascii) : bool :=
  is_digit c || is_lower c || is_upper c || (code c =? 95).

(** [\s], and what [trim] removes: TAB, LF, VT, FF, CR, SPACE, NBSP. *)
Definition is_space (c : ascii) : bool :=
  between 9 13 c || (code c =? 32) || (code c =? 160).

(** The line terminators: what [.] refuses and what [^], [$] see under
    the [m] flag. *)
Definition is_line_terminator (c : ascii) : bool :=
  (code c =? 10) || (code c =? 13).

(** [String.prototype.toLowerCase] on one code unit: [A-Z] and the
    capital letters of Latin-1 (U+00C0 to U+00DE, the sign U+00D7
    excepted) move up by 32. *)
Definition lower_char (c : ascii) : ascii :=
  if is_upper c || (between 192 222 c && negb (code c =? 215))
  then ascii_of_nat (code c + 32) else c.

(** The newline, [\n]. *)
Definition nl : ascii := ascii_of_nat 10.

(** [Canonicalize] of a regular expression with the [i] flag and without
    the [u] flag: the upper-case form when that is one code unit.  The
    letters U+00B5, U+00DF and U+00FF have no upper case in this range
    and are kept, which leaves them equivalent to themselves only. *)
Definition canon (c : ascii) : ascii :=
  if is_lower c || (between 224 254 c && negb (code c =? 247))
  then ascii_of_nat (code c - 32) else c.

End Chars.
Import Chars.

(** ** Strings *)

Module Str.

Fixpoint toLowerCase (s : string) : string :=
  match s with
  | "" => ""
  | String c s' => String (lower_char c) (toLowerCase s')
  end.

Definition startsWith (s p : string) : bool := prefix p s.

Fixpoint endsWith (s p : string) : bool :=
  String.eqb s p ||
  match s with
  | "" => false
  | String _ s' => endsWith s' p
  end.

Fixpoint includes (s p : string) : bool :=
  prefix p s ||
  match s with
  | "" => false
  | String _ s' => includes s' p
  end.

(** [s.slice(0, n)] *)
Definition slice0 (n : nat) (s : string) : string := substring 0 n s.

Fixpoint trimStart (s : string) : string :=
  match s with
  | "" => ""
  | String c s' => if is_space c then trimStart s' else s
  end.

Fixpoint trimEnd (s : string) : string :=
  match s with
  | "" => ""
  | String c s' =>
      let t := trimEnd s' in
      if is_space c && String.eqb t "" then "" else String c t
  end.

Definition trim (s : string) : string := trimEnd (trimStart s).

(** The text of [s] in front of its suffix [t]. *)
Definition taken (s t : string) : string :=
  substring 0 (String.length s - String.length t) s.

End Str.
Import Str.

(** ** Regular expressions

    A backtracking matcher for the fragment of the ECMAScript pattern
    language the pipeline uses.  Every quantifier of the sources is
    applied to a single character or character class, so [Opt], [Star],
    [Plus] and [LazyStar] take an [atom]. *)

Module Regex.

Record flags := { ignoreCase : bool; multiline : bool }.

Definition plain : flags := {| ignoreCase := false; multiline := false |}.
Definition flag_i : flags := {| ignoreCase := true; multiline := false |}.
Definition flag_m : flags := {| ignoreCase := false; multiline := true |}.

Inductive atom : Type :=
| Lit (c : ascii)                        (* a pattern character *)
| Cls (neg : bool) (p : ascii -> bool).  (* [...] when neg = false, [^...] when true *)

Inductive regex : Type :=
| Eps
| One (a : atom)
| Seq (r1 r2 : regex)
| Alt (r1 r2 : regex)
| Opt (a : atom)               (* a?  *)
| Star (a : atom)              (* a*  *)
| Plus (a : atom)              (* a+  *)
| LazyStar (a : atom)          (* a*? *)
| Group (n : nat) (r : regex)  (* the n-th capturing group *)
| Bol                          (* ^ *)
| Eol                          (* $ *)
| Ahead (r : regex).           (* (?=r) *)

Definition atom_ok (fl : flags) (a : atom) (x : ascii) : bool :=
  match a with
  | Lit c =>
      if ignoreCase fl then Ascii.eqb (canon x) (canon c) else Ascii.eqb x c
  | Cls neg p =>
      xorb neg
        (if ignoreCase fl then p x || p (lower_char x) || p (canon x) else p x)
  end.

(** The matcher state: the code unit in front of the current position
    (none at index 0), the input from the current position on, and the
    captures made so far. *)
Record mstate := MState {
  prev : option ascii;
  rest : string;
  caps : list (nat * string)
}.

Definition at_bol (fl : flags) (st : mstate) : bool :=
  match prev st with
  | None => true
  | Some c => multiline fl && is_line_terminator c
  end.

Definition at_eol (fl : flags) (st : mstate) : bool :=
  match rest st with
  | "" => true
  | String c _ => multiline fl && is_line_terminator c
  end.

(** Ordered choice: the second alternative runs only when the first fails. *)
Notation "x <|> y" :=
  (match x with Some v => Some v | None => y end)
  (at level 60, right associativity, only parsing).

Section Exec.
Variable fl : flags.

(** Greedy [a*]: the longest run first, then shorter ones. *)
Fixpoint star (a : atom) (k : mstate -> option mstate)
    (p : option ascii) (cs : list (nat * string)) (s : string)
  : option mstate :=
  match s with
  | String c s' =>
      if atom_ok fl a c
      then star a k (Some c) cs s' <|> k (MState p s cs)
      else k (MState p s cs)
  | "" => k (MState p s cs)
  end.

(** Lazy [a*?]: the shortest run first, then longer ones. *)
Fixpoint lazy_star (a : atom) (k : mstate -> option mstate)
    (p : option ascii) (cs : list (nat * string)) (s : string)
  : option mstate :=
  k (MState p s cs) <|>
  match s with
  | String c s' =>
      if atom_ok fl a c then lazy_star a k (Some c) cs s' else None
  | "" => None
  end.

Definition one (a : atom) (k : mstate -> option mstate) (st : mstate)
  : option mstate :=
  match rest st with
  | String c s' =>
      if atom_ok fl a c then k (MState (Some c) s' (caps st)) else None
  | "" => None
  end.

(** [exec r k st]: match [r] at [st] and go on with [k]; the first
    success in the priority order of the pattern is the result. *)
Fixpoint exec (r : regex) (k : mstate -> option mstate) (st : mstate)
  : option mstate :=
  match r with
  | Eps => k st
  | One a => one a k st
  | Seq r1 r2 => exec r1 (exec r2 k) st
  | Alt r1 r2 => exec r1 k st <|> exec r2 k st
  | Opt a => one a k st <|> k st
  | Star a => star a k (prev st) (caps st) (rest st)
  | Plus a => one a (fun st' => star a k (prev st') (caps st') (rest st')) st
  | LazyStar a => lazy_star a k (prev st) (caps st) (rest st)
  | Group n r1 =>
      exec r1
        (fun st' =>
           k (MState (prev st') (rest st')
                ((n, taken (rest st) (rest st')) :: caps st')))
        st
  | Bol => if at_bol fl st then k st else None
  | Eol => if at_eol fl st then k st else None
  | Ahead r1 =>
      match exec r1 Some st with
      | Some st' => k (MState (prev st) (rest st) (caps st'))
      | None => None
      end
  end.

End Exec.

(** The number of capturing groups of a pattern. *)
Fixpoint ngroups (r : regex) : nat :=
  match r with
  | Seq r1 r2 | Alt r1 r2 => ngroups r1 + ngroups r2
  | Group _ r1 => S (ngroups r1)
  | Ahead r1 => ngroups r1
  | _ => 0
  end.

(** A match: where it starts, its text, its captures, the input after it. *)
Record rmatch := RMatch {
  m_index : nat;
  m_text : string;
  m_caps : list (nat * string);
  m_after : string
}.

Fixpoint lookup (n : nat) (cs : list (nat * string)) : option string :=
  match cs with
  | [] => None
  | (i, v) :: cs' => if i =? n then Some v else lookup n cs'
  end.

(** [m[n]] for a group that took part in the match (every group of the
    patterns below does whenever its pattern matches). *)
Definition group (n : nat) (m : rmatch) : string :=
  match lookup n (m_caps m) with
  | Some v => v
  | None => ""
  end.

(** The match of [r] that starts at the current position, if any. *)
Definition match_here (fl : flags) (r : regex) (p : option ascii) (i : nat)
    (s : string) : option rmatch :=
  match exec fl r Some (MState p s []) with
  | Some st => Some (RMatch i (taken s (rest st)) (caps st) (rest st))
  | None => None
  end.

(** The leftmost match at or after the current position. *)
Fixpoint search_from (fl : flags) (r : regex) (p : option ascii) (i : nat)
    (s : string) : option rmatch :=
  match match_here fl r p i s with
  | Some m => Some m
  | None =>
      match s with
      | "" => None
      | String c s' => search_from fl r (Some c) (S i) s'
      end
  end.

(** [re.exec(s)] and [s.match(re)] for a pattern without the [g] flag. *)
Definition re_match (fl : flags) (r : regex) (s : string) : option rmatch :=
  search_from fl r None 0 s.

(** [re.test(s)] *)
Definition re_test (fl : flags) (r : regex) (s : string) : bool :=
  match re_match fl r s with
  | Some _ => true
  | None => false
  end.

(** A sequence of pattern characters. *)
Fixpoint lit (s : string) : regex :=
  match s with
  | "" => Eps
  | String c "" => One (Lit c)
  | String c s' => Seq (One (Lit c)) (lit s')
  end.

Definition any_of (s : string) : ascii -> bool :=
  fun x => existsb (Ascii.eqb x) (list_ascii_of_string s).

(** [\s], [\d], [\w], [.] and the class [[\s\S]]. *)
Definition ws : atom := Cls false is_space.
Definition digit : atom := Cls false is_digit.
Definition word : atom := Cls false is_word.
Definition dot : atom := Cls true is_line_terminator.
Definition anything : atom := Cls false (fun x => is_space x || negb (is_space x)).

(** The number that two decimal digits denote. *)
Definition two_digits (d1 d2 : ascii) : nat :=
  10 * (code d1 - 48) + (code d2 - 48).

(** [GetSubstitution]: the replacement text of [s.replace(re, t)] for the
    match [m] found after the text [before]; [ng] is the number of
    capturing groups of [re].  [$$] is a dollar sign, [$&] the match,
    [$`] and [$'] the text before and after it, [$n] and [$nn] the
    capture of that number when the pattern has that many groups. *)
Fixpoint expand (m : rmatch) (before : string) (ng : nat) (t : string)
  : string :=
  match t with
  | "" => ""
  | String c t1 =>
      if negb (Ascii.eqb c "$") then String c (expand m before ng t1)
      else
        match t1 with
        | "" => "$"
        | String d1 t2 =>
            if Ascii.eqb d1 "$" then String "$" (expand m before ng t2)
            else if Ascii.eqb d1 "&" then m_text m ++ expand m before ng t2
            else if Ascii.eqb d1 "`" then before ++ expand m before ng t2
            else if Ascii.eqb d1 "'" then m_after m ++ expand m before ng t2
            else if negb (is_digit d1) then String "$" (expand m before ng t1)
            else
              let one_digit :=
                let i := code d1 - 48 in
                if (1 <=? i) && (i <=? ng)
                then group i m ++ expand m before ng t2
                else String "$" (String d1 (expand m before ng t2)) in
              match t2 with
              | "" => one_digit
              | String d2 t3 =>
                  if negb (is_digit d2) then one_digit
                  else
                    let i := two_digits d1 d2 in
                    if ng <? i then one_digit
                    else if 1 <=? i then group i m ++ expand m before ng t3
                    else String "$" (String d1 (String d2 (expand m before ng t3)))
              end
        end
  end.

(** [s.replace(re, t)] for a pattern without the [g] flag: the leftmost
    match alone is replaced. *)
Definition re_replace (fl : flags) (r : regex) (t : string) (s : string)
  : string :=
  match re_match fl r s with
  | None => s
  | Some m =>
      let before := substring 0 (m_index m) s in
      before ++ expand m before (ngroups r) t ++ m_after m
  end.

(** [s.replace(re, t)] for a pattern with the [g] flag.  [skip] counts the
    code units of the last match still to pass; after an empty match the
    search moves on by one code unit, which is kept. *)
Fixpoint replace_all_from (fl : flags) (r : regex) (t : string)
    (before : string) (p : option ascii) (skip : nat) (s : string) : string :=
  match s with
  | "" =>
      match skip with
      | S _ => ""
      | 0 =>
          match match_here fl r p 0 s with
          | Some m => expand m before (ngroups r) t
          | None => ""
          end
      end
  | String c s' =>
      let next := replace_all_from fl r t (before ++ String c "") (Some c) in
      match skip with
      | S n => next n s'
      | 0 =>
          match match_here fl r p 0 s with
          | Some m =>
              expand m before (ngroups r) t ++
              match String.length (m_text m) with
              | 0 => String c (next 0 s')
              | S n => next n s'
              end
          | None => String c (next 0 s')
          end
      end
  end.

Definition re_replace_all (fl : flags) (r : regex) (t : string) (s : string)
  : string :=
  replace_all_from fl r t "" None 0 s.

(** The texts of all matches, as [s.match(re)] lists them for a pattern
    with the [g] flag. *)
Fixpoint match_all_from (fl : flags) (r : regex) (p : option ascii)
    (skip : nat) (s : string) : list string :=
  match s with
  | "" =>
      match skip with
      | S _ => []
      | 0 =>
          match match_here fl r p 0 s with
          | Some m => [m_text m]
          | None => []
          end
      end
  | String c s' =>
      match skip with
      | S n => match_all_from fl r (Some c) n s'
      | 0 =>
          match match_here fl r p 0 s with
          | Some m =>
              m_text m ::
              match_all_from fl r (Some c) (String.length (m_text m) - 1) s'
          | None => match_all_from fl r (Some c) 0 s'
          end
      end
  end.

(** [s.match(re)] with the [g] flag: [null] when nothing matches. *)
Definition re_match_all (fl : flags) (r : regex) (s : string)
  : option (list string) :=
  match match_all_from fl r None 0 s with
  | [] => None
  | ms => Some ms
  end.

(** [s.split(re)] for a pattern without capturing groups.  [cur] is the
    piece being read.  A match is tried at every index below the length
    of [s]; an empty match at the start of a piece is passed over. *)
Fixpoint split_from (fl : flags) (r : regex) (p : option ascii)
    (skip : nat) (cur : string) (s : string) : list string :=
  match s with
  | "" => [cur]
  | String c s' =>
      match skip with
      | S n => split_from fl r (Some c) n cur s'
      | 0 =>
          match match_here fl r p 0 s with
          | Some m =>
              match String.length (m_text m) with
              | 0 =>
                  if String.eqb cur "" then
                    split_from fl r (Some c) 0 (String c "") s'
                  else cur :: split_from fl r (Some c) 0 (String c "") s'
              | S n => cur :: split_from fl r (Some c) n "" s'
              end
          | None => split_from fl r (Some c) 0 (cur ++ String c "") s'
          end
      end
  end.

Definition re_split (fl : flags) (r : regex) (s : string) : list string :=
  match s with
  | "" => match match_here fl r None 0 s with Some _ => [] | None => [""] end
  | _ => split_from fl r None 0 "" s
  end.

End Regex.
Import Regex.

Declare Scope regex_scope.
Delimit Scope regex_scope with re.
Bind Scope regex_scope with regex.
Notation "r1 >> r2" := (Seq r1 r2) (at level 61, right associativity) : regex_scope.
Notation "r1 <+> r2" := (Alt r1 r2) (at level 62, right associativity) : regex_scope.

(** ** Outcomes and effects *)

(** A JavaScript exception value. *)
Inductive exn : Type :=
| Error (message : string).

(** What a call comes to: a value, or an exception that propagates (for
    an [async] function: a promise fulfilled or rejected). *)
Inductive outcome (A : Type) : Type :=
| Return (a : A)
| Throw (e : exn).
Arguments Return {A} a.
Arguments Throw {A} e.

(** The part of the environment the pipeline writes to: the files, the
    directory listings and the console. *)
Record world := World {
  files : string -> option string;
  dirs : string -> option (list string);
  console : list string
}.

Module Eff.

(** Computations that read and write the world and may throw. *)
Definition M (A : Type) : Type := world -> outcome A * world.

Definition ret {A} (a : A) : M A := fun w => (Return a, w).

Definition bind {A B} (m : M A) (f : A -> M B) : M B :=
  fun w =>
    match m w with
    | (Return a, w') => f a w'
    | (Throw e, w') => (Throw e, w')
    end.

Definition throw {A} (e : exn) : M A := fun w => (Throw e, w).

(** [try { m } catch (e) { h e }] *)
Definition try_catch {A} (m : M A) (h : exn -> M A) : M A :=
  fun w =>
    match m w with
    | (Return a, w') => (Return a, w')
    | (Throw e, w') => h e w'
    end.

(** A call whose outcome the world does not depend on. *)
Definition lift {A} (o : outcome A) : M A := fun w => (o, w).

(** [console.log] and [console.warn] *)
Definition log (line : string) : M unit :=
  fun w => (Return tt, World (files w) (dirs w) (console w ++ [line])%list).

(** [fs.readFile(path, 'utf-8')] *)
Definition readFile (path : string) : M string :=
  fun w =>
    match files w path with
    | Some text => (Return text, w)
    | None => (Throw (Error ("ENOENT: no such file or directory, open '" ++ path ++ "'")), w)
    end.

(** [fs.writeFile(path, text)] *)
Definition writeFile (path text : string) : M unit :=
  fun w =>
    (Return tt,
     World (fun p => if String.eqb p path then Some text else files w p)
           (dirs w) (console w)).

(** [fs.readdir(path)] *)
Definition readdir (path : string) : M (list string) :=
  fun w =>
    match dirs w path with
    | Some names => (Return names, w)
    | None => (Throw (Error ("ENOENT: no such file or directory, scandir '" ++ path ++ "'")), w)
    end.

End Eff.
Import Eff.

Notation "x <- m ;; k" := (bind m (fun x => k))
  (at level 100, m at next level, right associativity).
Notation "m ;;; k" := (bind m (fun _ => k))
  (at level 100, right associativity).

(** ** Numbers *)

(** A Number is an IEEE 754 double.  The pipeline computes with file
    numbers: of the doubles, the non-negative integers and [Infinity]
    are modelled.  [Finite n] stands for the double of value [n]. *)
Module Float64.

Inductive number : Type :=
| Finite (n : N)
| Infinity.

(** Every integer below 2^53 is a double. *)
Definition exact_below : N := 2 ^ 53.

(** From 2^1024 on a rounded value is [Infinity]. *)
Definition overflow : N := 2 ^ 1024.

(** The Number value for a non-negative integer: the nearest double,
    the one with the even significand when two are as near.  From 2^53
    on, [e] binary digits do not fit into the significand [q] of 53
    binary digits; [r] is what they are worth. *)
Definition nearest (n : N) : number :=
  if (n <? exact_below)%N then Finite n
  else
    let e := (N.log2 n - 52)%N in
    let q := N.shiftr n e in
    let r := (n - N.shiftl q e)%N in
    let half := N.shiftl 1 (e - 1) in
    let q' := if (half <? r)%N || ((r =? half)%N && N.odd q)
              then (q + 1)%N else q in
    let m := N.shiftl q' e in
    if (overflow <=? m)%N then Infinity else Finite m.

(** [x + y] *)
Definition add (x y : number) : number :=
  match x, y with
  | Finite a, Finite b => nearest (a + b)
  | _, _ => Infinity
  end.

(** [x > y] *)
Definition gtb (x y : number) : bool :=
  match x, y with
  | Finite a, Finite b => (b <? a)%N
  | Infinity, Finite _ => true
  | _, Infinity => false
  end.

End Float64.

(** ** automation/lib/github-fetcher.js *)

Module GithubFetcher.

(** *** parseGitHubUrl *)

Definition not_slash : atom := Cls true (any_of "/").

(** [/github\.com\/([^\/]+)\/([^\/]+)/] *)
Definition url_pattern : regex :=
  (lit "github.com/" >> Group 1 (Plus not_slash) >> One (Lit "/") >>
   Group 2 (Plus not_slash))%re.

(** [/github\.com:([^\/]+)\/([^\/]+)/] *)
Definition ssh_pattern : regex :=
  (lit "github.com:" >> Group 1 (Plus not_slash) >> One (Lit "/") >>
   Group 2 (Plus not_slash))%re.

Definition patterns : list regex := [url_pattern; ssh_pattern].

(** [/\.git$/] *)
Definition git_suffix : regex := (lit ".git" >> Eol)%re.

Record repoRef := RepoRef { owner : string; repo : string }.

(** The loop over [patterns]; the [throw] after it. *)
Fixpoint parse_with (ps : list regex) (url : string) : outcome repoRef :=
  match ps with
  | [] => Throw (Error ("Invalid GitHub URL: " ++ url))
  | pattern :: ps' =>
      match re_match plain pattern url with
      | Some m =>
          Return (RepoRef (group 1 m)
                          (re_replace plain git_suffix "" (group 2 m)))
      | None => parse_with ps' url
      end
  end.

Definition parseGitHubUrl (url : string) : outcome repoRef :=
  parse_with patterns url.

(** *** fetchRepoData *)

(** A parsed JSON value (the numbers of a manifest play no part here and
    are kept as integers). *)
#[local] Set Warnings "-register-all".
Inductive json : Type :=
| JNull
| JBool (b : bool)
| JNum (n : Z)
| JStr (s : string)
| JArr (items : list json)
| JObj (members : list (string * json)).

(** The repository object of [repos.get], by the fields read. *)
Record repoInfo := RepoInfo {
  ri_name : string;
  ri_description : option string;
  ri_html_url : string;
  ri_homepage : option string;
  ri_topics : option (list string);
  ri_created_at : string;
  ri_updated_at : string;
  ri_stargazers_count : N;
  ri_forks_count : N
}.

(** The file object of [repos.getReadme] and [repos.getContent]; a
    directory listing has no [content]. *)
Record fileData := FileData { content : option string }.

(** The client: each call resolves to its [data] or rejects. *)
Record octokit := Octokit {
  repos_get : string -> string -> outcome repoInfo;
  repos_getReadme : string -> string -> outcome fileData;
  repos_getContent : string -> string -> string -> outcome fileData;
  repos_listLanguages : string -> string -> outcome (list (string * N))
}.

Record repoData := RepoData {
  rd_name : string;
  rd_description : string;
  rd_url : string;
  rd_homepage : option string;
  rd_topics : option (list string);
  rd_languages : option (list (string * N));
  rd_readme : option string;
  rd_packageJson : option json;
  rd_requirements : option string;
  rd_createdAt : string;
  rd_updatedAt : string;
  rd_stars : N;
  rd_forks : N
}.

Section Fetch.

(** [Buffer.from(text, 'base64').toString('utf8')] and [JSON.parse]. *)
Variable base64_decode : string -> string.
Variable JSON_parse : string -> outcome json.

(** [Buffer.from(data.content, 'base64').toString('utf8')]: a [TypeError]
    when [content] is undefined. *)
Definition decode_content (d : fileData) : M string :=
  match content d with
  | Some text => ret (base64_decode text)
  | None =>
      throw (Error "The first argument must be of type string or an instance of Buffer, ArrayBuffer, or Array or an Array-like Object. Received undefined")
  end.

Definition or_default {A} (o : option A) (d : A) : A :=
  match o with
  | Some a => a
  | None => d
  end.

Definition fetchRepoData (api : octokit) (owner repo : string) : M repoData :=
  log ("Fetching repository: " ++ owner ++ "/" ++ repo ++ "...") ;;;
  repoInfo <- lift (repos_get api owner repo) ;;
  readme <-
    try_catch
      (readmeData <- lift (repos_getReadme api owner repo) ;;
       text <- decode_content readmeData ;;
       ret (Some text))
      (fun _ => log "No README found" ;;; ret None) ;;
  packageJson <-
    try_catch
      (pkgData <- lift (repos_getContent api owner repo "package.json") ;;
       text <- decode_content pkgData ;;
       value <- lift (JSON_parse text) ;;
       ret (Some value))
      (fun _ => ret None) ;;
  requirements <-
    try_catch
      (reqData <- lift (repos_getContent api owner repo "requirements.txt") ;;
       text <- decode_content reqData ;;
       ret (Some text))
      (fun _ => ret None) ;;
  languages <- lift (repos_listLanguages api owner repo) ;;
  ret (RepoData
         (ri_name repoInfo)
         (match ri_description repoInfo with
          | Some "" | None => ""
          | Some d => d
          end)
         (ri_html_url repoInfo)
         (ri_homepage repoInfo)
         (Some (or_default (ri_topics repoInfo) []))
         (Some languages)
         readme
         packageJson
         requirements
         (ri_created_at repoInfo)
         (ri_updated_at repoInfo)
         (ri_stargazers_count repoInfo)
         (ri_forks_count repoInfo)).

End Fetch.

(** *** parseReadme *)

Definition not_newline : atom := Cls true (any_of (String nl "")).
Definition fence : string := "```".

(** [/\n\n+/] *)
Definition blank_lines : regex := (One (Lit nl) >> Plus (Lit nl))%re.

(** [/^#+\s+.+\n?/] *)
Definition heading_line : regex :=
  (Bol >> Plus (Lit "#") >> Plus ws >> Plus dot >> Opt (Lit nl))%re.

(** [/\n/g] *)
Definition newline : regex := One (Lit nl).

(** [(?=\n##|\n$)] *)
Definition section_end : regex :=
  Ahead ((One (Lit nl) >> lit "##") <+> (One (Lit nl) >> Eol))%re.

(** [/##?\s*(?:Features|Key Features|What it does)[^\n]*\n([\s\S]*?)(?=\n##|\n$)/i] *)
Definition features_section : regex :=
  (One (Lit "#") >> Opt (Lit "#") >> Star ws >>
   (lit "Features" <+> lit "Key Features" <+> lit "What it does") >>
   Star not_newline >> One (Lit nl) >>
   Group 1 (LazyStar anything) >> section_end)%re.

(** [/^[-*]\s+(.+)$/gm] *)
Definition bullet_line : regex :=
  (Bol >> One (Cls false (any_of "-*")) >> Plus ws >> Group 1 (Plus dot) >>
   Eol)%re.

(** [/^[-*]\s+/] *)
Definition bullet_mark : regex :=
  (Bol >> One (Cls false (any_of "-*")) >> Plus ws)%re.

(** [/##?\s*(?:Installation|Getting Started|Quick Start|Setup)[^\n]*\n([\s\S]*?)(?=\n##|\n$)/i] *)
Definition install_section : regex :=
  (One (Lit "#") >> Opt (Lit "#") >> Star ws >>
   (lit "Installation" <+> lit "Getting Started" <+> lit "Quick Start" <+>
    lit "Setup") >>
   Star not_newline >> One (Lit nl) >>
   Group 1 (LazyStar anything) >> section_end)%re.

(** [/```[\s\S]*?```/g] *)
Definition code_block : regex := (lit fence >> LazyStar anything >> lit fence)%re.

(** [/```\w*\n?/g] *)
Definition fence_mark : regex := (lit fence >> Star word >> Opt (Lit nl))%re.

Record readmeInfo := ReadmeInfo {
  features : list string;
  installation : list string;
  description : string
}.

(** What [parseReadme] returns: the object [{}], or the object with the
    three fields. *)
Inductive parsed : Type :=
| EmptyObject
| Fields (info : readmeInfo).

(** [para.replace(/^#+\s+.+\n?/, '').trim()] *)
Definition cleaned (para : string) : string :=
  trim (re_replace plain heading_line "" para).

(** The condition of the [if] in the loop over the paragraphs. *)
Definition describes (c : string) : bool :=
  negb (String.eqb c "") && negb (startsWith c "#") &&
  negb (startsWith c fence) && (50 <? String.length c).

(** The loop over the paragraphs, with its [break]; [result.description]
    is [''] before the loop. *)
Fixpoint first_description (paragraphs : list string) : string :=
  match paragraphs with
  | [] => ""
  | para :: more =>
      if describes (cleaned para)
      then slice0 500 (re_replace_all plain newline " " (cleaned para))
      else first_description more
  end.

Definition extract_features (readme : string) : list string :=
  match re_match flag_i features_section readme with
  | Some featuresMatch =>
      match re_match_all flag_m bullet_line (group 1 featuresMatch) with
      | Some bullets =>
          map (fun b => trim (re_replace plain bullet_mark "" b))
              (firstn 6 bullets)
      | None => []
      end
  | None => []
  end.

Definition extract_installation (readme : string) : list string :=
  match re_match flag_i install_section readme with
  | Some installMatch =>
      match re_match_all plain code_block (group 1 installMatch) with
      | Some codeBlocks =>
          filter (fun cmd => 0 <? String.length cmd)
            (map (fun block => trim (re_replace_all plain fence_mark "" block))
                 codeBlocks)
      | None => []
      end
  | None => []
  end.

(** [readme] is [None] for [null] and [undefined]. *)
Definition parseReadme (readme : option string) : parsed :=
  match readme with
  | None | Some "" => EmptyObject
  | Some text =>
      Fields (ReadmeInfo
                (extract_features text)
                (extract_installation text)
                (first_description (re_split plain blank_lines text)))
  end.

(** Reading a property of the result: [undefined] is [None]. *)
Definition get_features (r : parsed) : option (list string) :=
  match r with
  | EmptyObject => None
  | Fields info => Some (features info)
  end.

Definition get_installation (r : parsed) : option (list string) :=
  match r with
  | EmptyObject => None
  | Fields info => Some (installation info)
  end.

Definition get_description (r : parsed) : option string :=
  match r with
  | EmptyObject => None
  | Fields info => Some (description info)
  end.

(** *** detectTechStack *)

Record badge := Badge {
  abbr : string;
  name : string;
  badge_description : string;
  color : string
}.

Definition techMappings : list (string * badge) :=
  [ ("JavaScript", Badge "JS" "JavaScript" "Core language" "linear-gradient(135deg, #f7df1e 0%, #c9b200 100%)");
    ("TypeScript", Badge "TS" "TypeScript" "Type-safe JavaScript" "linear-gradient(135deg, #3178c6 0%, #235a97 100%)");
    ("Python", Badge "Py" "Python" "Core language" "linear-gradient(135deg, #3776ab 0%, #ffd43b 100%)");
    ("Go", Badge "Go" "Golang" "Systems programming" "linear-gradient(135deg, #00add8 0%, #007d9c 100%)");
    ("Rust", Badge "Rs" "Rust" "Systems programming" "linear-gradient(135deg, #dea584 0%, #b7410e 100%)");
    ("HTML", Badge "HTML" "HTML5" "Markup language" "linear-gradient(135deg, #e34c26 0%, #f06529 100%)");
    ("CSS", Badge "CSS" "CSS3" "Styling" "linear-gradient(135deg, #264de4 0%, #2965f1 100%)");
    ("react", Badge "React" "React" "UI library" "linear-gradient(135deg, #61dafb 0%, #21a1c4 100%)");
    ("nextjs", Badge "Next" "Next.js" "React framework" "linear-gradient(135deg, #000 0%, #333 100%)");
    ("nodejs", Badge "Node" "Node.js" "Runtime" "linear-gradient(135deg, #68a063 0%, #3c873a 100%)");
    ("docker", Badge "Docker" "Docker" "Containerization" "linear-gradient(135deg, #2496ed 0%, #1976d2 100%)");
    ("aws", Badge "AWS" "AWS" "Cloud platform" "linear-gradient(135deg, #ff9900 0%, #cc7a00 100%)");
    ("tensorflow", Badge "TF" "TensorFlow" "ML framework" "linear-gradient(135deg, #ff6f00 0%, #ff9800 100%)");
    ("pytorch", Badge "PT" "PyTorch" "ML framework" "linear-gradient(135deg, #ee4c2c 0%, #ff6f61 100%)");
    ("openai", Badge "GPT" "OpenAI" "AI/LLM" "linear-gradient(135deg, #412991 0%, #10a37f 100%)");
    ("langchain", Badge "LC" "LangChain" "LLM framework" "linear-gradient(135deg, #1c3c3c 0%, #2d5a5a 100%)") ].

Definition depMappings : list (string * string) :=
  [ ("react", "react"); ("next", "nextjs"); ("@tensorflow/tfjs", "tensorflow");
    ("openai", "openai"); ("langchain", "langchain") ].

Definition pyMappings : list (string * string) :=
  [ ("tensorflow", "tensorflow"); ("torch", "pytorch"); ("openai", "openai");
    ("langchain", "langchain") ].

(** The own property [key] of an object; [None] when it has none. *)
Fixpoint get {A} (obj : list (string * A)) (key : string) : option A :=
  match obj with
  | [] => None
  | (k, v) :: obj' => if String.eqb k key then Some v else get obj' key
  end.

(** What [techMappings[key]] can be.  The table is an object literal:
    behind its own properties, the badges, it has the properties of
    [Object.prototype], which are functions, and [__proto__], which is
    [Object.prototype] itself. *)
Inductive member : Type :=
| Mapped (b : badge)
| Builtin (fname : string)
| ObjectPrototype.

(** The methods of [Object.prototype]; the [name] of each is its key. *)
Definition methods : list string :=
  [ "hasOwnProperty"; "isPrototypeOf"; "propertyIsEnumerable";
    "toLocaleString"; "toString"; "valueOf";
    "__defineGetter__"; "__defineSetter__";
    "__lookupGetter__"; "__lookupSetter__" ].

(** [Object.prototype[key]]; [constructor] is the function [Object]. *)
Definition inherited (key : string) : option member :=
  if String.eqb key "constructor" then Some (Builtin "Object")
  else if String.eqb key "__proto__" then Some ObjectPrototype
  else if existsb (String.eqb key) methods then Some (Builtin key)
  else None.

(** [techMappings[key]]: [None] is [undefined]; what is found is an
    object or a function, and truthy. *)
Definition techMappings_at (key : string) : option member :=
  match get techMappings key with
  | Some b => Some (Mapped b)
  | None => inherited key
  end.

(** [t.name]: [None] is [undefined]. *)
Definition member_name (t : member) : option string :=
  match t with
  | Mapped b => Some (name b)
  | Builtin fname => Some fname
  | ObjectPrototype => None
  end.

(** [t.name.toLowerCase()]: a [TypeError] when [t.name] is undefined. *)
Definition lower_name (t : member) : outcome string :=
  match member_name t with
  | Some n => Return (toLowerCase n)
  | None =>
      Throw (Error "Cannot read properties of undefined (reading 'toLowerCase')")
  end.

(** A call that can throw, and what follows it. *)
Definition and_then {A B} (o : outcome A) (f : A -> outcome B) : outcome B :=
  match o with
  | Return a => f a
  | Throw e => Throw e
  end.

(** [for (const x of l) { techStack = body techStack x }] *)
Fixpoint for_of {A S} (l : list A) (body : S -> A -> outcome S) (s : S)
  : outcome S :=
  match l with
  | [] => Return s
  | x :: l' => and_then (body s x) (for_of l' body)
  end.

(** [techStack.find(t => t.name.toLowerCase() === e.name.toLowerCase())]
    finds something.  The callback runs on the entries in order, up to
    the first one it accepts; on each it takes the lower-case name of
    the entry, then that of [e]. *)
Fixpoint listed (techStack : list member) (e : member) : outcome bool :=
  match techStack with
  | [] => Return false
  | t :: more =>
      and_then (lower_name t) (fun a =>
      and_then (lower_name e) (fun b =>
      if String.eqb a b then Return true else listed more e))
  end.

(** The body of the first loop: [push] when the lookup is truthy. *)
Definition add_language (techStack : list member) (lang : string)
  : list member :=
  match techMappings_at lang with
  | Some e => (techStack ++ [e])%list
  | None => techStack
  end.

(** The [push] of the other three loops, guarded by the lookup and by
    [find]. *)
Definition add_key (techStack : list member) (key : string)
  : outcome (list member) :=
  match techMappings_at key with
  | Some e =>
      and_then (listed techStack e) (fun found =>
      Return (if negb found then (techStack ++ [e])%list else techStack))
  | None => Return techStack
  end.

Definition add_topic (techStack : list member) (topic : string)
  : outcome (list member) :=
  add_key techStack (toLowerCase topic).

Definition add_dependency (deps : list string) (techStack : list member)
    (entry : string * string) : outcome (list member) :=
  let (dep, key) := entry in
  if existsb (String.eqb dep) deps then add_key techStack key
  else Return techStack.

Definition add_requirement (reqLower : string) (techStack : list member)
    (entry : string * string) : outcome (list member) :=
  let (pkg, key) := entry in
  if includes reqLower pkg then add_key techStack key else Return techStack.

(** Truthiness of a parsed JSON value. *)
Definition truthy (v : json) : bool :=
  match v with
  | JNull | JBool false | JStr "" => false
  | JNum n => negb (Z.eqb n 0)
  | _ => true
  end.

Fixpoint indices (n : nat) : list string :=
  match n with
  | 0 => []
  | S m => (indices m ++ [DecimalString.NilEmpty.string_of_uint (Nat.to_uint m)])%list
  end.

(** [Object.keys(v)] *)
Definition Object_keys (v : json) : list string :=
  match v with
  | JObj members => map fst members
  | JArr items => indices (List.length items)
  | JStr s => indices (String.length s)
  | _ => []
  end.

(** [packageJson?.dependencies]: the member when [packageJson] is an
    object that has it, [undefined] otherwise. *)
Definition dependencies (packageJson : option json) : option json :=
  match packageJson with
  | Some (JObj members) => get members "dependencies"
  | _ => None
  end.

Definition detectTechStack (repoData : repoData) : outcome (list member) :=
  let techStack := [] in
  let techStack :=
    match rd_languages repoData with
    | Some languages =>
        let topLangs := firstn 3 (map fst languages) in
        fold_left add_language topLangs techStack
    | None => techStack
    end in
  and_then
    (match rd_topics repoData with
     | Some topics => for_of topics add_topic techStack
     | None => Return techStack
     end) (fun techStack =>
  and_then
    (match dependencies (rd_packageJson repoData) with
     | Some v =>
         if truthy v
         then for_of depMappings (add_dependency (Object_keys v)) techStack
         else Return techStack
     | None => Return techStack
     end) (fun techStack =>
  and_then
    (match rd_requirements repoData with
     | Some "" | None => Return techStack
     | Some requirements =>
         for_of pyMappings (add_requirement (toLowerCase requirements))
           techStack
     end) (fun techStack =>
  Return (firstn 4 techStack)))).

End GithubFetcher.

(** ** automation/lib/template-generator.js *)

Module TemplateGenerator.

(** The decimal numeral of a number, as a template literal prints it. *)
Definition decimal (n : N) : string := DecimalString.NilZero.string_of_uint (N.to_uint n).

(** [/\d+/] *)
Definition digits : regex := Plus digit.

(** [/[^a-z0-9]+/g] *)
Definition non_alnum : regex :=
  Plus (Cls true (fun c => is_lower c || is_digit c)).

(** [/^-|-$/g] *)
Definition edge_hyphen : regex :=
  ((Bol >> One (Lit "-")) <+> (One (Lit "-") >> Eol))%re.

(** The slug of [generateFilename]:
    [title.toLowerCase().replace(/[^a-z0-9]+/g, '-').replace(/^-|-$/g, '')]. *)
Definition slugify (title : string) : string :=
  re_replace_all plain edge_hyphen ""
    (re_replace_all plain non_alnum "-" (toLowerCase title)).

(** [now] is what [Date.now()] returns at the call; [projectNumber] is
    [None] for [null] and [undefined]. *)
Definition generateFilename (now : N) (title : string)
    (projectNumber : option string) : string :=
  let numMatch :=
    match projectNumber with
    | Some label => re_match plain digits label
    | None => None
    end in
  let num :=
    match numMatch with
    | Some m => m_text m
    | None => decimal now
    end in
  "day-" ++ num ++ "-" ++ slugify title ++ ".html".

(** The project record, by the fields the card reads; [None] is
    [undefined]. *)
Record projectData := ProjectData {
  projectNumber : option string;
  title : option string;
  tagline : option string;
  description : option string;
  imageUrl : option string;
  badgeColor : option string;
  stats : option (list string);
  techStack : option (list GithubFetcher.badge);
  githubUrl : option string;
  youtubeUrl : option string;
  linkedinUrl : option string
}.

(** [${x}] in a template literal. *)
Definition show (x : option string) : string :=
  match x with
  | Some s => s
  | None => "undefined"
  end.

(** [x || d] for a string [x] that may be undefined. *)
Definition or_else (x : option string) (d : string) : string :=
  match x with
  | Some "" | None => d
  | Some s => s
  end.
Notation "x ||| d" := (or_else x d) (at level 50, left associativity).

(** [projectData.tagline || projectData.description?.slice(0, 100) || ''] *)
Definition short_text (projectData : projectData) : string :=
  tagline projectData |||
  (match description projectData with
   | Some d => Some (slice0 100 d)
   | None => None
   end ||| "").

(** [projectData.techStack?.[i]?.name] *)
Definition tech_name (projectData : projectData) (i : nat) : option string :=
  match techStack projectData with
  | Some l =>
      match nth_error l i with
      | Some b => Some (GithubFetcher.name b)
      | None => None
      end
  | None => None
  end.

Definition dq : ascii := ascii_of_nat 34.

Fixpoint html (s : string) : string :=
  match s with
  | "" => ""
  | String c s' => String (if Ascii.eqb c "~" then dq else c) (html s')
  end.

(** The card.  The texts of the template are written with [~] for the
    double quote; [html] puts the quotes back. *)
Definition generateProjectCard (projectData : projectData) (filename : string)
  : string :=
  let badgeColor :=
    badgeColor projectData ||| "linear-gradient(135deg, #E50914 0%, #ff4d4d 100%)" in
  let stats :=
    match stats projectData with
    | Some l => l
    | None =>
        [ tech_name projectData 0 ||| "Modern";
          tech_name projectData 1 ||| "Stack";
          "Open Source" ]
    end in
  String.concat "" [
      "
                <!-- ";
      show (projectNumber projectData);
      " Card - ";
      show (title projectData);
      html " -->
                <div class=~daily-card featured~ onclick=~window.location.href='projects/";
      filename;
      html "'~ style=~cursor: pointer;~>
                    <div class=~daily-card-image~>
                        <img src=~";
      (imageUrl projectData ||| "https://images.unsplash.com/photo-1555066931-4365d14bab8c?w=400&h=250&fit=crop");
      html "~ alt=~";
      show (title projectData);
      html "~>
                        <div class=~day-badge new~ style=~background: ";
      badgeColor;
      html ";~>";
      show (projectNumber projectData);
      html "</div>
                        <div class=~new-ribbon~>NEW</div>
                        <div class=~card-gradient~></div>
                    </div>
                    <div class=~daily-card-content~>
                        <h3>";
      show (title projectData);
      html "</h3>
                        <p class=~card-description~>";
      short_text projectData;
      html "</p>
                        <div class=~card-stats~>
                            <span class=~stat-item~><strong>";
      show (nth_error stats 0);
      html "</strong></span>
                            <span class=~stat-item~><strong>";
      show (nth_error stats 1);
      html "</strong></span>
                            <span class=~stat-item~><strong>";
      show (nth_error stats 2);
      html "</strong></span>
                        </div>
                        <div class=~card-links~>
                            <a href=~";
      show (githubUrl projectData);
      html "~ target=~_blank~ class=~card-link github~>
                                <svg viewBox=~0 0 24 24~ width=~18~ height=~18~ fill=~currentColor~><path d=~M12 0c-6.626 0-12 5.373-12 12 0 5.302 3.438 9.8 8.207 11.387.599.111.793-.261.793-.577v-2.234c-3.338.726-4.033-1.416-4.033-1.416-.546-1.387-1.333-1.756-1.333-1.756-1.089-.745.083-.729.083-.729 1.205.084 1.839 1.237 1.839 1.237 1.07 1.834 2.807 1.304 3.492.997.107-.775.418-1.305.762-1.604-2.665-.305-5.467-1.334-5.467-5.931 0-1.311.469-2.381 1.236-3.221-.124-.303-.535-1.524.117-3.176 0 0 1.008-.322 3.301 1.23.957-.266 1.983-.399 3.003-.404 1.02.005 2.047.138 3.006.404 2.291-1.552 3.297-1.23 3.297-1.23.653 1.653.242 2.874.118 3.176.77.84 1.235 1.911 1.235 3.221 0 4.609-2.807 5.624-5.479 5.921.43.372.823 1.102.823 2.222v3.293c0 .319.192.694.801.576 4.765-1.589 8.199-6.086 8.199-11.386 0-6.627-5.373-12-12-12z~/></svg>
                                GitHub
                            </a>";
      match youtubeUrl projectData with
      | Some "" | None => ""
      | Some url =>
          String.concat "" [
            html "
                            <a href=~";
            url;
            html "~ target=~_blank~ class=~card-link~ style=~background: rgba(255, 0, 0, 0.2); color: #ff4444;~>
                                <svg viewBox=~0 0 24 24~ width=~18~ height=~18~ fill=~currentColor~><path d=~M19.615 3.184c-3.604-.246-11.631-.245-15.23 0-3.897.266-4.356 2.62-4.385 8.816.029 6.185.484 8.549 4.385 8.816 3.6.245 11.626.246 15.23 0 3.897-.266 4.356-2.62 4.385-8.816-.029-6.185-.484-8.549-4.385-8.816zm-10.615 12.816v-8l8 3.993-8 4.007z~/></svg>
                                Demo
                            </a>" ]
      end;
      match linkedinUrl projectData with
      | Some "" | None => ""
      | Some url =>
          String.concat "" [
            html "
                            <a href=~";
            url;
            html "~ target=~_blank~ class=~card-link linkedin~>
                                <svg viewBox=~0 0 24 24~ width=~18~ height=~18~ fill=~currentColor~><path d=~M19 0h-14c-2.761 0-5 2.239-5 5v14c0 2.761 2.239 5 5 5h14c2.762 0 5-2.239 5-5v-14c0-2.761-2.238-5-5-5zm-11 19h-3v-11h3v11zm-1.5-12.268c-.966 0-1.75-.79-1.75-1.764s.784-1.764 1.75-1.764 1.75.79 1.75 1.764-.783 1.764-1.75 1.764zm13.5 12.268h-3v-5.604c0-3.368-4-3.113-4 0v5.604h-3v-11h3v1.765c1.396-2.586 7-2.777 7 2.476v6.759z~/></svg>
                                Post
                            </a>" ]
      end;
      "
                        </div>
                    </div>
                </div>" ].

End TemplateGenerator.

(** ** automation/lib/browse-updater.js *)

Module BrowseUpdater.
Import TemplateGenerator Float64.

(** The comment both patterns end with. *)
Definition marker : string := "<!-- Professional Experience -->".

(** [/(<\/div>\s*<\/div>\s*<\/div>\s*<\/section>\s*\n\s*<!-- Professional Experience -->)/] *)
Definition insertPattern : regex :=
  Group 1
    (lit "</div>" >> Star ws >> lit "</div>" >> Star ws >> lit "</div>" >>
     Star ws >> lit "</section>" >> Star ws >> One (Lit nl) >> Star ws >>
     lit marker)%re.

(** [/(    <\/section>\s*\n\s*<!-- Professional Experience -->)/] *)
Definition fallbackPattern : regex :=
  Group 1
    (lit "    </section>" >> Star ws >> One (Lit nl) >> Star ws >>
     lit marker)%re.

(** The text both replacements put after the card. *)
Definition closing : string :=
  "
            </div>
        </div>
    </section>

    <!-- Professional Experience -->".

(** [/day-(\d+)/] *)
Definition day_number : regex := (lit "day-" >> Group 1 (Plus digit))%re.

(** The integer that a run of decimal digits denotes. *)
Definition mathInt (s : string) : N :=
  fold_left (fun n c => (10 * n + N.of_nat (code c - 48))%N)
            (list_ascii_of_string s) 0%N.

(** [parseInt(s, 10)] on a run of decimal digits: the Number value for
    the integer they denote, all digits read. *)
Definition parseInt (s : string) : number := nearest (mathInt s).

Section Paths.

(** [path.join] *)
Variable path_join : string -> string -> string.

Definition updateBrowseHtml (projectData : projectData)
    (filename portfolioPath : string) : M unit :=
  let browsePath := path_join portfolioPath "browse.html" in
  browseContent <- readFile browsePath ;;
  let cardHtml := generateProjectCard projectData filename in
  browseContent <-
    (if negb (re_test plain insertPattern browseContent) then
       if re_test plain fallbackPattern browseContent then
         ret (re_replace plain fallbackPattern (cardHtml ++ closing)
                browseContent)
       else throw (Error "Could not find insertion point in browse.html")
     else
       ret (re_replace plain insertPattern (cardHtml ++ closing)
              browseContent)) ;;
  writeFile browsePath browseContent ;;;
  log ("Updated browse.html with " ++ show (title projectData) ++ " card").

(** The body of the loop over [projectFiles]. *)
Definition larger (maxNum : number) (file : string) : number :=
  match re_match plain day_number file with
  | Some m =>
      let num := parseInt (group 1 m) in
      if gtb num maxNum then num else maxNum
  | None => maxNum
  end.

Definition getNextProjectNumber (portfolioPath : string) : M number :=
  let projectsDir := path_join portfolioPath "projects" in
  try_catch
    (files <- readdir projectsDir ;;
     let projectFiles :=
       filter (fun f => startsWith f "day-" && endsWith f ".html") files in
     let maxNum := fold_left larger projectFiles (Finite 0) in
     ret (add maxNum (Finite 1)))
    (fun _ => ret (Finite 1)).

End Paths.

End BrowseUpdater.

(** ** Runs, prefixes and suffixes: the vocabulary of the statements *)

Module Text.

(** The longest prefix of [s] made of code units that satisfy [f], and
    what follows it. *)
Fixpoint take_while (f : ascii -> bool) (s : string) : string :=
  match s with
  | String c s' => if f c then String c (take_while f s') else ""
  | "" => ""
  end.

Fixpoint drop_while (f : ascii -> bool) (s : string) : string :=
  match s with
  | String c s' => if f c then drop_while f s' else s
  | "" => ""
  end.

Fixpoint all (f : ascii -> bool) (s : string) : bool :=
  match s with
  | String c s' => f c && all f s'
  | "" => true
  end.

(** How many code units of [s] satisfy [f]. *)
Fixpoint count (f : ascii -> bool) (s : string) : nat :=
  match s with
  | String c s' => (if f c then 1 else 0) + count f s'
  | "" => 0
  end.

(** [s] without its prefix [p], when it has it. *)
Fixpoint strip_prefix (p s : string) : option string :=
  match p with
  | "" => Some s
  | String a p' =>
      match s with
      | String b s' => if Ascii.eqb b a then strip_prefix p' s' else None
      | "" => None
      end
  end.

(** The code unit in front of the position reached after reading [s]
    from a position that had [p] in front of it. *)
Fixpoint last_char (p : option ascii) (s : string) : option ascii :=
  match s with
  | "" => p
  | String c s' => last_char (Some c) s'
  end.

Definition non_digit (c : ascii) : bool := negb (is_digit c).

(** The first code unit of [s] does not satisfy [f] (or [s] is empty). *)
Definition stops (f : ascii -> bool) (s : string) : Prop :=
  match s with
  | "" => True
  | String c _ => f c = false
  end.

(** The matcher state at the end of the longest run of [a] read from [s]. *)
Definition run_end (fl : flags) (a : atom) (p : option ascii)
    (cs : list (nat * string)) (s : string) : mstate :=
  MState (last_char p (take_while (atom_ok fl a) s))
         (drop_while (atom_ok fl a) s) cs.

End Text.
Import Text.

(** ** Repository references, as the specification describes them *)

Module UrlSpec.

Definition nonslash (c : ascii) : bool := negb (Ascii.eqb c "/").
Definition is_slash (c : ascii) : bool := Ascii.eqb c "/".

(** [s] begins with a reference [<host><owner>/<repo>], where [host] is
    [github.com/] or [github.com:], the owner and the repository name are
    non-empty and without [/], and the name ends at a [/] or at the end
    of [s]; [post] is what follows the reference. *)
Definition ref_at (host s o r post : string) : Prop :=
  s = host ++ o ++ "/" ++ r ++ post /\
  o <> "" /\ r <> "" /\
  all nonslash o = true /\ all nonslash r = true /\ stops nonslash post.

(** The leftmost reference of [url] names [o] and [r]. *)
Definition first_ref (host url o r : string) : Prop :=
  exists pre s post,
    url = pre ++ s /\ ref_at host s o r post /\
    forall a b, pre = a ++ b -> b <> "" ->
      forall o' r' post', ~ ref_at host (b ++ s) o' r' post'.

(** No reference begins anywhere in [url]. *)
Definition no_ref (host url : string) : Prop :=
  forall a b o r post, url = a ++ b -> ~ ref_at host b o r post.

(** [r'] is [r] without a trailing [.git]. *)
Definition git_stripped (r r' : string) : Prop :=
  r = r' ++ ".git" \/ (r' = r /\ forall r0, r <> r0 ++ ".git").

(** The shape of the two patterns of [parseGitHubUrl]. *)
Definition ref_pattern (host : string) : regex :=
  (lit host >> Group 1 (Plus GithubFetcher.not_slash) >> One (Lit "/") >>
   Group 2 (Plus GithubFetcher.not_slash))%re.

(** A reference read directly off the front of [s]: owner, name, rest. *)
Definition read_ref (host s : string) : option (string * string * string) :=
  match strip_prefix host s with
  | None => None
  | Some s1 =>
      match take_while nonslash s1, drop_while nonslash s1 with
      | String _ _ as o, String _ s3 =>
          match take_while nonslash s3 with
          | String _ _ as r => Some (o, r, drop_while nonslash s3)
          | "" => None
          end
      | _, _ => None
      end
  end.

(** The leftmost reference that can be read in [url]. *)
Fixpoint find_ref (host url : string) : option (string * string * string) :=
  match read_ref host url with
  | Some x => Some x
  | None =>
      match url with
      | "" => None
      | String _ u => find_ref host u
      end
  end.

End UrlSpec.

(** ** Slugs *)

Module SlugSpec.

(** The class [[a-z0-9]]. *)
Definition alnum (c : ascii) : bool := is_lower c || is_digit c.

(** Every run of code units outside [[a-z0-9]] becomes one hyphen;
    [in_run] tells that the run the next code unit may belong to has
    its hyphen already. *)
Fixpoint collapse (in_run : bool) (s : string) : string :=
  match s with
  | "" => ""
  | String c s' =>
      if alnum c then String c (collapse false s')
      else if in_run then collapse true s'
      else String "-" (collapse true s')
  end.

Definition drop_first_hyphen (s : string) : string :=
  match s with
  | String c s' => if Ascii.eqb c "-" then s' else s
  | "" => ""
  end.

Fixpoint drop_last_hyphen (s : string) : string :=
  match s with
  | "" => ""
  | String c s' =>
      if Ascii.eqb c "-" && String.eqb s' "" then ""
      else String c (drop_last_hyphen s')
  end.

(** Words of [[a-z0-9]] separated by single hyphens; with [need] set the
    text must begin with a word. *)
Fixpoint words (need : bool) (s : string) : bool :=
  match s with
  | "" => negb need
  | String c s' =>
      if alnum c then words false s'
      else Ascii.eqb c "-" && negb need && words true s'
  end.

(** A slug: empty, or words separated by single hyphens. *)
Definition is_slug (s : string) : bool :=
  match s with
  | "" => true
  | _ => words true s
  end.

(** Code units of [[a-z0-9-]] without two hyphens in a row; with
    [no_hyphen] set the text does not begin with a hyphen. *)
Fixpoint tidy (no_hyphen : bool) (s : string) : bool :=
  match s with
  | "" => true
  | String c s' =>
      if alnum c then tidy false s'
      else Ascii.eqb c "-" && negb no_hyphen && tidy true s'
  end.

End SlugSpec.

(** ** Numbered project files *)

Module NumberSpec.

(** [s] begins with [day-] and a digit. *)
Definition day_digit (s : string) : Prop :=
  exists d s', s = "day-" ++ String d s' /\ is_digit d = true.

(** The naming convention: [file] begins with [day-], ends with [.html]
    and carries a number, the run of digits [ds] after the leftmost
    [day-] that a digit follows; [n] is the number [ds] denotes. *)
Definition numbered (file : string) (n : N) : Prop :=
  startsWith file "day-" = true /\ endsWith file ".html" = true /\
  exists pre ds post,
    file = pre ++ "day-" ++ ds ++ post /\
    ds <> "" /\ all is_digit ds = true /\ stops is_digit post /\
    (forall a b, pre = a ++ b -> b <> "" ->
       ~ day_digit (b ++ "day-" ++ ds ++ post)) /\
    n = BrowseUpdater.mathInt ds.

(** The digits after a [day-] at the front of [s]. *)
Definition read_day (s : string) : option string :=
  match strip_prefix "day-" s with
  | Some s1 =>
      match take_while is_digit s1 with
      | "" => None
      | ds => Some ds
      end
  | None => None
  end.

(** The digits after the leftmost [day-] of [s] that a digit follows. *)
Fixpoint find_day (s : string) : option string :=
  match read_day s with
  | Some ds => Some ds
  | None =>
      match s with
      | "" => None
      | String _ s' => find_day s'
      end
  end.

(** The test of the [filter] on the directory listing. *)
Definition conventional (f : string) : bool :=
  startsWith f "day-" && endsWith f ".html".

(** The number of a file by the convention, [None] for the other files. *)
Definition number_of (file : string) : option N :=
  if conventional file then
    match find_day file with
    | Some ds => Some (BrowseUpdater.mathInt ds)
    | None => None
    end
  else None.

(** Every number of a file of the listing is below 2^53, where the
    integers are doubles. *)
Definition exact (names : list string) : Prop :=
  forall f n, In f names -> numbered f n -> (n < Float64.exact_below)%N.

(** The statement of the specification on a listing: [next] is one more
    than the largest number of a file that follows the convention, and
    1 when no file follows it. *)
Definition one_more_than_largest (names : list string)
    (next : Float64.number) : Prop :=
  (forall top,
     (exists f, In f names /\ numbered f top) ->
     (forall f n, In f names -> numbered f n -> (n <= top)%N) ->
     next = Float64.Finite (top + 1)) /\
  ((forall f n, In f names -> ~ numbered f n) ->
   next = Float64.Finite 1).

End NumberSpec.

(** ** Candidates of the tech stack *)

Module TechSpec.
Import GithubFetcher.

(** *** The technologies, by name *)

(** The technologies the detector knows: the key of each, and the name
    it is displayed under. *)
Definition display_names : list (string * string) :=
  [ ("JavaScript", "JavaScript"); ("TypeScript", "TypeScript");
    ("Python", "Python"); ("Go", "Golang"); ("Rust", "Rust");
    ("HTML", "HTML5"); ("CSS", "CSS3"); ("react", "React");
    ("nextjs", "Next.js"); ("nodejs", "Node.js"); ("docker", "Docker");
    ("aws", "AWS"); ("tensorflow", "TensorFlow"); ("pytorch", "PyTorch");
    ("openai", "OpenAI"); ("langchain", "LangChain") ].

(** The packages of [package.json] and of [requirements.txt] that stand
    for a technology, with its key. *)
Definition npm_packages : list (string * string) :=
  [ ("react", "react"); ("next", "nextjs"); ("@tensorflow/tfjs", "tensorflow");
    ("openai", "openai"); ("langchain", "langchain") ].

Definition pip_packages : list (string * string) :=
  [ ("tensorflow", "tensorflow"); ("torch", "pytorch"); ("openai", "openai");
    ("langchain", "langchain") ].

(** The value a table gives for a key. *)
Definition assoc {A} (table : list (string * A)) (key : string) : option A :=
  option_map snd (find (fun e => String.eqb (fst e) key) table).

(** The display names of the keys that stand for a technology. *)
Definition known_names (keys : list string) : list string :=
  flat_map (fun k => match assoc display_names k with
                     | Some n => [n]
                     | None => []
                     end) keys.

(** *** The candidates, in scanning order *)

(** The first three languages, as the repository record lists them. *)
Definition language_keys (rd : repoData) : list string :=
  match rd_languages rd with
  | Some languages => firstn 3 (map fst languages)
  | None => []
  end.

Definition topic_keys (rd : repoData) : list string :=
  match rd_topics rd with
  | Some topics => map toLowerCase topics
  | None => []
  end.

(** The manifest [package.json] declares the dependency [dep]: it is an
    object whose member [dependencies] is an object with a member
    [dep]. *)
Definition declares (rd : repoData) (dep : string) : bool :=
  match rd_packageJson rd with
  | Some (JObj members) =>
      match assoc members "dependencies" with
      | Some (JObj deps) => existsb (fun m => String.eqb (fst m) dep) deps
      | _ => false
      end
  | _ => false
  end.

(** The text of [requirements.txt] holds [pkg], in any case. *)
Definition requires (rd : repoData) (pkg : string) : bool :=
  match rd_requirements rd with
  | Some text => includes (toLowerCase text) pkg
  | None => false
  end.

Definition package_keys (rd : repoData) : list string :=
  map snd (filter (fun e => declares rd (fst e)) npm_packages).

Definition requirement_keys (rd : repoData) : list string :=
  map snd (filter (fun e => requires rd (fst e)) pip_packages).

(** The names of the candidates in the order the detector scans them:
    languages, topics, dependencies of [package.json], packages of
    [requirements.txt]. *)
Definition candidates (rd : repoData) : list string :=
  known_names (language_keys rd ++ topic_keys rd ++
               package_keys rd ++ requirement_keys rd)%list.

(** The first occurrence of every name, without regard to case, in
    order; [seen] holds the lower-case names met before. *)
Fixpoint first_from (seen : list string) (l : list string) : list string :=
  match l with
  | [] => []
  | n :: l' =>
      if existsb (String.eqb (toLowerCase n)) seen then first_from seen l'
      else n :: first_from (seen ++ [toLowerCase n])%list l'
  end.

Definition first_occurrences (l : list string) : list string :=
  first_from [] l.

(** *** The languages by byte count *)

(** The languages by decreasing byte count; languages of equal count
    keep their order. *)
Fixpoint insert_by_bytes (x : string * N) (l : list (string * N))
  : list (string * N) :=
  match l with
  | [] => [x]
  | y :: l' =>
      if (snd y <=? snd x)%N then x :: l else y :: insert_by_bytes x l'
  end.

Definition by_decreasing_bytes (l : list (string * N)) : list (string * N) :=
  fold_right insert_by_bytes [] l.

(** The three languages with the largest byte counts. *)
Definition top_languages (rd : repoData) : list string :=
  match rd_languages rd with
  | Some languages => firstn 3 (map fst (by_decreasing_bytes languages))
  | None => []
  end.

(** The names the specification gives: the first four of the first
    occurrences among the top three languages by byte count, the topics
    and the manifest dependencies. *)
Definition stated (rd : repoData) : list string :=
  firstn 4
    (first_occurrences
       (known_names (top_languages rd ++ topic_keys rd ++
                     package_keys rd ++ requirement_keys rd)%list)).

(** The display name of a badge, compared without regard to case. *)
Definition lname (b : badge) : string := toLowerCase (name b).

(** The statement of the specification on a repository record: the
    detector returns badges, four at most, no two of a name, under the
    names the specification gives. *)
Definition as_stated (rd : repoData) : Prop :=
  exists stack,
    detectTechStack rd = Return (map Mapped stack) /\
    List.length stack <= 4 /\
    NoDup (map lname stack) /\
    map name stack = stated rd.

(** *** Repository records *)

(** The record lists its languages by decreasing byte count. *)
Definition by_bytes (rd : repoData) : Prop :=
  match rd_languages rd with
  | Some languages =>
      StronglySorted (fun x y => (snd y <= snd x)%N) languages
  | None => True
  end.

(** The languages of a repository record are the keys of an object:
    no key occurs twice. *)
Definition keys_distinct (rd : repoData) : Prop :=
  match rd_languages rd with
  | Some languages => NoDup (map fst languages)
  | None => True
  end.

(** The names of the properties that every object inherits. *)
Definition object_members : list string :=
  [ "constructor"; "__proto__"; "hasOwnProperty"; "isPrototypeOf";
    "propertyIsEnumerable"; "toLocaleString"; "toString"; "valueOf";
    "__defineGetter__"; "__defineSetter__";
    "__lookupGetter__"; "__lookupSetter__" ].

(** No language scanned and no topic is, as a key, the name of an
    inherited property. *)
Definition plain_keys (rd : repoData) : Prop :=
  forall k, In k (language_keys rd ++ topic_keys rd)%list ->
            ~ In k object_members.

(** *** The scan, badge by badge *)

(** The badges of the keys that the table maps, in order. *)
Definition mapped (keys : list string) : list badge :=
  flat_map (fun k => match get techMappings k with
                     | Some b => [b]
                     | None => []
                     end) keys.

(** The keys of the entries of [table] that [present] selects, in the
    order of the table. *)
Definition selected (present : string -> bool) (table : list (string * string))
  : list string :=
  map snd (filter (fun e => present (fst e)) table).

(** The first badge of every display name, in order. *)
Fixpoint first_badges (seen : list string) (l : list badge) : list badge :=
  match l with
  | [] => []
  | b :: l' =>
      if existsb (String.eqb (lname b)) seen then first_badges seen l'
      else b :: first_badges (seen ++ [lname b])%list l'
  end.

(** The keys the last two loops of the detector come to. *)
Definition dependency_scan (rd : repoData) : list string :=
  match dependencies (rd_packageJson rd) with
  | Some v =>
      if truthy v
      then selected (fun dep => existsb (String.eqb dep) (Object_keys v))
             depMappings
      else []
  | None => []
  end.

Definition requirement_scan (rd : repoData) : list string :=
  match rd_requirements rd with
  | Some "" | None => []
  | Some requirements =>
      selected (includes (toLowerCase requirements)) pyMappings
  end.

End TechSpec.

(** ** The lookups of the fetcher *)

Module FetchSpec.
Import GithubFetcher.

Section Decoders.
Variable base64_decode : string -> string.
Variable JSON_parse : string -> outcome json.

(** What a guarded lookup leaves in its field: the decoded text of the
    file, and nothing when the call is rejected or the file has no
    content. *)
Definition text_of (o : outcome fileData) : option string :=
  match o with
  | Return (FileData (Some text)) => Some (base64_decode text)
  | _ => None
  end.

(** The same for the manifest, which must parse as well. *)
Definition manifest_of (o : outcome fileData) : option json :=
  match o with
  | Return (FileData (Some text)) =>
      match JSON_parse (base64_decode text) with
      | Return v => Some v
      | Throw _ => None
      end
  | _ => None
  end.

(** The statement of the specification for one call: once the metadata
    lookup succeeds the call returns a record, and each of the four
    other lookups that fails leaves its field absent. *)
Definition only_metadata_fatal (api : octokit) (owner repo : string)
    (w : world) : Prop :=
  forall info,
    repos_get api owner repo = Return info ->
    exists data w',
      fetchRepoData base64_decode JSON_parse api owner repo w
      = (Return data, w') /\
      (forall e, repos_getReadme api owner repo = Throw e ->
         rd_readme data = None) /\
      (forall e, repos_getContent api owner repo "package.json" = Throw e ->
         rd_packageJson data = None) /\
      (forall e, repos_getContent api owner repo "requirements.txt" = Throw e ->
         rd_requirements data = None) /\
      (forall e, repos_listLanguages api owner repo = Throw e ->
         rd_languages data = None).

End Decoders.

(** A client whose language lookup is rejected while the repository and
    its files are there. *)
Definition sample_info : repoInfo :=
  RepoInfo "demo" (Some "A demo") "https://github.com/o/demo" None
    (Some ["react"]) "2024-01-01T00:00:00Z" "2024-02-01T00:00:00Z" 3 1.

Definition languages_down : octokit :=
  Octokit (fun _ _ => Return sample_info)
          (fun _ _ => Return (FileData (Some "IyBkZW1v")))
          (fun _ _ _ => Throw (Error "Not Found"))
          (fun _ _ => Throw (Error "Server Error")).

Definition empty_world : world := World (fun _ => None) (fun _ => None) [].

End FetchSpec.

(** ** Descriptions, as the specification states them *)

Module ReadmeSpec.
Import GithubFetcher.

Definition is_hash (c : ascii) : bool := Ascii.eqb c "#".

(** A code unit that [.] accepts. *)
Definition in_line (c : ascii) : bool := negb (is_line_terminator c).

(** Every newline becomes a space. *)
Fixpoint flatten (s : string) : string :=
  match s with
  | "" => ""
  | String c s' =>
      String (if Ascii.eqb c nl then " "%char else c) (flatten s')
  end.

(** The statement of the specification: a paragraph is taken as it
    stands when it is non-empty, does not start with a heading marker or
    a code fence and has more than 50 code units. *)
Definition qualifies_as_stated (para : string) : bool :=
  negb (String.eqb para "") && negb (startsWith para "#") &&
  negb (startsWith para fence) && (50 <? String.length para).

Definition stated_description (readme : string) : string :=
  match find qualifies_as_stated (re_split plain blank_lines readme) with
  | Some para => slice0 500 (flatten para)
  | None => ""
  end.

(** What the code does: the same tests on the cleaned paragraph. *)
Definition found_description (readme : string) : string :=
  match find (fun para => describes (cleaned para))
             (re_split plain blank_lines readme) with
  | Some para => slice0 500 (flatten (cleaned para))
  | None => ""
  end.

(** A README whose first paragraph opens with its title line. *)
Definition titled_readme : string :=
  "# My Project
This tool converts markdown files into static pages very quickly.

## Usage
Run it.
".

End ReadmeSpec.

(** ** Sample inputs *)

Module Samples.
Import TemplateGenerator.

(** A README that ends with its feature list, the last line without a
    newline after it. *)
Definition eight_features : string :=
  "# Demo

## Features
- one
- two
- three
- four
- five
- six
- seven
- eight".

(** A gallery page in the layout the updater expects: the last card,
    the closing tags of the section, the comment. *)
Definition page_before : string :=
  "<html>
<body>
    <section class=daily>
        <div class=container>
            <div class=grid>
                <div class=card>
                    <h3>Earlier project</h3>
                ".

Definition page_anchor : string :=
  "</div>
            </div>
        </div>
    </section>

    <!-- Professional Experience -->".

Definition page_after : string :=
  "
    <section class=experience>
    </section>
</body>
</html>
".

Definition gallery_page : string := page_before ++ page_anchor ++ page_after.

Definition sample_project : projectData :=
  ProjectData (Some "Project 7") (Some "My App") (Some "A small app")
    (Some "A small app that does one thing well.") None None None None
    (Some "https://github.com/o/my-app") None None.

Definition join (a b : string) : string := a ++ "/" ++ b.

Definition site (page : string) : world :=
  World (fun p => if String.eqb p "site/browse.html" then Some page else None)
        (fun _ => None) [].

End Samples.
(** ** automation/lib/git-operations.js *)

Module GitOperations.

(** The commands the functions send to the repository through the
    [simple-git] client. *)
Inductive command : Type :=
| Add (file : string)
| Commit (message : string)
| Push (remote branch : string)
| Status
| BranchLocal.

(** [StatusResult] and [BranchSummary], by what is read of them. *)
Record statusResult := StatusResult { isClean : bool }.
Record branchSummary := BranchSummary { current : string }.

(** The client [simpleGit(repoPath)].  What a command comes to depends
    on the repository, that is on the commands sent before it: each
    call takes them as [past]. *)
Record client := Client {
  git_add : list command -> string -> outcome unit;
  git_commit : list command -> string -> outcome unit;
  git_push : list command -> string -> string -> outcome unit;
  git_status : list command -> outcome statusResult;
  git_branchLocal : list command -> outcome branchSummary
}.

(** A run: the world, and the commands sent so far. *)
Record session := Session {
  env : world;
  sent : list command
}.

Definition G (A : Type) : Type := session -> outcome A * session.

Definition gret {A} (a : A) : G A := fun s => (Return a, s).

Definition gbind {A B} (m : G A) (f : A -> G B) : G B :=
  fun s =>
    match m s with
    | (Return a, s') => f a s'
    | (Throw e, s') => (Throw e, s')
    end.

Definition gthrow {A} (e : exn) : G A := fun s => (Throw e, s).

(** [try { m } catch (e) { h e }] *)
Definition gtry {A} (m : G A) (h : exn -> G A) : G A :=
  fun s =>
    match m s with
    | (Return a, s') => (Return a, s')
    | (Throw e, s') => h e s'
    end.

(** A computation on the world alone. *)
Definition io {A} (m : M A) : G A :=
  fun s =>
    match m (env s) with
    | (o, w') => (o, Session w' (sent s))
    end.

(** [console.log], [console.warn] and [console.error] *)
Definition say (line : string) : G unit := io (log line).

(** [await git.<command>(...)]: the command is sent, and the call comes
    to what the client answers after the commands before it. *)
Definition call {A} (answer : list command -> outcome A) (c : command) : G A :=
  fun s => (answer (sent s), Session (env s) (sent s ++ [c])%list).

Notation "x <~ m ;> k" := (gbind m (fun x => k))
  (at level 100, m at next level, right associativity).
Notation "m ;> k" := (gbind m (fun _ => k))
  (at level 100, right associativity).

(** [for (const x of l) { body }] *)
Fixpoint for_each {A} (l : list A) (body : A -> G unit) : G unit :=
  match l with
  | [] => gret tt
  | x :: l' => body x ;> for_each l' body
  end.

Section Client.

(** [simpleGit] *)
Variable simpleGit : string -> client.

(** The body of the loop over [filesToAdd]. *)
Definition stage (git : client) (file : string) : G unit :=
  gtry
    (call (fun past => git_add git past file) (Add file) ;>
     say ("  Staged: " ++ file))
    (fun _ => say ("  Warning: Could not stage " ++ file)).

Definition commit_message (projectTitle filename : string) : string :=
  "Add " ++ projectTitle ++ " project page

- Created projects/" ++ filename ++ "
- Added project card to browse.html

Co-Authored-By: Portfolio Automation <automation@dandaakhilreddy.com>".

Definition gitCommitAndPush (repoPath projectTitle filename : string)
  : G unit :=
  let git := simpleGit repoPath in
  say "Staging changes..." ;>
  let filesToAdd := ["projects/" ++ filename; "browse.html"] in
  for_each filesToAdd (stage git) ;>
  let commitMessage := commit_message projectTitle filename in
  say "Creating commit..." ;>
  call (fun past => git_commit git past commitMessage) (Commit commitMessage) ;>
  say "Pushing to remote..." ;>
  gtry
    (call (fun past => git_push git past "origin" "main") (Push "origin" "main") ;>
     say "Successfully pushed to origin/main")
    (fun e =>
       gtry
         (call (fun past => git_push git past "origin" "master")
               (Push "origin" "master") ;>
          say "Successfully pushed to origin/master")
         (fun e2 =>
            say "Failed to push. You may need to push manually." ;>
            gthrow e2)).

Definition hasUncommittedChanges (repoPath : string) : G bool :=
  let git := simpleGit repoPath in
  status <~ call (git_status git) Status ;>
  gret (negb (isClean status)).

Definition getCurrentBranch (repoPath : string) : G string :=
  let git := simpleGit repoPath in
  branchSummary <~ call (git_branchLocal git) BranchLocal ;>
  gret (current branchSummary).

End Client.

End GitOperations.
(** ** The commands of a publication *)

Module GitSpec.
Import GitOperations.

(** The commands in front of the commit: the two files are staged, the
    page first. *)
Definition staged (past : list command) (filename : string) : list command :=
  (past ++ [Add ("projects/" ++ filename)%string; Add "browse.html"])%list.

(** The commands up to the commit. *)
Definition committed (past : list command) (projectTitle filename : string)
  : list command :=
  (staged past filename ++ [Commit (commit_message projectTitle filename)])%list.

(** The line a staging attempt prints. *)
Definition staging_line (answer : outcome unit) (file : string) : string :=
  match answer with
  | Return _ => "  Staged: " ++ file
  | Throw _ => "  Warning: Could not stage " ++ file
  end.

(** The last line of the console. *)
Definition last_line (w : world) : string := last (console w) "".

(** The world after [lines] are printed. *)
Definition printed (w : world) (lines : list string) : world :=
  World (files w) (dirs w) (console w ++ lines)%list.

(** The two pushes, as commands. *)
Definition push_main : command := Push "origin" "main".
Definition push_master : command := Push "origin" "master".

(** Clients for the examples: one that does everything it is asked, one
    whose remote has no branch [main], one that cannot commit and one
    that cannot reach the remote. *)
Definition obliging : client :=
  Client (fun _ _ => Return tt) (fun _ _ => Return tt)
         (fun _ _ _ => Return tt)
         (fun _ => Return (StatusResult true))
         (fun _ => Return (BranchSummary "main")).

Definition without_main : client :=
  Client (fun _ _ => Return tt) (fun _ _ => Return tt)
         (fun _ _ branch =>
            if String.eqb branch "main"
            then Throw (Error "src refspec main does not match any")
            else Return tt)
         (fun _ => Return (StatusResult true))
         (fun _ => Return (BranchSummary "master")).

Definition nothing_to_commit : client :=
  Client (fun _ _ => Throw (Error "pathspec did not match any files"))
         (fun _ _ => Throw (Error "nothing to commit"))
         (fun _ _ _ => Return tt)
         (fun _ => Return (StatusResult true))
         (fun _ => Return (BranchSummary "main")).

Definition offline : client :=
  Client (fun _ _ => Return tt) (fun _ _ => Return tt)
         (fun _ _ branch => Throw (Error ("could not push " ++ branch)))
         (fun _ => Return (StatusResult false))
         (fun _ => Return (BranchSummary "main")).

(** A run that starts with nothing printed and nothing sent. *)
Definition fresh : session :=
  Session (World (fun _ => None) (fun _ => None) []) [].

End GitSpec.
(** ** The gallery page after an update *)

Module GallerySpec.
Import TemplateGenerator.

(** The last lines of every card: the closing tags of its links, of its
    content and of the card itself. *)
Definition card_end : string :=
  "
                        </div>
                    </div>
                </div>".


(** A code unit that takes no part in a [$] sequence of a replacement
    text. *)
Definition inert (c : ascii) : bool :=
  negb (is_digit c) && negb (any_of "$&`'" c).

End GallerySpec.
(** ** Generated names *)

Module NamingSpec.
Import SlugSpec.

(** The code units of a generated file name: [[a-z0-9]], the hyphen and
    the dot. *)
Definition filename_char (c : ascii) : bool :=
  alnum c || Ascii.eqb c "-" || Ascii.eqb c ".".

(** The directory listing [names'] is [names] with the file [f] added,
    at any place. *)
Definition listing_with (f : string) (names names' : list string) : Prop :=
  forall g, In g names' <-> g = f \/ In g names.

End NamingSpec.

(** ** What the fetcher prints *)

Module TranscriptSpec.
Import GithubFetcher FetchSpec.

(** The line that opens a fetch. *)
Definition fetching_line (owner repo : string) : string :=
  "Fetching repository: " ++ owner ++ "/" ++ repo ++ "...".

(** The warning for a README that could not be had. *)
Definition readme_warning (readme : option string) : list string :=
  match readme with
  | Some _ => []
  | None => ["No README found"]
  end.

End TranscriptSpec.
(** ** Sections of a README, as they are usually written *)

Module SectionSpec.
Import GithubFetcher ReadmeSpec.

Definition not_hash (c : ascii) : bool := negb (Ascii.eqb c "#").
Definition not_nl (c : ascii) : bool := negb (Ascii.eqb c nl).
Definition is_nl (c : ascii) : bool := Ascii.eqb c nl.

(** An item of a list: a non-empty line that neither begins nor ends
    with white space. *)
Definition item (t : string) : Prop :=
  t <> "" /\ all in_line t = true /\ trim t = t.

(** The items as a list of bullets, one per line. *)
Fixpoint bullets (ts : list string) : string :=
  match ts with
  | [] => ""
  | [t] => "- " ++ t
  | t :: ts' => "- " ++ t ++ String nl (bullets ts')
  end.

(** The heading lines of a feature list, up to the title. *)
Definition feature_headings : list string :=
  [ "# Features"; "## Features"; "# Key Features"; "## Key Features";
    "# What it does"; "## What it does" ].

(** What ends a section: the line of the next heading of level two or
    more, or the newline that ends the README. *)
Definition section_closed (term : string) : Prop :=
  term = String nl "" \/ exists post, term = String nl ("##" ++ post).

(** No line of [body] but the first begins with [##]. *)
Fixpoint quiet (body : string) : bool :=
  match body with
  | "" => true
  | String c body' =>
      negb (Ascii.eqb c nl && prefix "##" body') && quiet body'
  end.

(** A README with a section: the text in front of it, the heading line
    with the rest of its line, the body of the section, what ends it. *)
Definition with_section (pre heading tail body term : string) : string :=
  pre ++ heading ++ tail ++ String nl (body ++ term).

(** *** Installation steps *)

(** The heading lines of the installation section, up to the title. *)
Definition install_headings : list string :=
  [ "# Installation"; "## Installation";
    "# Getting Started"; "## Getting Started";
    "# Quick Start"; "## Quick Start"; "# Setup"; "## Setup" ].

(** A code unit that is neither a backquote nor a [#]. *)
Definition plain_char (c : ascii) : bool :=
  negb (Ascii.eqb c "`") && negb (Ascii.eqb c "#").

(** A step of an installation: some words, then a fenced block with its
    language tag and its commands. *)
Record step := Step {
  prose : string;
  lang : string;
  cmd : string
}.

Definition block (s : step) : string :=
  fence ++ lang s ++ String nl (cmd s ++ String nl fence).

Fixpoint fenced (steps : list step) : string :=
  match steps with
  | [] => ""
  | s :: more => prose s ++ block s ++ fenced more
  end.

(** The words and the commands hold no backquote and no [#]; the tag is
    made of word characters; the commands are a non-empty trimmed text. *)
Definition well_formed (s : step) : Prop :=
  all plain_char (prose s) = true /\ all is_word (lang s) = true /\
  cmd s <> "" /\ trim (cmd s) = cmd s /\ all plain_char (cmd s) = true.

End SectionSpec.
(** ** The layout of the gallery page *)

Module LayoutSpec.
Import BrowseUpdater.

(** The closing tags in front of the comment, with the white space
    between them: three [</div>], then [</section>]. *)
Definition closing_tags (g1 g2 g3 g4 : string) : string :=
  "</div>" ++ g1 ++ "</div>" ++ g2 ++ "</div>" ++ g3 ++ "</section>" ++ g4.

(** The comment without its last code unit. *)
Definition marker_head : string := "<!-- Professional Experience --".

Definition is_lt (c : ascii) : bool := Ascii.eqb c "<".
Definition is_bang (c : ascii) : bool := Ascii.eqb c "!".
Definition no_dollar (c : ascii) : bool := negb (Ascii.eqb c "$").
Definition no_newline (c : ascii) : bool := negb (Ascii.eqb c nl).

End LayoutSpec.


(** * Proofs *)

(** ** Strings *)

Module StrFacts.

Lemma app_assoc (a b c : string) : (a ++ b) ++ c = a ++ (b ++ c).
Proof. induction a as [|x a IH]; simpl; [reflexivity | now rewrite IH]. Qed.

Lemma app_nil_r (a : string) : a ++ "" = a.
Proof. induction a as [|x a IH]; simpl; [reflexivity | now rewrite IH]. Qed.

Lemma length_app (a b : string) :
  String.length (a ++ b) = String.length a + String.length b.
Proof. induction a as [|x a IH]; simpl; [reflexivity | now rewrite IH]. Qed.

Lemma substring_app (a b : string) :
  substring 0 (String.length a) (a ++ b) = a.
Proof.
  induction a as [|x a IH]; simpl.
  - destruct b; reflexivity.
  - now rewrite IH.
Qed.

Lemma substring_all (a : string) : substring 0 (String.length a) a = a.
Proof.
  rewrite <- (app_nil_r a) at 2. rewrite substring_app. reflexivity.
Qed.

Lemma taken_app (a b : string) : taken (a ++ b) b = a.
Proof.
  unfold taken. rewrite length_app.
  replace (String.length a + String.length b - String.length b)
    with (String.length a) by lia.
  apply substring_app.
Qed.

Lemma taken_eq (s a b : string) : s = a ++ b -> taken s b = a.
Proof. intros ->. apply taken_app. Qed.

Lemma taken_nil (a : string) : taken a "" = a.
Proof. rewrite <- (app_nil_r a) at 1. apply taken_app. Qed.

Lemma taken_self (a : string) : taken a a = "".
Proof. apply (taken_app "" a). Qed.

Lemma app_inv_head (a b c : string) : a ++ b = a ++ c -> b = c.
Proof.
  induction a as [|x a IH]; simpl; intros H; [exact H|].
  injection H as H. auto.
Qed.

Lemma app_inv_tail (a b c : string) : a ++ c = b ++ c -> a = b.
Proof.
  revert b. induction a as [|x a IH]; intros [|y b] H; simpl in H.
  - reflexivity.
  - apply (f_equal String.length) in H. simpl in H.
    rewrite length_app in H. lia.
  - apply (f_equal String.length) in H. simpl in H.
    rewrite length_app in H. lia.
  - injection H as -> H. f_equal. auto.
Qed.

Lemma take_drop (f : ascii -> bool) (s : string) :
  take_while f s ++ drop_while f s = s.
Proof.
  induction s as [|c s IH]; simpl; [reflexivity|].
  destruct (f c); simpl; [now rewrite IH | reflexivity].
Qed.

Lemma all_take_while (f : ascii -> bool) (s : string) :
  all f (take_while f s) = true.
Proof.
  induction s as [|c s IH]; simpl; [reflexivity|].
  destruct (f c) eqn:E; simpl; [now rewrite E | reflexivity].
Qed.

Lemma stops_drop_while (f : ascii -> bool) (s : string) :
  stops f (drop_while f s).
Proof.
  induction s as [|c s IH]; simpl; [exact I|].
  destruct (f c) eqn:E; simpl; [exact IH | exact E].
Qed.

Lemma take_while_app (f : ascii -> bool) (a b : string) :
  all f a = true -> stops f b -> take_while f (a ++ b) = a.
Proof.
  induction a as [|c a IH]; simpl; intros Ha Hb.
  - destruct b as [|x b]; simpl in *; [reflexivity | now rewrite Hb].
  - apply andb_true_iff in Ha as [Hc Ha]. rewrite Hc. now rewrite IH.
Qed.

Lemma drop_while_app (f : ascii -> bool) (a b : string) :
  all f a = true -> stops f b -> drop_while f (a ++ b) = b.
Proof.
  induction a as [|c a IH]; simpl; intros Ha Hb.
  - destruct b as [|x b]; simpl in *; [reflexivity | now rewrite Hb].
  - apply andb_true_iff in Ha as [Hc Ha]. rewrite Hc. now apply IH.
Qed.

Lemma all_app (f : ascii -> bool) (a b : string) :
  all f (a ++ b) = all f a && all f b.
Proof.
  induction a as [|c a IH]; simpl; [reflexivity|].
  rewrite IH. now rewrite andb_assoc.
Qed.

Lemma strip_prefix_app (p s : string) : strip_prefix p (p ++ s) = Some s.
Proof.
  induction p as [|c p IH]; simpl; [reflexivity|].
  now rewrite Ascii.eqb_refl.
Qed.

Lemma strip_prefix_inv (p s t : string) :
  strip_prefix p s = Some t -> s = p ++ t.
Proof.
  revert s. induction p as [|c p IH]; simpl; intros s H.
  - now injection H as ->.
  - destruct s as [|b s]; [discriminate|].
    destruct (Ascii.eqb b c) eqn:E; [|discriminate].
    apply Ascii.eqb_eq in E. subst b. f_equal. auto.
Qed.

Lemma last_char_app (p : option ascii) (a b : string) :
  last_char p (a ++ b) = last_char (last_char p a) b.
Proof. revert p. induction a as [|c a IH]; simpl; intros p; auto. Qed.

Lemma prefix_iff (m s : string) :
  prefix m s = true <-> exists b, s = m ++ b.
Proof.
  revert s. induction m as [|c m IH]; intros s.
  - destruct s; cbn; split; eauto.
  - destruct s as [|d s]; cbn [prefix append].
    + split; [discriminate | intros [b H]; discriminate].
    + destruct (ascii_dec c d) as [<-|Hn].
      * rewrite IH. split; intros [b H]; exists b; congruence.
      * split; [discriminate | intros [b H]; congruence].
Qed.

Lemma includes_iff (s m : string) :
  includes s m = true <-> exists a b, s = a ++ m ++ b.
Proof.
  split.
  - induction s as [|c s IH]; cbn [includes]; rewrite orb_true_iff.
    + intros [H|H]; [|discriminate].
      apply prefix_iff in H as [b ->]. now exists "", b.
    + intros [H|H].
      * apply prefix_iff in H as [b ->]. now exists "", b.
      * destruct (IH H) as (a & b & ->). now exists (String c a), b.
  - intros (a & b & ->). induction a as [|c a IH].
    + assert (H : prefix m (m ++ b) = true) by (apply prefix_iff; eauto).
      cbn [append]. destruct (m ++ b); cbn [includes]; now rewrite H.
    + cbn [append includes]. now rewrite IH, orb_true_r.
Qed.

Lemma take_while_ext (f g : ascii -> bool) (s : string) :
  (forall c, f c = g c) -> take_while f s = take_while g s.
Proof.
  intros H. induction s as [|c s IH]; simpl; [reflexivity|].
  rewrite H, IH. reflexivity.
Qed.

Lemma drop_while_ext (f g : ascii -> bool) (s : string) :
  (forall c, f c = g c) -> drop_while f s = drop_while g s.
Proof.
  intros H. induction s as [|c s IH]; simpl; [reflexivity|].
  rewrite H, IH. reflexivity.
Qed.

End StrFacts.



(** ** The matcher *)

Module RegexFacts.
Import StrFacts.

(** A sequence of pattern characters matches exactly itself. *)
Lemma exec_lit (p : string) (k : mstate -> option mstate)
    (pv : option ascii) (s : string) (cs : list (nat * string)) :
  exec plain (lit p) k (MState pv s cs) =
  match strip_prefix p s with
  | Some s' => k (MState (last_char pv p) s' cs)
  | None => None
  end.
Proof.
  revert pv s. induction p as [|c p IH]; intros pv s; [reflexivity|].
  assert (Hone : forall k',
    one plain (Lit c) k' (MState pv s cs) =
    match s with
    | String b s' => if Ascii.eqb b c then k' (MState (Some c) s' cs) else None
    | "" => None
    end).
  { intros k'. unfold one; simpl. destruct s as [|b s]; [reflexivity|].
    destruct (Ascii.eqb b c) eqn:E; [|reflexivity].
    apply Ascii.eqb_eq in E. now subst b. }
  destruct p as [|d p].
  - simpl. rewrite Hone. destruct s as [|b s]; [reflexivity|].
    now destruct (Ascii.eqb b c).
  - change (lit (String c (String d p)))
      with (Seq (One (Lit c)) (lit (String d p))).
    cbn [exec]. rewrite Hone. cbn [strip_prefix].
    destruct s as [|b s]; [reflexivity|].
    destruct (Ascii.eqb b c); [|reflexivity].
    rewrite IH. reflexivity.
Qed.

Lemma exec_seq (fl : flags) (r1 r2 : regex) (k : mstate -> option mstate)
    (st : mstate) :
  exec fl (Seq r1 r2) k st = exec fl r1 (exec fl r2 k) st.
Proof. reflexivity. Qed.

Lemma exec_group (fl : flags) (n : nat) (r : regex)
    (k : mstate -> option mstate) (st : mstate) :
  exec fl (Group n r) k st =
  exec fl r
    (fun st' =>
       k (MState (prev st') (rest st')
            ((n, taken (rest st) (rest st')) :: caps st')))
    st.
Proof. reflexivity. Qed.

Section Star.
Variable fl : flags.
Variable a : atom.
Variable k : mstate -> option mstate.

(** When what follows accepts the longest run, the greedy star takes it. *)
Lemma star_commit (pv : option ascii) (cs : list (nat * string)) (s : string) :
  k (run_end fl a pv cs s) <> None ->
  star fl a k pv cs s = k (run_end fl a pv cs s).
Proof.
  revert pv. unfold run_end.
  induction s as [|c s IH]; intros pv H; simpl in *; [reflexivity|].
  destruct (atom_ok fl a c); simpl in *; [|reflexivity].
  rewrite IH by exact H.
  destruct (k _) eqn:E; [reflexivity | congruence].
Qed.

(** When what follows refuses every code unit of the class, nothing but
    the longest run can do. *)
Lemma star_refused (pv : option ascii) (cs : list (nat * string)) (s : string) :
  (forall pv' c s',
     atom_ok fl a c = true -> k (MState pv' (String c s') cs) = None) ->
  star fl a k pv cs s = k (run_end fl a pv cs s).
Proof.
  intros Hk. revert pv. unfold run_end.
  induction s as [|c s IH]; intros pv; simpl; [reflexivity|].
  destruct (atom_ok fl a c) eqn:E; simpl; [|reflexivity].
  rewrite IH. destruct (k _) eqn:E'; [reflexivity|].
  now apply Hk.
Qed.

End Star.

(** [a+] takes the longest run when what follows accepts it. *)
Lemma plus_commit (fl : flags) (a : atom) (k : mstate -> option mstate)
    (pv : option ascii) (cs : list (nat * string)) (c : ascii) (s : string) :
  atom_ok fl a c = true ->
  k (run_end fl a (Some c) cs s) <> None ->
  exec fl (Plus a) k (MState pv (String c s) cs)
  = k (run_end fl a (Some c) cs s).
Proof.
  intros Hc Hk. cbn [exec]. unfold one. cbn [rest caps prev].
  rewrite Hc. now apply star_commit.
Qed.

(** The end of a run made explicit. *)
Lemma run_end_app (a : atom) (f : ascii -> bool) (pv : option ascii)
    (cs : list (nat * string)) (x y : string) :
  (forall c, atom_ok plain a c = f c) ->
  all f x = true -> stops f y ->
  run_end plain a pv cs (x ++ y) = MState (last_char pv x) y cs.
Proof.
  intros Hf Hx Hy. unfold run_end.
  rewrite (take_while_ext _ f), (drop_while_ext _ f) by exact Hf.
  now rewrite (take_while_app f x y Hx Hy), (drop_while_app f x y Hx Hy).
Qed.

Lemma exec_bol (fl : flags) (k : mstate -> option mstate) (st : mstate) :
  exec fl Bol k st = if at_bol fl st then k st else None.
Proof. reflexivity. Qed.

Lemma exec_opt (fl : flags) (a : atom) (k : mstate -> option mstate)
    (st : mstate) :
  exec fl (Opt a) k st
  = match one fl a k st with Some v => Some v | None => k st end.
Proof. reflexivity. Qed.

Lemma last_char_some (pv : option ascii) (c : ascii) (s : string) :
  exists x, last_char pv (String c s) = Some x.
Proof.
  cbn [last_char]. generalize c. induction s as [|d s IH]; intros x.
  - now exists x.
  - cbn [last_char]. apply IH.
Qed.

(** A replacement text without dollar sign stands for itself. *)
Lemma expand_plain (m : rmatch) (before : string) (ng : nat) (t : string) :
  all (fun c => negb (Ascii.eqb c "$")) t = true ->
  expand m before ng t = t.
Proof.
  induction t as [|c t IH]; [reflexivity|]. cbn [all expand].
  intros H. apply andb_true_iff in H as [Hc H]. rewrite Hc.
  now rewrite IH.
Qed.

Section Search.
Variable fl : flags.
Variable r : regex.

Lemma search_from_here (pv : option ascii) (i : nat) (s : string) (st : mstate) :
  exec fl r Some (MState pv s []) = Some st ->
  search_from fl r pv i s =
  Some (RMatch i (taken s (rest st)) (caps st) (rest st)).
Proof.
  intros H. destruct s; simpl; unfold match_here; rewrite H; reflexivity.
Qed.

(** Positions at which the pattern fails are passed over. *)
Lemma search_from_skip (pv : option ascii) (i : nat) (pre s : string) :
  (forall a b, pre = a ++ b -> b <> "" ->
     exec fl r Some (MState (last_char pv a) (b ++ s) []) = None) ->
  search_from fl r pv i (pre ++ s) =
  search_from fl r (last_char pv pre) (i + String.length pre) s.
Proof.
  revert pv i. induction pre as [|c pre IH]; intros pv i H.
  - simpl. now rewrite Nat.add_0_r.
  - pose proof (H "" (String c pre) eq_refl) as H0. simpl in H0.
    cbn [append search_from]. unfold match_here.
    rewrite H0 by discriminate.
    rewrite IH.
    + simpl. f_equal. lia.
    + intros a b -> Hb. apply (H (String c a) b eq_refl Hb).
Qed.

Lemma search_from_none (pv : option ascii) (i : nat) (s : string) :
  (forall a b, s = a ++ b ->
     exec fl r Some (MState (last_char pv a) b []) = None) ->
  search_from fl r pv i s = None.
Proof.
  revert pv i. induction s as [|c s IH]; intros pv i H.
  - pose proof (H "" "" eq_refl) as H0. simpl in H0.
    simpl. unfold match_here. now rewrite H0.
  - pose proof (H "" (String c s) eq_refl) as H0. simpl in H0.
    cbn [search_from]. unfold match_here. rewrite H0.
    apply IH. intros a b ->. apply (H (String c a) b eq_refl).
Qed.

(** A match that is found starts where the pattern succeeds. *)
Lemma search_from_found (pv : option ascii) (i : nat) (s : string) (m : rmatch) :
  search_from fl r pv i s = Some m ->
  exists a b st, s = a ++ b /\
    exec fl r Some (MState (last_char pv a) b []) = Some st /\
    m = RMatch (i + String.length a) (taken b (rest st)) (caps st) (rest st).
Proof.
  revert pv i. induction s as [|c s IH]; intros pv i H.
  - simpl in H. unfold match_here in H.
    destruct (exec _ _ _ _) as [st|] eqn:E; [|discriminate].
    exists "", "", st. simpl. rewrite Nat.add_0_r.
    injection H as <-. auto.
  - cbn [search_from] in H. unfold match_here in H.
    destruct (exec _ _ _ _) as [st|] eqn:E.
    + exists "", (String c s), st. simpl. rewrite Nat.add_0_r.
      injection H as <-. auto.
    + apply IH in H as (a & b & st & -> & Hex & ->).
      exists (String c a), b, st. simpl.
      repeat split; auto. f_equal. lia.
Qed.

End Search.

(** Wherever a pattern succeeds, what follows it was run on a suffix of
    the input. *)
Lemma star_reaches (fl : flags) (a : atom) (k : mstate -> option mstate)
    (p : option ascii) (cs : list (nat * string)) (s : string) (res : mstate) :
  star fl a k p cs s = Some res ->
  exists st1 x, k st1 = Some res /\ s = x ++ rest st1.
Proof.
  revert p. induction s as [|c s IH]; intros p; cbn [star].
  - intros H. exists (MState p "" cs), "". auto.
  - destruct (atom_ok fl a c).
    + destruct (star fl a k (Some c) cs s) eqn:E.
      * intros H. injection H as <-.
        destruct (IH _ E) as (st1 & x & Hk & ->).
        exists st1, (String c x). auto.
      * intros H. exists (MState p (String c s) cs), "". auto.
    + intros H. exists (MState p (String c s) cs), "". auto.
Qed.

Lemma lazy_star_reaches (fl : flags) (a : atom) (k : mstate -> option mstate)
    (p : option ascii) (cs : list (nat * string)) (s : string) (res : mstate) :
  lazy_star fl a k p cs s = Some res ->
  exists st1 x, k st1 = Some res /\ s = x ++ rest st1.
Proof.
  revert p. induction s as [|c s IH]; intros p; cbn [lazy_star].
  - destruct (k (MState p "" cs)) eqn:E; [|discriminate].
    intros H. injection H as <-. exists (MState p "" cs), "". auto.
  - destruct (k (MState p (String c s) cs)) eqn:E.
    + intros H. injection H as <-. exists (MState p (String c s) cs), "". auto.
    + destruct (atom_ok fl a c); [|discriminate].
      intros H. destruct (IH _ H) as (st1 & x & Hk & ->).
      exists st1, (String c x). auto.
Qed.

Lemma one_reaches (fl : flags) (a : atom) (k : mstate -> option mstate)
    (st res : mstate) :
  one fl a k st = Some res ->
  exists st1 x, k st1 = Some res /\ rest st = x ++ rest st1.
Proof.
  unfold one. destruct (rest st) as [|c s]; [discriminate|].
  destruct (atom_ok fl a c); [|discriminate].
  intros H. exists (MState (Some c) s (caps st)), (String c ""). auto.
Qed.

Lemma exec_reaches (fl : flags) (r : regex) :
  forall k st res,
    exec fl r k st = Some res ->
    exists st1 x, k st1 = Some res /\ rest st = x ++ rest st1.
Proof.
  induction r as [|a|r1 IH1 r2 IH2|r1 IH1 r2 IH2|a|a|a|a|n r IH| | |r IH];
    intros k st res; cbn [exec].
  - intros H. exists st, "". auto.
  - apply one_reaches.
  - intros H. apply IH1 in H as (st1 & x & H & E).
    apply IH2 in H as (st2 & y & H & E2).
    exists st2, (x ++ y). split; [exact H|].
    now rewrite E, E2, app_assoc.
  - destruct (exec fl r1 k st) eqn:E.
    + intros H. injection H as <-. eauto.
    + eauto.
  - destruct (one fl a k st) eqn:E.
    + intros H. injection H as <-. now apply one_reaches in E.
    + intros H. exists st, "". auto.
  - apply star_reaches.
  - intros H. apply one_reaches in H as (st1 & x & H & E).
    apply star_reaches in H as (st2 & y & H & E2).
    exists st2, (x ++ y). split; [exact H|].
    now rewrite E, E2, app_assoc.
  - apply lazy_star_reaches.
  - intros H. apply IH in H as (st1 & x & H & E).
    eexists. exists x. split; [exact H | exact E].
  - destruct (at_bol fl st); [|discriminate].
    intros H. exists st, "". auto.
  - destruct (at_eol fl st); [|discriminate].
    intros H. exists st, "". auto.
  - destruct (exec fl r Some st) as [st'|]; [|discriminate].
    intros H. eexists. exists "". split; [exact H | reflexivity].
Qed.

Lemma seq_reaches (fl : flags) (r1 r2 : regex) (k : mstate -> option mstate)
    (st res : mstate) :
  exec fl (Seq r1 r2) k st = Some res ->
  exists st1 x, exec fl r2 k st1 = Some res /\ rest st = x ++ rest st1.
Proof. rewrite exec_seq. apply exec_reaches. Qed.

Lemma lit_reaches (m : string) (k : mstate -> option mstate) (st res : mstate) :
  exec plain (lit m) k st = Some res -> exists b, rest st = m ++ b.
Proof.
  destruct st as [p s cs]. rewrite exec_lit.
  destruct (strip_prefix m s) as [s'|] eqn:E; [|discriminate].
  intros _. exists s'. now apply strip_prefix_inv.
Qed.

End RegexFacts.



(** ** parseGitHubUrl *)

Module UrlFacts.
Import StrFacts RegexFacts UrlSpec GithubFetcher.

Lemma not_slash_ok (c : ascii) : atom_ok plain not_slash c = nonslash c.
Proof.
  unfold atom_ok, not_slash, any_of, nonslash; simpl.
  now rewrite orb_false_r.
Qed.

Lemma run_end_not_slash (pv : option ascii) (cs : list (nat * string)) (s : string) :
  run_end plain not_slash pv cs s =
  MState (last_char pv (take_while nonslash s)) (drop_while nonslash s) cs.
Proof.
  unfold run_end.
  rewrite (take_while_ext _ nonslash) by apply not_slash_ok.
  rewrite (drop_while_ext _ nonslash) by apply not_slash_ok.
  reflexivity.
Qed.

(** The pattern succeeds exactly where a reference can be read. *)
Lemma exec_ref_pattern (host : string) (pv : option ascii) (s : string) :
  exec plain (ref_pattern host) Some (MState pv s []) =
  match read_ref host s with
  | Some (o, r, post) => Some (MState (last_char None r) post [(2, r); (1, o)])
  | None => None
  end.
Proof.
  unfold ref_pattern, read_ref. cbn [exec]. rewrite exec_lit.
  destruct (strip_prefix host s) as [s1|]; [|reflexivity].
  unfold one. cbn [rest caps prev].
  destruct s1 as [|c s1]; [reflexivity|].
  rewrite not_slash_ok. cbn [take_while drop_while].
  destruct (nonslash c) eqn:Ec; [|reflexivity].
  rewrite star_refused.
  2:{ intros pv' x s' Hx. cbn [rest caps prev].
      rewrite not_slash_ok in Hx. unfold nonslash in Hx.
      cbn [atom_ok plain ignoreCase].
      destruct (Ascii.eqb x "/"); [discriminate | reflexivity]. }
  rewrite run_end_not_slash. cbn [rest caps prev].
  pose proof (stops_drop_while nonslash s1) as Hstop.
  pose proof (take_drop nonslash s1) as Htd.
  destruct (drop_while nonslash s1) as [|x s3] eqn:Ed; [reflexivity|].
  cbn [atom_ok plain ignoreCase].
  simpl in Hstop. unfold nonslash in Hstop.
  destruct (Ascii.eqb x "/") eqn:Ex; [|discriminate].
  apply Ascii.eqb_eq in Ex. subst x.
  destruct s3 as [|d s3]; [reflexivity|].
  rewrite not_slash_ok. cbn [take_while drop_while].
  destruct (nonslash d) eqn:Ed'; [|reflexivity].
  rewrite star_commit; rewrite run_end_not_slash; cbn [rest caps prev];
    [|discriminate].
  f_equal. f_equal. f_equal.
  - f_equal. apply taken_eq. simpl. now rewrite take_drop.
  - f_equal. f_equal. apply taken_eq. simpl. now rewrite Htd.
Qed.

Lemma read_ref_iff (host s o r post : string) :
  read_ref host s = Some (o, r, post) <-> ref_at host s o r post.
Proof.
  unfold read_ref, ref_at. split.
  - destruct (strip_prefix host s) as [s1|] eqn:Es; [|discriminate].
    apply strip_prefix_inv in Es. subst s.
    pose proof (take_drop nonslash s1) as Htd.
    pose proof (all_take_while nonslash s1) as Hall.
    pose proof (stops_drop_while nonslash s1) as Hstop.
    destruct (take_while nonslash s1) as [|c o'] eqn:Et; [discriminate|].
    destruct (drop_while nonslash s1) as [|x s3] eqn:Ed; [discriminate|].
    pose proof (take_drop nonslash s3) as Htd3.
    pose proof (all_take_while nonslash s3) as Hall3.
    pose proof (stops_drop_while nonslash s3) as Hstop3.
    destruct (take_while nonslash s3) as [|d r'] eqn:Et3; [discriminate|].
    intros H. injection H as <- <- <-.
    simpl in Hstop. unfold nonslash in Hstop.
    destruct (Ascii.eqb x "/") eqn:Ex; [|discriminate].
    apply Ascii.eqb_eq in Ex. subst x.
    repeat split; try discriminate; auto.
    rewrite <- Htd. f_equal. simpl. f_equal. f_equal.
    f_equal. symmetry. exact Htd3.
  - intros (-> & Ho & Hr & Hao & Har & Hpost).
    rewrite strip_prefix_app.
    assert (Hs : stops nonslash ("/" ++ r ++ post)) by reflexivity.
    rewrite (take_while_app nonslash o _ Hao Hs).
    rewrite (drop_while_app nonslash o _ Hao Hs).
    destruct o as [|c o]; [congruence|].
    cbn [append].
    rewrite (take_while_app nonslash r _ Har Hpost).
    rewrite (drop_while_app nonslash r _ Har Hpost).
    destruct r as [|d r]; [congruence|]. reflexivity.
Qed.

Lemma find_ref_first (host url o r post : string) :
  find_ref host url = Some (o, r, post) -> first_ref host url o r.
Proof.
  induction url as [|c url IH]; cbn [find_ref].
  - destruct (read_ref host "") as [[[o' r'] post']|] eqn:E; [|discriminate].
    intros H. injection H as -> -> ->.
    exists "", "", post.
    split; [reflexivity|]. split; [now apply read_ref_iff|].
    intros a b Hab Hb. destruct a, b; discriminate || congruence.
  - destruct (read_ref host (String c url)) as [[[o' r'] post']|] eqn:E.
    + intros H. injection H as -> -> ->.
      exists "", (String c url), post.
      split; [reflexivity|]. split; [now apply read_ref_iff|].
      intros a b Hab Hb. destruct a, b; discriminate || congruence.
    + intros H. destruct (IH H) as (pre & s & post0 & -> & Href & Hleft).
      exists (String c pre), s, post0.
      split; [reflexivity|]. split; [exact Href|].
      intros a b Hab Hb o' r' post' Hr.
      destruct a as [|x a]; simpl in Hab.
      * subst b. apply read_ref_iff in Hr. simpl in Hr. congruence.
      * injection Hab as -> ->. now apply (Hleft a b eq_refl Hb o' r' post').
Qed.

Lemma find_ref_none (host url : string) :
  find_ref host url = None -> no_ref host url.
Proof.
  induction url as [|c url IH]; cbn [find_ref].
  - destruct (read_ref host "") eqn:E; [discriminate|].
    intros _ a b o r post Hab Hr. apply read_ref_iff in Hr.
    destruct a, b; try discriminate. congruence.
  - destruct (read_ref host (String c url)) eqn:E; [discriminate|].
    intros H a b o r post Hab Hr.
    destruct a as [|x a]; simpl in Hab.
    + subst b. apply read_ref_iff in Hr. congruence.
    + injection Hab as -> ->. now apply (IH H a b o r post eq_refl).
Qed.

(** *** The patterns on a URL *)

Lemma match_first_ref (host url o r : string) :
  first_ref host url o r ->
  exists m, re_match plain (ref_pattern host) url = Some m /\
            group 1 m = o /\ group 2 m = r.
Proof.
  intros (pre & s & post & -> & Href & Hleft).
  unfold re_match. rewrite search_from_skip.
  - apply read_ref_iff in Href.
    erewrite search_from_here
      by (rewrite exec_ref_pattern, Href; reflexivity).
    eexists. split; [reflexivity|]. split; reflexivity.
  - intros a b Hab Hb. rewrite exec_ref_pattern.
    destruct (read_ref host (b ++ s)) as [[[o' r'] post']|] eqn:E;
      [|reflexivity].
    apply read_ref_iff in E. now destruct (Hleft a b Hab Hb o' r' post').
Qed.

Lemma match_no_ref (host url : string) :
  no_ref host url -> re_match plain (ref_pattern host) url = None.
Proof.
  intros H. unfold re_match. apply search_from_none.
  intros a b Hab. rewrite exec_ref_pattern.
  destruct (read_ref host b) as [[[o r] post]|] eqn:E; [|reflexivity].
  apply read_ref_iff in E. now destruct (H a b o r post Hab).
Qed.

(** *** The suffix [.git] *)

Lemma exec_git_suffix (pv : option ascii) (s : string) :
  exec plain git_suffix Some (MState pv s []) =
  if String.eqb s ".git" then Some (MState (Some "t"%char) "" []) else None.
Proof.
  unfold git_suffix. cbn [exec]. rewrite exec_lit.
  destruct (String.eqb_spec s ".git") as [->|Hne]; [reflexivity|].
  destruct (strip_prefix ".git" s) as [s'|] eqn:E; [|reflexivity].
  apply strip_prefix_inv in E. subst s.
  destruct s' as [|c s']; [simpl in Hne; congruence | reflexivity].
Qed.

Lemma strip_git (r : string) :
  git_stripped r (re_replace plain git_suffix "" r).
Proof.
  unfold re_replace, re_match.
  destruct (search_from plain git_suffix None 0 r) as [m|] eqn:E.
  - left.
    apply search_from_found in E as (a & b & st & -> & Hex & ->).
    rewrite exec_git_suffix in Hex.
    destruct (String.eqb_spec b ".git") as [->|]; [|discriminate].
    injection Hex as <-. cbn [m_index m_after rest expand Nat.add].
    rewrite substring_app. simpl. now rewrite app_nil_r.
  - right. split; [reflexivity|]. intros r0 ->.
    rewrite search_from_skip in E.
    + erewrite search_from_here in E; [discriminate|].
      rewrite exec_git_suffix. reflexivity.
    + intros a b -> Hb. rewrite exec_git_suffix.
      destruct (String.eqb_spec (b ++ ".git") ".git") as [H|]; [|reflexivity].
      apply (f_equal String.length) in H. rewrite length_app in H.
      destruct b; [congruence | simpl in H; lia].
Qed.

Lemma git_stripped_fun (r r1 r2 : string) :
  git_stripped r r1 -> git_stripped r r2 -> r1 = r2.
Proof.
  intros [H1|[-> H1]] [H2|[-> H2]].
  - rewrite H1 in H2. now apply app_inv_tail in H2.
  - now destruct (H2 r1).
  - now destruct (H1 r2).
  - reflexivity.
Qed.

(** *** The usual forms *)

Lemma count_app (f : ascii -> bool) (a b : string) :
  count f (a ++ b) = count f a + count f b.
Proof.
  induction a as [|c a IH]; cbn [append count]; [reflexivity|].
  rewrite IH. lia.
Qed.

Lemma count_nonslash (s : string) :
  all nonslash s = true -> count is_slash s = 0.
Proof.
  induction s as [|c s IH]; cbn [all count]; [reflexivity|].
  intros H. apply andb_true_iff in H as [Hc H]. rewrite (IH H).
  unfold nonslash in Hc. unfold is_slash. now destruct (Ascii.eqb c "/").
Qed.

(** A reference has two slashes at least. *)
Lemma ref_at_slashes (s o r post : string) :
  ref_at "github.com/" s o r post -> 2 <= count is_slash s.
Proof.
  intros (-> & _). rewrite !count_app. cbn. lia.
Qed.

Lemma https_first_ref (o r : string) :
  o <> "" -> r <> "" -> all nonslash o = true -> all nonslash r = true ->
  first_ref "github.com/" ("https://github.com/" ++ o ++ "/" ++ r) o r.
Proof.
  intros Ho Hr Hao Har.
  exists "https://", ("github.com/" ++ o ++ "/" ++ r), "".
  split; [reflexivity|]. split.
  - unfold ref_at. rewrite app_nil_r. repeat split; auto.
  - intros a b Hab Hb o' r' post' (E & _).
    do 8 (destruct a as [|? a];
          [cbn in Hab; subst b; cbn in E; discriminate E
          |cbn in Hab; injection Hab as <- Hab]).
    destruct a, b; try discriminate Hab. congruence.
Qed.

Lemma ssh_no_url_ref (o r : string) :
  all nonslash o = true -> all nonslash r = true ->
  no_ref "github.com/" ("git@github.com:" ++ o ++ "/" ++ r).
Proof.
  intros Hao Har a b o' r' post' E Href.
  apply ref_at_slashes in Href.
  apply (f_equal (count is_slash)) in E.
  rewrite !count_app, (count_nonslash o Hao), (count_nonslash r Har) in E.
  cbn in E. lia.
Qed.

Lemma ssh_first_ref (o r : string) :
  o <> "" -> r <> "" -> all nonslash o = true -> all nonslash r = true ->
  first_ref "github.com:" ("git@github.com:" ++ o ++ "/" ++ r) o r.
Proof.
  intros Ho Hr Hao Har.
  exists "git@", ("github.com:" ++ o ++ "/" ++ r), "".
  split; [reflexivity|]. split.
  - unfold ref_at. rewrite app_nil_r. repeat split; auto.
  - intros a b Hab Hb o' r' post' (E & _).
    do 4 (destruct a as [|? a];
          [cbn in Hab; subst b; cbn in E; discriminate E
          |cbn in Hab; injection Hab as <- Hab]).
    destruct a, b; try discriminate Hab. congruence.
Qed.

Lemma parse_first_ref (host : string) (rest_patterns : list regex)
    (url o r : string) :
  first_ref host url o r ->
  exists r', git_stripped r r' /\
    parse_with (ref_pattern host :: rest_patterns) url
    = Return (RepoRef o r').
Proof.
  intros H. cbn [parse_with].
  apply match_first_ref in H as (m & -> & <- & <-).
  eexists. split; [apply strip_git | reflexivity].
Qed.

Lemma parse_no_ref (host : string) (rest_patterns : list regex)
    (url : string) :
  no_ref host url ->
  parse_with (ref_pattern host :: rest_patterns) url
  = parse_with rest_patterns url.
Proof. intros H. cbn [parse_with]. now rewrite (match_no_ref _ _ H). Qed.

(** C2.  The leftmost [github.com/owner/repo] of the input decides the
    result: its owner, and its repository name without a trailing
    [.git]; the [github.com:owner/repo] form is looked for only when the
    first form occurs nowhere; an input with neither form throws the
    error [Invalid GitHub URL].  In particular the references
    [https://github.com/owner/repo], [https://github.com/owner/repo.git]
    and [git@github.com:owner/repo.git] give the owner and [repo]. *)
Theorem parseGitHubUrl_spec (url : string) :
  (forall o r, first_ref "github.com/" url o r ->
     exists r', git_stripped r r' /\
       parseGitHubUrl url = Return (RepoRef o r')) /\
  (forall o r, no_ref "github.com/" url -> first_ref "github.com:" url o r ->
     exists r', git_stripped r r' /\
       parseGitHubUrl url = Return (RepoRef o r')) /\
  (no_ref "github.com/" url -> no_ref "github.com:" url ->
     parseGitHubUrl url = Throw (Error ("Invalid GitHub URL: " ++ url))) /\
  (forall o r,
     o <> "" -> r <> "" -> all nonslash o = true -> all nonslash r = true ->
     (url = "https://github.com/" ++ o ++ "/" ++ r ->
      (forall r0, r <> r0 ++ ".git") ->
      parseGitHubUrl url = Return (RepoRef o r)) /\
     (url = "https://github.com/" ++ o ++ "/" ++ r ++ ".git" ->
      parseGitHubUrl url = Return (RepoRef o r)) /\
     (url = "git@github.com:" ++ o ++ "/" ++ r ++ ".git" ->
      parseGitHubUrl url = Return (RepoRef o r))).
Proof.
  unfold parseGitHubUrl, patterns.
  change url_pattern with (ref_pattern "github.com/").
  change ssh_pattern with (ref_pattern "github.com:").
  split; [|split; [|split]].
  - intros o r H. now apply parse_first_ref.
  - intros o r H0 H. rewrite (parse_no_ref _ _ _ H0).
    now apply parse_first_ref.
  - intros H0 H1. now rewrite (parse_no_ref _ _ _ H0), (parse_no_ref _ _ _ H1).
  - intros o r Ho Hr Hao Har.
    assert (Hg : all nonslash (r ++ ".git") = true)
      by (rewrite all_app, Har; reflexivity).
    assert (Hne : r ++ ".git" <> "") by (destruct r; discriminate).
    split; [|split]; intros ->.
    + intros Hno.
      destruct (parse_first_ref "github.com/" [ref_pattern "github.com:"]
                  _ o r (https_first_ref o r Ho Hr Hao Har))
        as (r' & [Hs|[-> _]] & ->); [now destruct (Hno r') | reflexivity].
    + destruct (parse_first_ref "github.com/" [ref_pattern "github.com:"]
                  _ o (r ++ ".git") (https_first_ref o _ Ho Hne Hao Hg))
        as (r' & Hs & ->).
      now rewrite (git_stripped_fun _ _ _ Hs (or_introl eq_refl)).
    + rewrite (parse_no_ref _ _ _ (ssh_no_url_ref o (r ++ ".git") Hao Hg)).
      destruct (parse_first_ref "github.com:" []
                  _ o (r ++ ".git") (ssh_first_ref o _ Ho Hne Hao Hg))
        as (r' & Hs & ->).
      now rewrite (git_stripped_fun _ _ _ Hs (or_introl eq_refl)).
Qed.

Lemma parseGitHubUrl_spec_witness :
  parseGitHubUrl "https://github.com/owner/repo.git"
    = Return (RepoRef "owner" "repo") /\
  parseGitHubUrl "git@github.com:owner/repo"
    = Return (RepoRef "owner" "repo") /\
  parseGitHubUrl "https://example.org/owner/repo"
    = Throw (Error "Invalid GitHub URL: https://example.org/owner/repo").
Proof.
  split; [|split].
  - destruct (parseGitHubUrl_spec "https://github.com/owner/repo.git")
      as (H & _ & _ & _).
    destruct (H "owner" "repo.git"
                (find_ref_first "github.com/"
                   "https://github.com/owner/repo.git" "owner" "repo.git" ""
                   eq_refl))
      as (r' & Hs & ->).
    now rewrite (git_stripped_fun _ _ _ Hs (strip_git "repo.git")).
  - destruct (parseGitHubUrl_spec "git@github.com:owner/repo")
      as (_ & H & _ & _).
    destruct (H "owner" "repo"
                (find_ref_none "github.com/" "git@github.com:owner/repo"
                   eq_refl)
                (find_ref_first "github.com:" "git@github.com:owner/repo"
                   "owner" "repo" "" eq_refl))
      as (r' & Hs & ->).
    now rewrite (git_stripped_fun _ _ _ Hs (strip_git "repo")).
  - destruct (parseGitHubUrl_spec "https://example.org/owner/repo")
      as (_ & _ & H & _).
    exact (H (find_ref_none "github.com/" "https://example.org/owner/repo"
                eq_refl)
             (find_ref_none "github.com:" "https://example.org/owner/repo"
                eq_refl)).
Defined.

End UrlFacts.



(** ** generateFilename *)

Module SlugFacts.
Import StrFacts RegexFacts SlugSpec TemplateGenerator.

Lemma non_alnum_ok (c : ascii) :
  atom_ok plain (Cls true (fun c => is_lower c || is_digit c)) c
  = negb (alnum c).
Proof. reflexivity. Qed.

(** What the pattern [[^a-z0-9]+] takes at a position. *)
Lemma match_non_alnum (p : option ascii) (s : string) :
  match_here plain non_alnum p 0 s =
  match s with
  | String c s' =>
      if alnum c then None
      else
        Some (RMatch 0
                (String c (take_while (fun x => negb (alnum x)) s'))
                []
                (drop_while (fun x => negb (alnum x)) s'))
  | "" => None
  end.
Proof.
  unfold match_here, non_alnum. cbn [exec]. unfold one. cbn [rest caps prev].
  destruct s as [|c s']; [reflexivity|].
  rewrite non_alnum_ok. destruct (alnum c); [reflexivity|]. cbn [negb].
  rewrite star_commit by discriminate.
  unfold run_end. cbn [rest caps]. f_equal. f_equal.
  apply taken_eq. simpl. f_equal. symmetry. apply take_drop.
Qed.

Lemma replace_non_alnum (s : string) :
  forall before p,
    replace_all_from plain non_alnum "-" before p 0 s = collapse false s /\
    replace_all_from plain non_alnum "-" before p
      (String.length (take_while (fun x => negb (alnum x)) s)) s
    = collapse true s.
Proof.
  induction s as [|c s IH]; intros before p.
  - split; reflexivity.
  - assert (H0 : replace_all_from plain non_alnum "-" before p 0 (String c s)
                 = collapse false (String c s)).
    { cbn [replace_all_from]. rewrite match_non_alnum. cbn [collapse].
      destruct (alnum c).
      - f_equal. apply IH.
      - cbn [m_text String.length expand ngroups non_alnum].
        simpl append. f_equal. apply IH. }
    split; [exact H0|].
    cbn [take_while collapse]. destruct (alnum c) eqn:E; cbn [negb].
    + cbn [String.length]. rewrite H0. cbn [collapse]. now rewrite E.
    + cbn [String.length replace_all_from]. apply IH.
Qed.

(** What the pattern [^-|-$] takes at a position. *)
Lemma match_edge_hyphen (p : option ascii) (s : string) :
  match_here plain edge_hyphen p 0 s =
  match s with
  | String c s' =>
      if Ascii.eqb c "-" &&
         (match p with None => true | Some _ => false end || String.eqb s' "")
      then Some (RMatch 0 "-" [] s')
      else None
  | "" => None
  end.
Proof.
  unfold match_here, edge_hyphen. cbn [exec]. unfold one, at_bol, at_eol.
  cbn [rest caps prev multiline plain atom_ok ignoreCase].
  destruct s as [|c s']; [now destruct p|].
  assert (Ht : taken (String "-" s') s' = "-") by now apply taken_eq.
  destruct (Ascii.eqb_spec c "-") as [->|Hc]; cbn [andb].
  - destruct p as [x|]; cbn [orb rest caps].
    + destruct s' as [|d s']; reflexivity.
    + now rewrite Ht.
  - now destruct p.
Qed.

Lemma replace_edge_inner (s : string) :
  forall before x,
    replace_all_from plain edge_hyphen "" before (Some x) 0 s
    = drop_last_hyphen s.
Proof.
  induction s as [|c s IH]; intros before x; [reflexivity|].
  cbn [replace_all_from]. rewrite match_edge_hyphen. cbn [orb drop_last_hyphen].
  destruct (Ascii.eqb c "-" && String.eqb s "") eqn:E.
  - cbn [m_text String.length expand append].
    apply andb_true_iff in E as [_ E]. apply String.eqb_eq in E. now subst s.
  - f_equal. apply IH.
Qed.

Lemma replace_edge_hyphen (s : string) :
  re_replace_all plain edge_hyphen "" s
  = drop_last_hyphen (drop_first_hyphen s).
Proof.
  unfold re_replace_all. destruct s as [|c s]; [reflexivity|].
  cbn [replace_all_from]. rewrite match_edge_hyphen.
  cbn [orb drop_first_hyphen]. rewrite andb_true_r.
  destruct (Ascii.eqb c "-") eqn:E.
  - cbn [m_text String.length expand append]. apply replace_edge_inner.
  - cbn [drop_last_hyphen]. rewrite E. cbn [andb].
    f_equal. apply replace_edge_inner.
Qed.

Lemma slugify_eq (title : string) :
  slugify title
  = drop_last_hyphen (drop_first_hyphen (collapse false (toLowerCase title))).
Proof.
  unfold slugify. rewrite replace_edge_hyphen. unfold re_replace_all.
  now rewrite (proj1 (replace_non_alnum _ "" None)).
Qed.

(** *** The shape of a slug *)

Lemma alnum_lower (c : ascii) : alnum c = true -> lower_char c = c.
Proof.
  destruct c as [b0 b1 b2 b3 b4 b5 b6 b7].
  destruct b0, b1, b2, b3, b4, b5, b6, b7;
    intros H; try reflexivity; discriminate H.
Qed.

Lemma alnum_not_hyphen (c : ascii) :
  alnum c = true -> Ascii.eqb c "-" = false.
Proof.
  intros H. destruct (Ascii.eqb_spec c "-") as [->|]; [discriminate | auto].
Qed.

Lemma tidy_collapse (b : bool) (s : string) : tidy b (collapse b s) = true.
Proof.
  revert b. induction s as [|c s IH]; intros b; [reflexivity|].
  cbn [collapse]. destruct (alnum c) eqn:E.
  - cbn [tidy]. rewrite E. apply IH.
  - destruct b; [apply IH|]. cbn [tidy]. now rewrite IH.
Qed.

Lemma tidy_drop_first (s : string) :
  tidy false s = true -> tidy true (drop_first_hyphen s) = true.
Proof.
  destruct s as [|c s]; [reflexivity|]. cbn [tidy drop_first_hyphen].
  destruct (alnum c) eqn:E.
  - rewrite (alnum_not_hyphen c E). cbn [tidy]. now rewrite E.
  - destruct (Ascii.eqb c "-"); [|discriminate]. now cbn.
Qed.

Lemma words_drop_last (s : string) :
  (tidy false s = true -> words false (drop_last_hyphen s) = true) /\
  (tidy true s = true -> s <> "" -> words true (drop_last_hyphen s) = true).
Proof.
  induction s as [|c s [IHa IHb]]; [split; [reflexivity | congruence]|].
  cbn [tidy drop_last_hyphen]. destruct (alnum c) eqn:E.
  - rewrite (alnum_not_hyphen c E). cbn [andb words]. rewrite E.
    split; auto.
  - destruct (Ascii.eqb_spec c "-") as [->|]; cbn [andb negb];
      [|split; discriminate].
    split; [|discriminate]. intros Ht.
    destruct (String.eqb_spec s "") as [->|Hs]; [reflexivity|].
    cbn [words]. rewrite E. cbn. auto.
Qed.

Lemma slugify_is_slug (title : string) : is_slug (slugify title) = true.
Proof.
  rewrite slugify_eq.
  pose proof (tidy_drop_first _ (tidy_collapse false (toLowerCase title))) as H.
  destruct (words_drop_last
              (drop_first_hyphen (collapse false (toLowerCase title))))
    as [_ Hb].
  destruct (drop_first_hyphen (collapse false (toLowerCase title)))
    as [|c s] eqn:E; [reflexivity|].
  specialize (Hb H ltac:(discriminate)).
  unfold is_slug. now destruct (drop_last_hyphen (String c s)).
Qed.

Section Words.
Variable need : bool.

Lemma words_lower (w : string) :
  words need w = true -> toLowerCase w = w.
Proof.
  revert need. induction w as [|c w IH]; intros need; [reflexivity|].
  cbn [words toLowerCase]. destruct (alnum c) eqn:E.
  - intros H. rewrite (alnum_lower c E). f_equal. eauto.
  - destruct (Ascii.eqb_spec c "-") as [->|]; [|discriminate].
    destruct need; [discriminate|]. cbn [andb negb]. intros H.
    change (lower_char "-") with "-"%char. f_equal. eauto.
Qed.

Lemma words_collapse (w : string) :
  words need w = true -> collapse need w = w /\ collapse false w = w.
Proof.
  revert need. induction w as [|c w IH]; intros need; [now destruct need|].
  cbn [words collapse]. destruct (alnum c) eqn:E.
  - intros H. destruct (IH _ H) as [-> _]. auto.
  - destruct (Ascii.eqb_spec c "-") as [->|]; [|discriminate].
    destruct need; [discriminate|]. cbn [andb negb]. intros H.
    destruct (IH _ H) as [-> _]. auto.
Qed.

Lemma words_drop_last_id (w : string) :
  words need w = true -> drop_last_hyphen w = w.
Proof.
  revert need. induction w as [|c w IH]; intros need; [reflexivity|].
  cbn [words drop_last_hyphen]. destruct (alnum c) eqn:E.
  - rewrite (alnum_not_hyphen c E). cbn [andb]. intros H. f_equal. eauto.
  - destruct (Ascii.eqb_spec c "-") as [->|]; [|discriminate].
    destruct need; [discriminate|]. cbn [andb negb]. intros H.
    destruct w as [|d w]; [discriminate|]. cbn [String.eqb]. f_equal. eauto.
Qed.

Lemma words_no_trailing (w : string) :
  words need w = true -> endsWith w "-" = false.
Proof.
  revert need. induction w as [|c w IH]; intros need; [reflexivity|].
  cbn [words endsWith]. destruct (alnum c) eqn:E.
  - intros H. rewrite (IH _ H), orb_false_r.
    apply String.eqb_neq. intros Heq. injection Heq as -> _. discriminate.
  - destruct (Ascii.eqb_spec c "-") as [->|]; [|discriminate].
    destruct need; [discriminate|]. cbn [andb negb]. intros H.
    rewrite (IH _ H), orb_false_r.
    destruct w; [discriminate | reflexivity].
Qed.

Lemma words_no_double (w : string) :
  words need w = true -> includes w "--" = false.
Proof.
  revert need. induction w as [|c w IH]; intros need; [reflexivity|].
  cbn [words includes]. destruct (alnum c) eqn:E.
  - intros H. rewrite (IH _ H), orb_false_r.
    cbn [prefix]. destruct (ascii_dec "-" c) as [<-|]; [discriminate | auto].
  - destruct (Ascii.eqb_spec c "-") as [->|]; [|discriminate].
    destruct need; [discriminate|]. cbn [andb negb]. intros H.
    rewrite (IH _ H), orb_false_r.
    destruct w as [|d w]; [reflexivity|]. cbn [words] in H.
    cbn [prefix]. destruct (ascii_dec "-" "-"); [|reflexivity].
    destruct (ascii_dec "-" d) as [<-|]; [discriminate | reflexivity].
Qed.

End Words.

Lemma slug_fixed (w : string) : is_slug w = true -> slugify w = w.
Proof.
  destruct w as [|c w]; [reflexivity|]. unfold is_slug. intros H.
  rewrite slugify_eq, (words_lower _ _ H).
  rewrite (proj2 (words_collapse _ _ H)).
  cbn [words] in H. cbn [drop_first_hyphen].
  destruct (alnum c) eqn:E; [|now destruct (Ascii.eqb c "-")].
  rewrite (alnum_not_hyphen c E).
  apply (words_drop_last_id true). cbn [words]. now rewrite E.
Qed.

(** C6.  The slug of a title is a fixed point of slugification; it does
    not begin with a hyphen, does not end with one and has no two
    hyphens in a row; the slug of [My Cool--App!] is [my-cool-app]. *)
Theorem slugify_idempotent_tidy (title : string) :
  slugify (slugify title) = slugify title /\
  startsWith (slugify title) "-" = false /\
  endsWith (slugify title) "-" = false /\
  includes (slugify title) "--" = false /\
  slugify "My Cool--App!" = "my-cool-app".
Proof.
  pose proof (slugify_is_slug title) as H.
  split; [now apply slug_fixed|].
  destruct (slugify title) as [|c w]; [repeat split; reflexivity|].
  unfold is_slug in H. split; [|split; [|split]].
  - cbn [words] in H. unfold startsWith. cbn [prefix].
    destruct (ascii_dec "-" c) as [<-|]; [discriminate | reflexivity].
  - exact (words_no_trailing _ _ H).
  - exact (words_no_double _ _ H).
  - reflexivity.
Qed.

End SlugFacts.



Module FilenameFacts.
Import StrFacts RegexFacts SlugSpec TemplateGenerator.

(** What the pattern [\d+] takes at a position. *)
Lemma exec_digits (k : mstate -> option mstate) (pv : option ascii)
    (cs : list (nat * string)) (s : string) :
  (forall st, k st <> None) ->
  exec plain (Plus digit) k (MState pv s cs) =
  match s with
  | String c s' =>
      if is_digit c
      then k (MState (last_char (Some c) (take_while is_digit s'))
                (drop_while is_digit s') cs)
      else None
  | "" => None
  end.
Proof.
  intros Hk. cbn [exec]. unfold one. cbn [rest caps prev].
  destruct s as [|c s']; [reflexivity|].
  change (atom_ok plain digit c) with (is_digit c).
  destruct (is_digit c); [|reflexivity].
  rewrite star_commit by apply Hk. reflexivity.
Qed.

Lemma digits_absent (pv : option ascii) (s : string) :
  all non_digit s = true ->
  exec plain digits Some (MState pv s []) = None.
Proof.
  intros H. unfold digits. rewrite exec_digits by discriminate.
  destruct s as [|c s]; [reflexivity|]. cbn [all] in H.
  apply andb_true_iff in H as [H _]. unfold non_digit in H.
  now destruct (is_digit c).
Qed.

Lemma all_suffix (f : ascii -> bool) (a b : string) :
  all f (a ++ b) = true -> all f b = true.
Proof. rewrite all_app. intros H. now apply andb_true_iff in H. Qed.

(** The first run of digits of a label. *)
Lemma match_first_digits (pre ds post : string) :
  all non_digit pre = true -> ds <> "" -> all is_digit ds = true ->
  stops is_digit post ->
  exists m, re_match plain digits (pre ++ ds ++ post) = Some m /\ m_text m = ds.
Proof.
  intros Hpre Hne Hds Hpost. unfold re_match. rewrite search_from_skip.
  - destruct ds as [|d ds]; [congruence|]. cbn [all] in Hds.
    apply andb_true_iff in Hds as [Hd Hds].
    erewrite search_from_here.
    2:{ unfold digits. rewrite exec_digits by discriminate.
        cbn [append]. rewrite Hd. reflexivity. }
    eexists. split; [reflexivity|]. cbn [m_text rest].
    rewrite (drop_while_app is_digit ds post Hds Hpost).
    now apply taken_eq.
  - intros a b -> Hb. destruct b as [|c b]; [congruence|].
    apply all_suffix in Hpre. cbn [all] in Hpre.
    apply andb_true_iff in Hpre as [Hc _]. unfold non_digit in Hc.
    unfold digits. rewrite exec_digits by discriminate.
    cbn [append]. now destruct (is_digit c).
Qed.

Lemma match_no_digits (label : string) :
  all non_digit label = true -> re_match plain digits label = None.
Proof.
  intros H. unfold re_match. apply search_from_none.
  intros a b ->. apply digits_absent. now apply all_suffix in H.
Qed.

Lemma filename_of_numbered_label (now : N) (title pre ds post : string) :
  all non_digit pre = true -> ds <> "" -> all is_digit ds = true ->
  stops is_digit post ->
  generateFilename now title (Some (pre ++ ds ++ post))
  = "day-" ++ ds ++ "-" ++ slugify title ++ ".html".
Proof.
  intros H1 H2 H3 H4. unfold generateFilename.
  destruct (match_first_digits pre ds post H1 H2 H3 H4) as (m & -> & ->).
  reflexivity.
Qed.

(** C7.  The file name is [day-<number>-<slug>.html]: the number is the
    first run of digits of the label, or the timestamp when the label
    has no digit or is absent; the slug is that of the title.  Title
    [My App] with label [Project 7] gives [day-7-my-app.html]. *)
Theorem generateFilename_spec (now : N) (title : string) :
  (forall pre ds post,
     all non_digit pre = true -> ds <> "" -> all is_digit ds = true ->
     stops is_digit post ->
     generateFilename now title (Some (pre ++ ds ++ post))
     = "day-" ++ ds ++ "-" ++ slugify title ++ ".html") /\
  (forall label,
     all non_digit label = true ->
     generateFilename now title (Some label)
     = "day-" ++ decimal now ++ "-" ++ slugify title ++ ".html") /\
  generateFilename now title None
  = "day-" ++ decimal now ++ "-" ++ slugify title ++ ".html" /\
  generateFilename now "My App" (Some "Project 7") = "day-7-my-app.html".
Proof.
  split; [|split; [|split]].
  - apply filename_of_numbered_label.
  - intros label H. unfold generateFilename.
    now rewrite (match_no_digits label H).
  - reflexivity.
  - reflexivity.
Qed.

Lemma generateFilename_spec_witness :
  generateFilename 1730000000000 "My Cool--App!" (Some "Project 12b")
  = "day-12-my-cool-app.html" /\
  generateFilename 1730000000000 "My Cool--App!" (Some "Project")
  = "day-1730000000000-my-cool-app.html".
Proof.
  destruct (generateFilename_spec 1730000000000 "My Cool--App!")
    as (H1 & H2 & _).
  split.
  - exact (H1 "Project " "12" "b" eq_refl ltac:(discriminate) eq_refl eq_refl).
  - exact (H2 "Project" eq_refl).
Defined.

End FilenameFacts.



(** ** Numbers *)

Module DoubleFacts.
Import Float64.

(** Below 2^53 nothing is rounded. *)
Lemma nearest_exact (n : N) :
  (n < exact_below)%N -> nearest n = Finite n.
Proof.
  intros H. unfold nearest. apply N.ltb_lt in H. now rewrite H.
Qed.

Lemma nearest_succ (t : N) :
  (t < exact_below)%N -> nearest (t + 1) = Finite (t + 1).
Proof.
  intros H. destruct (N.eq_dec (t + 1) exact_below) as [E|E].
  - rewrite E. vm_compute. reflexivity.
  - apply nearest_exact. lia.
Qed.

(** From 2^53 on the rounded value is 2^53 at least. *)
Lemma nearest_large (n k : N) :
  (exact_below <= n)%N -> nearest n = Finite k -> (exact_below <= k)%N.
Proof.
  intros H. unfold nearest.
  destruct (N.ltb_spec n exact_below) as [Hlt|_]; [lia|].
  cbv zeta.
  set (e := (N.log2 n - 52)%N). set (q := N.shiftr n e).
  set (q' := if orb _ _ then (q + 1)%N else q).
  destruct (overflow <=? N.shiftl q' e)%N; [discriminate|].
  intros E. injection E as <-.
  assert (Hn : (0 < n)%N) by (unfold exact_below in H; lia).
  assert (Hl : (53 <= N.log2 n)%N).
  { change 53%N with (N.log2 exact_below). now apply N.log2_le_mono. }
  destruct (N.log2_spec n Hn) as [Hlo _].
  assert (He : (N.log2 n = 52 + e)%N) by (unfold e; lia).
  rewrite He, N.pow_add_r in Hlo.
  assert (Hp : (2 <= 2 ^ e)%N).
  { change 2%N with (2 ^ 1)%N at 1. apply N.pow_le_mono_r; [lia|]. lia. }
  assert (Hq : (2 ^ 52 <= q)%N).
  { unfold q. rewrite N.shiftr_div_pow2.
    apply N.div_le_lower_bound; [lia|]. lia. }
  assert (Hq' : (q <= q')%N) by (unfold q'; destruct (orb _ _); lia).
  rewrite N.shiftl_mul_pow2. unfold exact_below.
  change (2 ^ 53)%N with (2 ^ 52 * 2)%N.
  apply N.mul_le_mono; lia.
Qed.

(** A rounded value that is below 2^53 is the value. *)
Lemma nearest_small (n k : N) :
  nearest n = Finite k -> (k < exact_below)%N -> n = k.
Proof.
  intros E Hk. destruct (N.lt_ge_cases n exact_below) as [H|H].
  - rewrite (nearest_exact n H) in E. now injection E.
  - pose proof (nearest_large n k H E). lia.
Qed.

(** The order of the loop: [x] is not above [y]. *)
Lemma gtb_refl (x : number) : gtb x x = false.
Proof. destruct x; cbn; [apply N.ltb_irrefl | reflexivity]. Qed.

Lemma gtb_trans (x y z : number) :
  gtb x y = false -> gtb y z = false -> gtb x z = false.
Proof.
  destruct x, y, z; cbn; try congruence; rewrite !N.ltb_ge; lia.
Qed.

Lemma gtb_asym (x y : number) : gtb x y = true -> gtb y x = false.
Proof.
  destruct x, y; cbn; try congruence. rewrite N.ltb_lt, N.ltb_ge. lia.
Qed.

Lemma gtb_finite (a b : N) : gtb (Finite a) (Finite b) = false <-> (a <= b)%N.
Proof. cbn. apply N.ltb_ge. Qed.

End DoubleFacts.



(** ** getNextProjectNumber *)

Module NumberFacts.
Import StrFacts RegexFacts FilenameFacts DoubleFacts.
Import NumberSpec TemplateGenerator Float64 BrowseUpdater.

(** What the pattern [day-(\d+)] takes at a position. *)
Lemma exec_day_number (pv : option ascii) (s : string) :
  exec plain day_number Some (MState pv s []) =
  match read_day s with
  | Some ds =>
      match strip_prefix "day-" s with
      | Some s1 =>
          Some (MState (last_char None ds) (drop_while is_digit s1) [(1, ds)])
      | None => None
      end
  | None => None
  end.
Proof.
  unfold day_number, read_day. rewrite exec_seq, exec_lit.
  destruct (strip_prefix "day-" s) as [s1|]; [|reflexivity].
  rewrite exec_group, exec_digits by discriminate.
  destruct s1 as [|c s1]; [reflexivity|]. cbn [take_while drop_while].
  destruct (is_digit c); [|reflexivity].
  cbn [rest caps prev last_char].
  rewrite (taken_eq _ (String c (take_while is_digit s1))
             (drop_while is_digit s1))
    by (simpl; now rewrite take_drop).
  reflexivity.
Qed.

Lemma match_day_number (pv : option ascii) (i : nat) (s : string) :
  match search_from plain day_number pv i s with
  | Some m => find_day s = Some (group 1 m)
  | None => find_day s = None
  end.
Proof.
  revert pv i. induction s as [|c s IH]; intros pv i.
  - reflexivity.
  - cbn [search_from find_day]. unfold match_here.
    rewrite exec_day_number.
    destruct (read_day (String c s)) as [ds|] eqn:E.
    + unfold read_day in E.
      destruct (strip_prefix "day-" (String c s)); [|discriminate].
      reflexivity.
    + apply IH.
Qed.

Lemma read_day_iff (s ds : string) :
  read_day s = Some ds <->
  exists post, s = "day-" ++ ds ++ post /\ ds <> "" /\
               all is_digit ds = true /\ stops is_digit post.
Proof.
  unfold read_day. split.
  - destruct (strip_prefix "day-" s) as [s1|] eqn:E; [|discriminate].
    apply strip_prefix_inv in E. subst s.
    pose proof (take_drop is_digit s1) as Htd.
    pose proof (all_take_while is_digit s1) as Hall.
    pose proof (stops_drop_while is_digit s1) as Hstop.
    destruct (take_while is_digit s1) as [|d t]; [discriminate|].
    intros H. injection H as <-.
    exists (drop_while is_digit s1). rewrite Htd.
    repeat split; auto. discriminate.
  - intros (post & -> & Hne & Hall & Hstop).
    rewrite strip_prefix_app, (take_while_app is_digit ds post Hall Hstop).
    destruct ds; [congruence | reflexivity].
Qed.

Lemma read_day_none (s : string) : read_day s = None <-> ~ day_digit s.
Proof.
  split.
  - intros H (d & s' & -> & Hd). unfold read_day in H.
    rewrite strip_prefix_app in H. cbn [take_while] in H.
    rewrite Hd in H. discriminate.
  - intros H. destruct (read_day s) as [ds|] eqn:E; [|reflexivity].
    apply read_day_iff in E as (post & -> & Hne & Hall & _).
    destruct ds as [|d ds]; [congruence|]. cbn [all] in Hall.
    apply andb_true_iff in Hall as [Hd _].
    destruct H. exists d, (ds ++ post). auto.
Qed.

Lemma find_day_iff (f ds : string) :
  find_day f = Some ds <->
  exists pre post,
    f = pre ++ "day-" ++ ds ++ post /\
    ds <> "" /\ all is_digit ds = true /\ stops is_digit post /\
    (forall a b, pre = a ++ b -> b <> "" ->
       ~ day_digit (b ++ "day-" ++ ds ++ post)).
Proof.
  split.
  - induction f as [|c f IH]; cbn [find_day].
    + destruct (read_day "") eqn:E; [|discriminate].
      unfold read_day in E. discriminate.
    + destruct (read_day (String c f)) as [ds'|] eqn:E.
      * intros H. injection H as ->.
        apply read_day_iff in E as (post & E & H1 & H2 & H3).
        exists "", post. repeat split; auto.
        intros a b Hab Hb. destruct a, b; discriminate || congruence.
      * intros H. destruct (IH H) as (pre & post & -> & H1 & H2 & H3 & H4).
        exists (String c pre), post. repeat split; auto.
        intros a b Hab Hb. destruct a as [|x a]; simpl in Hab.
        -- subst b. apply (proj1 (read_day_none _)). exact E.
        -- injection Hab as -> ->. now apply (H4 a b).
  - intros (pre & post & -> & H1 & H2 & H3 & H4).
    induction pre as [|c pre IH].
    + assert (E : read_day ("day-" ++ ds ++ post) = Some ds)
        by (apply read_day_iff; eauto).
      cbn [append] in *. cbn [find_day]. now rewrite E.
    + cbn [append find_day].
      assert (E : read_day (String c pre ++ "day-" ++ ds ++ post) = None).
      { apply (proj2 (read_day_none _)).
        apply (H4 "" (String c pre)); [reflexivity | discriminate]. }
      cbn [append] in E. rewrite E. apply IH.
      intros a b -> Hb. now apply (H4 (String c a) b).
Qed.

Lemma number_of_iff (file : string) (n : N) :
  number_of file = Some n <-> numbered file n.
Proof.
  unfold number_of, numbered, conventional. split.
  - destruct (startsWith file "day-"); [|discriminate].
    destruct (endsWith file ".html"); [|discriminate]. cbn [andb].
    destruct (find_day file) as [ds|] eqn:E; [|discriminate].
    intros H. injection H as <-.
    apply find_day_iff in E as (pre & post & E & H1 & H2 & H3 & H4).
    repeat split. exists pre, ds, post. repeat split; auto.
  - intros (-> & -> & pre & ds & post & E & H1 & H2 & H3 & H4 & ->).
    cbn [andb].
    assert (Hf : find_day file = Some ds) by (apply find_day_iff; eauto 10).
    now rewrite Hf.
Qed.

(** The loop body keeps the larger of the number so far and the number
    of the file, as doubles. *)
Lemma larger_eq (maxNum : number) (file : string) :
  larger maxNum file =
  match find_day file with
  | Some ds => if gtb (parseInt ds) maxNum then parseInt ds else maxNum
  | None => maxNum
  end.
Proof.
  unfold larger, re_match.
  pose proof (match_day_number None 0 file) as H.
  destruct (search_from plain day_number None 0 file) as [m|]; rewrite H;
    reflexivity.
Qed.

(** The loop ends with the largest of the rounded numbers. *)
Lemma fold_larger (names : list string) (start : number) :
  let top := fold_left larger (filter conventional names) start in
  gtb start top = false /\
  (forall f n, In f names -> number_of f = Some n ->
     gtb (nearest n) top = false) /\
  (top = start \/
   exists f n, In f names /\ number_of f = Some n /\ top = nearest n).
Proof.
  revert start. induction names as [|f names IH]; intros start; cbn zeta.
  - cbn. split; [apply gtb_refl|]. split; [intros f n []|now left].
  - cbn [filter]. destruct (conventional f) eqn:Ec.
    + cbn [fold_left]. rewrite larger_eq.
      assert (Hf : number_of f =
                   match find_day f with
                   | Some ds => Some (mathInt ds)
                   | None => None
                   end) by (unfold number_of; now rewrite Ec).
      destruct (find_day f) as [ds|].
      * unfold parseInt.
        destruct (gtb (nearest (mathInt ds)) start) eqn:Eg.
        -- destruct (IH (nearest (mathInt ds))) as (H1 & H2 & H3).
           split; [|split].
           ++ apply gtb_trans with (nearest (mathInt ds)); [|exact H1].
              now apply gtb_asym.
           ++ intros g n [<-|Hg] Hn; [|eauto].
              rewrite Hf in Hn. injection Hn as <-. exact H1.
           ++ right. destruct H3 as [H3|(g & n & Hg & Hn & H3)].
              ** exists f, (mathInt ds). split; [now left|]. now split.
              ** exists g, n. split; [now right|]. now split.
        -- destruct (IH start) as (H1 & H2 & H3).
           split; [exact H1|]. split.
           ++ intros g n [<-|Hg] Hn; [|eauto].
              rewrite Hf in Hn. injection Hn as <-.
              now apply gtb_trans with start.
           ++ destruct H3 as [H3|(g & n & Hg & Hn & H3)]; [now left|].
              right. exists g, n. split; [now right|]. now split.
      * destruct (IH start) as (H1 & H2 & H3).
        split; [exact H1|]. split.
        -- intros g n [<-|Hg] Hn; [|eauto]. rewrite Hf in Hn. discriminate.
        -- destruct H3 as [H3|(g & n & Hg & Hn & H3)]; [now left|].
           right. exists g, n. split; [now right|]. now split.
    + destruct (IH start) as (H1 & H2 & H3).
      split; [exact H1|]. split.
      * intros g n [<-|Hg] Hn; [|eauto].
        unfold number_of in Hn. rewrite Ec in Hn. discriminate.
      * destruct H3 as [H3|(g & n & Hg & Hn & H3)]; [now left|].
        right. exists g, n. split; [now right|]. now split.
Qed.

(** When the loop ends below 2^53, nothing was rounded: it ends with the
    largest of the numbers. *)
Lemma fold_larger_small (names : list string) (t : N) :
  fold_left larger (filter conventional names) (Finite 0) = Finite t ->
  (t < exact_below)%N ->
  (forall f n, In f names -> number_of f = Some n -> (n <= t)%N) /\
  (t = 0%N \/ exists f, In f names /\ number_of f = Some t).
Proof.
  intros E Ht. destruct (fold_larger names (Finite 0)) as (_ & Hub & Hatt).
  cbn zeta in Hub, Hatt. rewrite E in Hub, Hatt. split.
  - intros f n Hf Hn. pose proof (Hub f n Hf Hn) as H.
    destruct (nearest n) as [k|] eqn:Ek; [|discriminate H].
    apply gtb_finite in H.
    assert (n = k) by (apply nearest_small; [exact Ek | lia]). lia.
  - destruct Hatt as [H|(f & n & Hf & Hn & H)].
    + left. now injection H.
    + right. exists f. split; [exact Hf|].
      symmetry in H. apply nearest_small in H; [|exact Ht]. now subst.
Qed.

(** On a listing with numbers below 2^53 the loop ends below 2^53. *)
Lemma fold_larger_exact (names : list string) :
  (forall f n, In f names -> number_of f = Some n -> (n < exact_below)%N) ->
  exists t,
    fold_left larger (filter conventional names) (Finite 0) = Finite t /\
    (t < exact_below)%N.
Proof.
  intros Hb. destruct (fold_larger names (Finite 0)) as (_ & _ & Hatt).
  cbn zeta in Hatt. destruct Hatt as [->|(f & n & Hf & Hn & ->)].
  - exists 0%N. split; [reflexivity | reflexivity].
  - exists n. pose proof (Hb f n Hf Hn). split; [|assumption].
    now apply nearest_exact.
Qed.

(** Decimal notation: a further digit multiplies by ten and adds. *)
Lemma mathInt_snoc (ds : string) (d : ascii) :
  mathInt (ds ++ String d "")
  = (10 * mathInt ds + N.of_nat (code d - 48))%N.
Proof.
  unfold mathInt.
  assert (H : list_ascii_of_string (ds ++ String d "")
              = (list_ascii_of_string ds ++ [d])%list).
  { induction ds as [|c ds IH]; cbn; [reflexivity | now rewrite IH]. }
  rewrite H, fold_left_app. reflexivity.
Qed.

Lemma endsWith_app (a p : string) : endsWith (a ++ p) p = true.
Proof.
  induction a as [|c a IH]; cbn [append].
  - destruct p; cbn [endsWith]; now rewrite String.eqb_refl.
  - cbn [endsWith]. now rewrite IH, orb_true_r.
Qed.

(** A name that begins with [day-] and a number, and ends with [.html],
    has that number. *)
Lemma prefixed_name_number (ds post : string) :
  ds <> "" -> all is_digit ds = true -> stops is_digit post ->
  endsWith ("day-" ++ ds ++ post) ".html" = true ->
  number_of ("day-" ++ ds ++ post) = Some (mathInt ds).
Proof.
  intros H2 H3 H4 He.
  set (f := "day-" ++ ds ++ post).
  assert (Hs : startsWith f "day-" = true)
    by (apply prefix_iff; eexists; reflexivity).
  assert (Hf : find_day f = Some ds).
  { apply find_day_iff. exists "", post.
    split; [reflexivity|].
    repeat split; auto.
    intros a b Hab Hb. destruct a, b; discriminate || congruence. }
  unfold number_of, conventional. fold f in He.
  now rewrite Hs, He, Hf.
Qed.

(** The names [generateFilename] makes from a numbered label follow the
    convention, with the number of the label. *)
Lemma generated_name_numbered (now : N) (title pre ds post : string) :
  all non_digit pre = true -> ds <> "" -> all is_digit ds = true ->
  stops is_digit post ->
  numbered (generateFilename now title (Some (pre ++ ds ++ post)))
           (mathInt ds).
Proof.
  intros H1 H2 H3 H4.
  rewrite (filename_of_numbered_label now title pre ds post H1 H2 H3 H4).
  apply number_of_iff. apply prefixed_name_number; auto; [reflexivity|].
  replace ("day-" ++ ds ++ "-" ++ slugify title ++ ".html")
    with (("day-" ++ ds ++ "-" ++ slugify title) ++ ".html")
    by (rewrite !app_assoc; reflexivity).
  apply endsWith_app.
Qed.

Section Paths.
Variable path_join : string -> string -> string.

(** C9, amended.  When the projects directory lists [names], the call
    returns a number and leaves the world as it was; when the numbers
    of the files are below 2^53, it is one more than the largest number
    of a file that follows the naming convention, and 1 when no file
    follows it.  It is 1 too when the directory cannot be read.  A name
    [day-<digits>...] that ends with [.html] follows the convention with
    the number its digits denote, and with no other number. *)
Theorem getNextProjectNumber_spec (portfolioPath : string) (w : world) :
  (dirs w (path_join portfolioPath "projects") = None ->
   getNextProjectNumber path_join portfolioPath w = (Return (Finite 1), w)) /\
  (forall names,
     dirs w (path_join portfolioPath "projects") = Some names ->
     exists next,
       getNextProjectNumber path_join portfolioPath w = (Return next, w) /\
       (exact names -> one_more_than_largest names next)) /\
  (forall ds post n,
     ds <> "" -> all is_digit ds = true -> stops is_digit post ->
     endsWith ("day-" ++ ds ++ post) ".html" = true ->
     (numbered ("day-" ++ ds ++ post) n <-> n = mathInt ds)).
Proof.
  unfold getNextProjectNumber, try_catch, bind, readdir, ret.
  split; [|split].
  - intros ->. reflexivity.
  - intros names ->. eexists. split; [reflexivity|].
    intros Hex.
    change (fun f : string => startsWith f "day-" && endsWith f ".html")
      with conventional.
    destruct (fold_larger_exact names) as (t & Et & Ht).
    { intros f n Hf Hn. apply (Hex f n Hf). now apply number_of_iff. }
    rewrite Et. cbn [add]. rewrite (nearest_succ t Ht).
    destruct (fold_larger_small names t Et Ht) as (Hub & Hatt).
    split.
    + intros top (f & Hf & Hn) Hmax. f_equal.
      apply number_of_iff in Hn. pose proof (Hub f top Hf Hn).
      destruct Hatt as [->|(g & Hg & Hgn)]; [lia|].
      apply number_of_iff in Hgn. pose proof (Hmax g t Hg Hgn). lia.
    + intros Hnone. destruct Hatt as [->|(g & Hg & Hgn)]; [reflexivity|].
      apply number_of_iff in Hgn. now destruct (Hnone g t Hg).
  - intros ds post n H1 H2 H3 H4.
    rewrite <- number_of_iff, (prefixed_name_number ds post H1 H2 H3 H4).
    split; [intros H; now injection H | now intros ->].
Qed.

End Paths.

Lemma getNextProjectNumber_spec_witness :
  let join := fun a b => a ++ "/" ++ b in
  let names := ["day-1-a.html"; "day-12-b.html"; "index.html"; "day-30.txt"] in
  let w := World (fun _ => None)
                 (fun p => if String.eqb p "site/projects" then Some names
                           else None)
                 [] in
  getNextProjectNumber join "site" w = (Return (Finite 13), w) /\
  getNextProjectNumber join "elsewhere" w = (Return (Finite 1), w).
Proof.
  intros join names w.
  destruct (getNextProjectNumber_spec join "site" w) as (_ & H & _).
  destruct (getNextProjectNumber_spec join "elsewhere" w) as (H0 & _).
  split; [|exact (H0 eq_refl)].
  destruct (H names eq_refl) as (next & -> & Hnext).
  assert (Hn : forall f n, In f names -> numbered f n ->
                 f = "day-12-b.html" /\ n = 12%N \/ (n < 12)%N).
  { intros f n Hf Hn. apply number_of_iff in Hn.
    destruct Hf as [<-|[<-|[<-|[<-|[]]]]]; cbv in Hn;
      try discriminate Hn; injection Hn as <-; [right|left]; auto.
    reflexivity. }
  destruct Hnext as [Hmax _].
  - intros f n Hf Hfn.
    destruct (Hn f n Hf Hfn) as [[_ ->]|Hlt]; [reflexivity|].
    unfold exact_below. lia.
  - rewrite (Hmax 12%N); [reflexivity | |].
    + exists "day-12-b.html". split; [right; left; reflexivity|].
      now apply number_of_iff.
    + intros f n Hf Hfn.
      destruct (Hn f n Hf Hfn) as [[_ ->]|Hlt]; lia.
Defined.

(** A number from 2^53 on is rounded when it is read: the next number
    after 9007199254740993 is 9007199254740992. *)
Lemma getNextProjectNumber_rounds :
  let join := fun a b => a ++ "/" ++ b in
  let names := ["day-9007199254740993-big.html"; "day-2.html"] in
  let w := World (fun _ => None)
                 (fun p => if String.eqb p "site/projects" then Some names
                           else None)
                 [] in
  getNextProjectNumber join "site" w
  = (Return (Finite 9007199254740992), w) /\
  ~ one_more_than_largest names (Finite 9007199254740992).
Proof.
  intros join names w. split; [vm_compute; reflexivity|].
  intros [H _].
  assert (E : Finite 9007199254740992 = Finite (9007199254740993 + 1)).
  { apply H.
    - exists "day-9007199254740993-big.html". split; [now left|].
      now apply number_of_iff.
    - intros f n Hf Hn. apply number_of_iff in Hn.
      destruct Hf as [<-|[<-|[]]]; vm_compute in Hn; injection Hn as <-;
        lia. }
  discriminate E.
Qed.

End NumberFacts.



(** ** detectTechStack *)

Module TechFacts.
Import StrFacts GithubFetcher TechSpec.

(** *** Lookups *)

Lemma existsb_eqb_false (x : string) (l : list string) :
  existsb (String.eqb x) l = false <-> ~ In x l.
Proof.
  induction l as [|y l IH]; cbn [existsb In]; [tauto|].
  rewrite orb_false_iff, IH, String.eqb_neq. intuition congruence.
Qed.

(** A key that names no inherited property finds what the table holds
    for it, and nothing else. *)
Lemma inherited_none (k : string) :
  ~ In k object_members -> inherited k = None.
Proof.
  intros H. unfold inherited.
  assert (Hk : forall m, In m object_members -> String.eqb k m = false).
  { intros m Hm. apply String.eqb_neq. intros ->. contradiction. }
  rewrite (Hk "constructor") by (cbn; tauto).
  rewrite (Hk "__proto__") by (cbn; tauto).
  assert (Hm : existsb (String.eqb k) methods = false).
  { apply existsb_eqb_false. intros Hin. apply H.
    right. right. exact Hin. }
  now rewrite Hm.
Qed.

Lemma at_plain (k : string) :
  inherited k = None ->
  techMappings_at k = option_map Mapped (get techMappings k).
Proof.
  intros H. unfold techMappings_at. rewrite H.
  now destruct (get techMappings k).
Qed.

Lemma get_In {A} (obj : list (string * A)) (k : string) (v : A) :
  get obj k = Some v -> In (k, v) obj.
Proof.
  induction obj as [|[k' v'] obj IH]; cbn [get]; [discriminate|].
  destruct (String.eqb_spec k' k) as [->|].
  - intros H. injection H as ->. now left.
  - intros H. right. auto.
Qed.

Lemma assoc_get {A} (table : list (string * A)) (k : string) :
  assoc table k = get table k.
Proof.
  unfold assoc. induction table as [|[k' v] table IH]; [reflexivity|].
  cbn [find get fst]. destruct (String.eqb k' k); [reflexivity | exact IH].
Qed.

Lemma get_map {A B} (f : A -> B) (table : list (string * A)) (k : string) :
  get (map (fun e => (fst e, f (snd e))) table) k
  = option_map f (get table k).
Proof.
  induction table as [|[k' v] table IH]; [reflexivity|].
  cbn [map get fst snd]. destruct (String.eqb k' k); [reflexivity | exact IH].
Qed.

(** The table of the names is the table of the detector, read by name. *)
Lemma display_name_eq (k : string) :
  assoc display_names k = option_map name (get techMappings k).
Proof.
  rewrite assoc_get, <- get_map. reflexivity.
Qed.

Lemma known_names_eq (keys : list string) :
  known_names keys = map name (mapped keys).
Proof.
  unfold known_names, mapped.
  induction keys as [|k keys IH]; [reflexivity|].
  cbn [flat_map]. rewrite map_app, IH, display_name_eq.
  now destruct (get techMappings k).
Qed.

Lemma mapped_app (a b : list string) :
  mapped (a ++ b) = (mapped a ++ mapped b)%list.
Proof. apply flat_map_app. Qed.

(** *** The loops *)

Lemma listed_mapped (st : list badge) (b : badge) :
  listed (map Mapped st) (Mapped b)
  = Return (existsb (String.eqb (lname b)) (map lname st)).
Proof.
  induction st as [|t st IH]; [reflexivity|].
  cbn [map listed lower_name member_name and_then existsb].
  fold (lname t). fold (lname b). rewrite (String.eqb_sym (lname b)).
  destruct (String.eqb (lname t) (lname b)); [reflexivity | exact IH].
Qed.

(** The guarded pushes of a loop put the first occurrences of the names
    not yet listed after the stack. *)
Lemma for_add_key (keys : list string) (st : list badge) :
  Forall (fun k => inherited k = None) keys ->
  for_of keys add_key (map Mapped st)
  = Return (map Mapped
              (st ++ first_badges (map lname st) (mapped keys))%list).
Proof.
  intros H. revert st. induction H as [|k keys Hk _ IH]; intros st.
  - cbn. now rewrite List.app_nil_r.
  - cbn [for_of]. unfold add_key at 1. rewrite (at_plain k Hk).
    unfold mapped. cbn [flat_map]. fold (mapped keys).
    destruct (get techMappings k) as [b|]; cbn [option_map and_then].
    + rewrite listed_mapped. cbn [and_then List.app first_badges].
      destruct (existsb (String.eqb (lname b)) (map lname st)) eqn:E;
        cbn [negb].
      * apply IH.
      * change [Mapped b] with (map Mapped [b]). rewrite <- map_app, IH.
        rewrite (map_app lname), <- List.app_assoc. reflexivity.
    + apply IH.
Qed.

Lemma for_of_map {A B S} (f : A -> B) (body : S -> B -> outcome S)
    (l : list A) (s : S) :
  for_of l (fun s x => body s (f x)) s = for_of (map f l) body s.
Proof.
  revert s. induction l as [|x l IH]; intros s; [reflexivity|].
  cbn [for_of map]. destruct (body s (f x)); cbn [and_then]; auto.
Qed.

Lemma for_of_selected (present : string -> bool)
    (step : list member -> string * string -> outcome (list member))
    (table : list (string * string)) (techStack : list member) :
  (forall st dep key,
     step st (dep, key) = if present dep then add_key st key else Return st) ->
  for_of table step techStack
  = for_of (selected present table) add_key techStack.
Proof.
  intros Hstep. revert techStack.
  induction table as [|[dep key] l IH]; intros st; [reflexivity|].
  cbn [for_of]. rewrite Hstep. unfold selected. cbn [filter fst].
  destruct (present dep); cbn [map for_of snd and_then].
  - destruct (add_key st key); cbn [and_then]; [apply IH | reflexivity].
  - apply IH.
Qed.

Lemma fold_add_language (keys : list string) (st : list badge) :
  Forall (fun k => inherited k = None) keys ->
  fold_left add_language keys (map Mapped st)
  = map Mapped (st ++ mapped keys)%list.
Proof.
  intros H. revert st. induction H as [|k keys Hk _ IH]; intros st.
  - cbn. now rewrite List.app_nil_r.
  - cbn [fold_left]. unfold add_language at 2. rewrite (at_plain k Hk).
    unfold mapped. cbn [flat_map]. fold (mapped keys).
    destruct (get techMappings k) as [b|]; cbn [option_map].
    + change [Mapped b] with (map Mapped [b]). rewrite <- map_app, IH.
      now rewrite <- List.app_assoc.
    + apply IH.
Qed.

(** *** First occurrences *)

Lemma first_badges_app (seen : list string) (l1 l2 : list badge) :
  first_badges seen (l1 ++ l2)
  = (first_badges seen l1 ++
     first_badges (seen ++ map lname (first_badges seen l1)) l2)%list.
Proof.
  revert seen. induction l1 as [|b l1 IH]; intros seen.
  - cbn. now rewrite List.app_nil_r.
  - cbn [List.app first_badges].
    destruct (existsb (String.eqb (lname b)) seen); [apply IH|].
    cbn [List.app map]. rewrite IH, <- List.app_assoc. reflexivity.
Qed.

(** The names of the first occurrences are new and pairwise distinct. *)
Lemma first_badges_nodup (seen : list string) (l : list badge) :
  NoDup seen -> NoDup (seen ++ map lname (first_badges seen l)).
Proof.
  revert seen. induction l as [|b l IH]; intros seen Hs.
  - cbn. now rewrite List.app_nil_r.
  - cbn [first_badges].
    destruct (existsb (String.eqb (lname b)) seen) eqn:E; [now apply IH|].
    cbn [map].
    change (lname b :: map lname (first_badges (seen ++ [lname b]) l))
      with ([lname b] ++ map lname (first_badges (seen ++ [lname b]) l))%list.
    rewrite List.app_assoc. apply IH.
    apply NoDup_app; [exact Hs | repeat constructor; intros [] |].
    intros x Hx [<-|[]]. apply existsb_eqb_false in E. contradiction.
Qed.

(** A list with distinct new names is its own list of first occurrences. *)
Lemma first_badges_id (seen : list string) (l : list badge) :
  NoDup (seen ++ map lname l) -> first_badges seen l = l.
Proof.
  revert seen. induction l as [|b l IH]; intros seen H; [reflexivity|].
  cbn [first_badges map] in *.
  assert (E : existsb (String.eqb (lname b)) seen = false).
  { apply existsb_eqb_false. intros Hin.
    apply NoDup_remove_2 in H. apply H. apply in_or_app. now left. }
  rewrite E. f_equal. apply IH.
  change (lname b :: map lname l) with ([lname b] ++ map lname l)%list in H.
  now rewrite List.app_assoc in H.
Qed.

Lemma first_badges_incl (seen : list string) (l : list badge) :
  incl (first_badges seen l) l.
Proof.
  revert seen. induction l as [|b l IH]; intros seen; [intros x []|].
  cbn [first_badges]. destruct (existsb _ seen).
  - intros x Hx. right. exact (IH _ x Hx).
  - intros x [<-|Hx]; [now left|]. right. exact (IH _ x Hx).
Qed.

(** The first badges, by name, are the first occurrences of the names. *)
Lemma first_badges_names (seen : list string) (l : list badge) :
  map name (first_badges seen l) = first_from seen (map name l).
Proof.
  revert seen. induction l as [|b l IH]; intros seen; [reflexivity|].
  cbn [first_badges map first_from]. fold (lname b).
  destruct (existsb (String.eqb (lname b)) seen); [apply IH|].
  cbn [map]. now rewrite IH.
Qed.

(** *** The table *)

Lemma names_distinct :
  NoDup (map (fun e => lname (snd e)) techMappings).
Proof.
  cbv. repeat constructor; cbn [In];
    repeat (intros [H|H]; [discriminate H|revert H]); intros [].
Qed.

Lemma NoDup_map_eq {A B} (f : A -> B) (l : list A) (x y : A) :
  NoDup (map f l) -> In x l -> In y l -> f x = f y -> x = y.
Proof.
  induction l as [|a l IH]; cbn [map In]; [tauto|].
  intros H [<-|Hx] [<-|Hy] E; auto.
  - apply NoDup_cons_iff in H as [H _]. destruct H. rewrite E.
    now apply in_map.
  - apply NoDup_cons_iff in H as [H _]. destruct H. rewrite <- E.
    now apply in_map.
  - apply NoDup_cons_iff in H as [_ H]. auto.
Qed.

Lemma key_of_name (k1 k2 : string) (b1 b2 : badge) :
  get techMappings k1 = Some b1 -> get techMappings k2 = Some b2 ->
  lname b1 = lname b2 -> k1 = k2.
Proof.
  intros H1 H2 E. apply get_In in H1, H2.
  pose proof (NoDup_map_eq (fun e => lname (snd e)) techMappings
                (k1, b1) (k2, b2) names_distinct H1 H2 E) as H.
  now injection H.
Qed.

Lemma mapped_In (keys : list string) (b : badge) :
  In b (mapped keys) -> exists k, In k keys /\ get techMappings k = Some b.
Proof.
  unfold mapped. rewrite in_flat_map. intros (k & Hk & Hb).
  exists k. split; [exact Hk|].
  destruct (get techMappings k) as [b'|]; [|destruct Hb].
  destruct Hb as [->|[]]. reflexivity.
Qed.

Lemma mapped_nodup (keys : list string) :
  NoDup keys -> NoDup (map lname (mapped keys)).
Proof.
  induction keys as [|k keys IH]; intros H; [constructor|].
  apply NoDup_cons_iff in H as [Hk H]. unfold mapped. cbn [flat_map].
  fold (mapped keys). destruct (get techMappings k) as [b|] eqn:E; [|auto].
  cbn [List.app map]. constructor; [|auto].
  intros Hin. apply in_map_iff in Hin as (b' & Hn & Hb').
  apply mapped_In in Hb' as (k' & Hk' & E').
  rewrite (key_of_name k k' b b' E E' (eq_sym Hn)) in Hk. contradiction.
Qed.

(** *** The keys of the manifests *)

Lemma selected_none (present : string -> bool) (table : list (string * string)) :
  (forall e, In e table -> present (fst e) = false) ->
  selected present table = [].
Proof.
  intros H. unfold selected. induction table as [|e table IH]; [reflexivity|].
  cbn [filter]. rewrite (H e) by now left.
  apply IH. intros e' He'. apply H. now right.
Qed.

Lemma selected_ext (p q : string -> bool) (table : list (string * string)) :
  (forall e, In e table -> p (fst e) = q (fst e)) ->
  selected p table = selected q table.
Proof.
  intros H. unfold selected. f_equal. apply filter_ext_in. exact H.
Qed.

Lemma selected_incl (present : string -> bool)
    (table : list (string * string)) :
  incl (selected present table) (map snd table).
Proof.
  intros k Hk. unfold selected in Hk.
  apply in_map_iff in Hk as (e & <- & He).
  apply filter_In in He as [He _]. now apply in_map.
Qed.

(** The keys of an array and of a string are numerals. *)
Lemma index_digits (n : nat) (s : string) :
  In s (indices n) -> all is_digit s = true.
Proof.
  induction n as [|n IH]; cbn [indices]; [intros []|].
  rewrite in_app_iff. intros [H|[<-|[]]]; [auto|].
  generalize (Nat.to_uint n). intros d. induction d; cbn; auto.
Qed.

Lemma package_not_index (n : nat) (e : string * string) :
  In e depMappings -> existsb (String.eqb (fst e)) (indices n) = false.
Proof.
  intros He. apply existsb_eqb_false. intros Hin.
  apply index_digits in Hin.
  cbn [depMappings In] in He.
  repeat (destruct He as [<-|He]; [discriminate Hin|]). destruct He.
Qed.

Lemma existsb_keys {A} (dep : string) (members : list (string * A)) :
  existsb (String.eqb dep) (map fst members)
  = existsb (fun m => String.eqb (fst m) dep) members.
Proof.
  induction members as [|m l IH]; [reflexivity|].
  cbn [map existsb]. now rewrite IH, String.eqb_sym.
Qed.

(** The loop over the dependencies comes to the keys of the packages
    that the manifest declares. *)
Lemma dependency_scan_eq (rd : repoData) :
  dependency_scan rd = package_keys rd.
Proof.
  unfold dependency_scan, package_keys, declares, dependencies.
  destruct (rd_packageJson rd) as [[| | | | |members]|];
    try reflexivity.
  rewrite assoc_get.
  destruct (get members "dependencies") as [v|]; [|reflexivity].
  destruct v as [|b|n|t|items|deps]; cbn [truthy Object_keys].
  - reflexivity.
  - destruct b; reflexivity.
  - destruct (negb (Z.eqb n 0)); reflexivity.
  - destruct t as [|c t]; [reflexivity|].
    transitivity (@nil string); [|reflexivity].
    apply selected_none. intros e He. now apply package_not_index.
  - transitivity (@nil string); [|reflexivity].
    apply selected_none. intros e He. now apply package_not_index.
  - apply (selected_ext _ (fun dep =>
             existsb (fun m => String.eqb (fst m) dep) deps)).
    intros e _. apply existsb_keys.
Qed.

(** The loop over the requirements comes to the keys of the packages
    that the text holds. *)
Lemma requirement_scan_eq (rd : repoData) :
  requirement_scan rd = requirement_keys rd.
Proof.
  unfold requirement_scan, requirement_keys, requires.
  destruct (rd_requirements rd) as [[|c t]|]; reflexivity.
Qed.

Lemma table_keys_plain :
  Forall (fun k => inherited k = None) (map snd depMappings) /\
  Forall (fun k => inherited k = None) (map snd pyMappings).
Proof. split; repeat constructor. Qed.

Lemma Forall_incl {A} (P : A -> Prop) (l l' : list A) :
  incl l l' -> Forall P l' -> Forall P l.
Proof.
  intros Hi H. rewrite Forall_forall in *. auto.
Qed.

Lemma dependency_scan_plain (rd : repoData) :
  Forall (fun k => inherited k = None) (dependency_scan rd).
Proof.
  unfold dependency_scan.
  destruct (dependencies (rd_packageJson rd)) as [v|]; [|constructor].
  destruct (truthy v); [|constructor].
  apply (Forall_incl _ _ _ (selected_incl _ _)), table_keys_plain.
Qed.

Lemma requirement_scan_plain (rd : repoData) :
  Forall (fun k => inherited k = None) (requirement_scan rd).
Proof.
  unfold requirement_scan.
  destruct (rd_requirements rd) as [[|c t]|]; try constructor.
  apply (Forall_incl _ _ _ (selected_incl _ _)), table_keys_plain.
Qed.

(** *** The stack *)

Lemma add_dependency_eq (deps : list string) (st : list member)
    (dep key : string) :
  add_dependency deps st (dep, key)
  = if existsb (String.eqb dep) deps then add_key st key else Return st.
Proof. reflexivity. Qed.

Lemma add_requirement_eq (reqLower : string) (st : list member)
    (pkg key : string) :
  add_requirement reqLower st (pkg, key)
  = if includes reqLower pkg then add_key st key else Return st.
Proof. reflexivity. Qed.

Lemma first_badges_nil (seen : list string) (st : list badge) :
  (st ++ first_badges seen (mapped []))%list = st.
Proof. cbn. apply List.app_nil_r. Qed.

(** The stack before the cut: the language badges, then the first
    occurrences among the other candidates of the names not yet there. *)
Lemma detectTechStack_eq (rd : repoData) :
  plain_keys rd ->
  detectTechStack rd
  = Return
      (map Mapped
         (firstn 4
            (mapped (language_keys rd) ++
             first_badges (map lname (mapped (language_keys rd)))
               (mapped (topic_keys rd ++ package_keys rd ++
                        requirement_keys rd)))))%list.
Proof.
  intros Hp.
  assert (HpL : Forall (fun k => inherited k = None) (language_keys rd)).
  { apply Forall_forall. intros k Hk. apply inherited_none, Hp.
    apply in_or_app. now left. }
  assert (HpT : Forall (fun k => inherited k = None) (topic_keys rd)).
  { apply Forall_forall. intros k Hk. apply inherited_none, Hp.
    apply in_or_app. now right. }
  rewrite <- dependency_scan_eq, <- requirement_scan_eq.
  pose proof (dependency_scan_plain rd) as HpD.
  pose proof (requirement_scan_plain rd) as HpR.
  unfold detectTechStack.
  set (L := mapped (language_keys rd)).
  assert (H1 : match rd_languages rd with
               | Some languages =>
                   fold_left add_language (firstn 3 (map fst languages)) []
               | None => []
               end = map Mapped L).
  { unfold L, language_keys in *.
    destruct (rd_languages rd); [|reflexivity].
    exact (fold_add_language _ [] HpL). }
  rewrite H1. clear H1.
  assert (H2 : match rd_topics rd with
               | Some topics => for_of topics add_topic (map Mapped L)
               | None => Return (map Mapped L)
               end
               = Return (map Mapped
                   (L ++ first_badges (map lname L)
                           (mapped (topic_keys rd)))%list)).
  { unfold topic_keys in *. destruct (rd_topics rd) as [topics|].
    - unfold add_topic.
      rewrite (for_of_map toLowerCase add_key topics).
      now apply for_add_key.
    - now rewrite first_badges_nil. }
  rewrite H2. clear H2. cbn [and_then].
  set (S2 := (L ++ first_badges (map lname L) (mapped (topic_keys rd)))%list).
  assert (H3 : match dependencies (rd_packageJson rd) with
               | Some v =>
                   if truthy v
                   then for_of depMappings (add_dependency (Object_keys v))
                          (map Mapped S2)
                   else Return (map Mapped S2)
               | None => Return (map Mapped S2)
               end
               = Return (map Mapped
                   (S2 ++ first_badges (map lname S2)
                            (mapped (dependency_scan rd)))%list)).
  { unfold dependency_scan in *.
    destruct (dependencies (rd_packageJson rd)) as [v|];
      [|now rewrite first_badges_nil].
    destruct (truthy v); [|now rewrite first_badges_nil].
    rewrite (for_of_selected
               (fun dep => existsb (String.eqb dep) (Object_keys v)))
      by (intros; apply add_dependency_eq).
    now apply for_add_key. }
  rewrite H3. clear H3. cbn [and_then].
  set (S3 := (S2 ++ first_badges (map lname S2)
                      (mapped (dependency_scan rd)))%list).
  assert (H4 : match rd_requirements rd with
               | Some "" | None => Return (map Mapped S3)
               | Some (String a s0 as requirements) =>
                   for_of pyMappings
                     (add_requirement (toLowerCase requirements))
                     (map Mapped S3)
               end
               = Return (map Mapped
                   (S3 ++ first_badges (map lname S3)
                            (mapped (requirement_scan rd)))%list)).
  { unfold requirement_scan in *.
    destruct (rd_requirements rd) as [[|c req]|];
      [now rewrite first_badges_nil| |now rewrite first_badges_nil].
    rewrite (for_of_selected (includes (toLowerCase (String c req))))
      by (intros; apply add_requirement_eq).
    now apply for_add_key. }
  rewrite H4. clear H4. cbn [and_then]. rewrite firstn_map.
  f_equal. f_equal. f_equal. unfold S3, S2.
  rewrite !mapped_app, !first_badges_app, !map_app, <- !List.app_assoc.
  reflexivity.
Qed.

Lemma NoDup_firstn {A} (n : nat) (l : list A) : NoDup l -> NoDup (firstn n l).
Proof.
  intros H. rewrite <- (firstn_skipn n l) in H.
  now apply NoDup_app_remove_r in H.
Qed.

Lemma firstn_subset {A} (n : nat) (l : list A) : incl (firstn n l) l.
Proof.
  intros x Hx. rewrite <- (firstn_skipn n l). apply in_or_app. now left.
Qed.

(** Whatever the record, what the detector returns has four entries at
    most. *)
Lemma detectTechStack_short (rd : repoData) (stack : list member) :
  detectTechStack rd = Return stack -> List.length stack <= 4.
Proof.
  unfold detectTechStack.
  repeat match goal with
         | |- and_then ?o _ = _ -> _ =>
             destruct o; cbn [and_then]; [|discriminate]
         end.
  intros H. apply (f_equal (fun o => match o with
                                     | Return l => List.length l
                                     | Throw _ => 0
                                     end)) in H.
  rewrite <- H. apply firstn_le_length.
Qed.

(** *** The languages by byte count *)

Lemma sorted_by_bytes (l : list (string * N)) :
  StronglySorted (fun x y => (snd y <= snd x)%N) l ->
  by_decreasing_bytes l = l.
Proof.
  induction 1 as [|x l Hs IH Hx]; [reflexivity|].
  cbn [by_decreasing_bytes fold_right]. fold (by_decreasing_bytes l).
  rewrite IH. destruct l as [|y l']; [reflexivity|].
  cbn [insert_by_bytes]. apply Forall_inv in Hx.
  apply N.leb_le in Hx. now rewrite Hx.
Qed.

Lemma top_languages_listed (rd : repoData) :
  by_bytes rd -> top_languages rd = language_keys rd.
Proof.
  unfold by_bytes, top_languages, language_keys.
  destruct (rd_languages rd) as [l|]; [|reflexivity].
  intros H. now rewrite sorted_by_bytes.
Qed.

Lemma map_Mapped_inj (a b : list badge) :
  map Mapped a = map Mapped b -> a = b.
Proof.
  revert b. induction a as [|x a IH]; intros [|y b] H;
    try discriminate H; [reflexivity|].
  cbn [map] in H. injection H as -> H. f_equal. auto.
Qed.

(** C5, amended.  What the detector returns has at most four entries.
    On a record whose languages and topics name no inherited property,
    it returns badges of its table, no two of them with the same
    display name up to case; by name they are the first four of the
    first occurrences of the candidates in scanning order: the first
    three languages as the record lists them, the topics, the
    dependencies of [package.json], the packages of
    [requirements.txt].  When the record lists its languages by
    decreasing byte count, these are the names the specification
    gives, with the top three languages by byte count. *)
Theorem detectTechStack_spec (rd : repoData) :
  (forall stack, detectTechStack rd = Return stack ->
     List.length stack <= 4) /\
  (keys_distinct rd -> plain_keys rd ->
   exists stack,
     detectTechStack rd = Return (map Mapped stack) /\
     incl stack (map snd techMappings) /\
     NoDup (map lname stack) /\
     map name stack = firstn 4 (first_occurrences (candidates rd)) /\
     (by_bytes rd -> as_stated rd)).
Proof.
  split; [apply detectTechStack_short|].
  intros Hk Hp.
  assert (HL : NoDup (map lname (mapped (language_keys rd)))).
  { unfold keys_distinct, language_keys in *.
    destruct (rd_languages rd) as [languages|]; [|constructor].
    apply mapped_nodup. now apply NoDup_firstn. }
  set (L := mapped (language_keys rd)) in *.
  set (others := mapped (topic_keys rd ++ package_keys rd ++
                         requirement_keys rd)%list).
  set (stack := firstn 4 (L ++ first_badges (map lname L) others)%list).
  assert (Hrun : detectTechStack rd = Return (map Mapped stack))
    by now apply detectTechStack_eq.
  assert (Hin : incl stack (map snd techMappings)).
  { intros b Hb. unfold stack in Hb. apply firstn_subset in Hb.
    assert (Hm : In b L \/ In b others).
    { apply in_app_or in Hb as [Hb|Hb]; [now left|].
      right. exact (first_badges_incl _ _ b Hb). }
    assert (Hk' : exists k, get techMappings k = Some b).
    { destruct Hm as [Hm|Hm]; apply mapped_In in Hm as (k & _ & E); eauto. }
    destruct Hk' as (k & E). apply get_In in E.
    apply in_map_iff. now exists (k, b). }
  assert (Hnd : NoDup (map lname stack)).
  { unfold stack. rewrite <- firstn_map. apply NoDup_firstn.
    rewrite map_app. now apply first_badges_nodup. }
  assert (Hnames : map name stack
                   = firstn 4 (first_occurrences (candidates rd))).
  { unfold stack. rewrite <- firstn_map. f_equal.
    unfold first_occurrences, candidates.
    rewrite known_names_eq, <- first_badges_names.
    rewrite mapped_app. fold L. fold others. f_equal.
    rewrite (first_badges_app [] L).
    rewrite (first_badges_id [] L) by (cbn; auto).
    reflexivity. }
  exists stack. repeat split; auto.
  intros Hb. exists stack. repeat split; auto.
  - unfold stack. apply firstn_le_length.
  - rewrite Hnames. unfold stated, candidates.
    now rewrite top_languages_listed.
Qed.

Lemma plain_keys_check (rd : repoData) :
  forallb (fun k => negb (existsb (String.eqb k) object_members))
          (language_keys rd ++ topic_keys rd) = true ->
  plain_keys rd.
Proof.
  intros H k Hk. rewrite forallb_forall in H. specialize (H k Hk).
  apply negb_true_iff in H. now apply existsb_eqb_false.
Qed.

Lemma detectTechStack_spec_witness :
  let rd :=
    RepoData "demo" "" "https://github.com/o/demo" None
      (Some ["React"; "typescript"; "docker"])
      (Some [("TypeScript", 5000%N); ("JavaScript", 3000%N); ("HTML", 200%N);
             ("CSS", 100%N)])
      None
      (Some (JObj [("dependencies", JObj [("react", JStr "18"); ("next", JStr "14")])]))
      (Some "torch==2.1")
      "2024-01-01" "2024-02-01" 3%N 1%N in
  exists stack,
    detectTechStack rd = Return (map Mapped stack) /\
    NoDup (map lname stack) /\
    map name stack = ["TypeScript"; "JavaScript"; "HTML5"; "React"] /\
    as_stated rd.
Proof.
  intros rd. destruct (detectTechStack_spec rd) as (_ & H).
  assert (Hk : keys_distinct rd).
  { cbv [keys_distinct rd rd_languages map fst].
    repeat constructor; cbn [In];
      repeat (intros [H0|H0]; [discriminate H0|revert H0]); intros []. }
  assert (Hp : plain_keys rd) by (apply plain_keys_check; reflexivity).
  assert (Hb : by_bytes rd).
  { cbv [by_bytes rd rd_languages]. repeat constructor; cbn [snd]; lia. }
  destruct (H Hk Hp) as (stack & E & _ & Hnd & Hn & Hs).
  exists stack. split; [exact E|]. split; [exact Hnd|].
  split; [rewrite Hn; reflexivity | exact (Hs Hb)].
Defined.

(** The detector scans the languages in the order of the record: on a
    record that lists a small language first, the stack is not the one
    of the three largest. *)
Lemma detectTechStack_listing_order :
  ~ as_stated
      (RepoData "demo" "" "https://github.com/o/demo" None None
         (Some [("HTML", 100%N); ("CSS", 200%N); ("Python", 300%N);
                ("JavaScript", 5000%N)])
         None None None "2024-01-01" "2024-02-01" 0%N 0%N).
Proof.
  intros (stack & E & _ & _ & Hn).
  match type of E with
  | detectTechStack ?rd = _ =>
      assert (E' : detectTechStack rd
                   = Return (map Mapped (mapped ["HTML"; "CSS"; "Python"])))
        by (vm_compute; reflexivity)
  end.
  rewrite E' in E.
  assert (E2 : map Mapped (mapped ["HTML"; "CSS"; "Python"])
               = map Mapped stack) by congruence.
  apply map_Mapped_inj in E2. subst stack. vm_compute in Hn.
  discriminate Hn.
Qed.

(** A topic that names an inherited property.  [constructor] puts the
    function [Object] on the stack; [__proto__] finds
    [Object.prototype], which has no name: the comparison of the names
    throws as soon as the stack holds an entry. *)
Lemma detectTechStack_inherited_topic :
  let rd := fun topics =>
    RepoData "demo" "" "https://github.com/o/demo" None (Some topics)
      (Some [("JavaScript", 10%N)]) None None None
      "2024-01-01" "2024-02-01" 0%N 0%N in
  detectTechStack (rd ["constructor"; "react"])
  = Return (map Mapped (mapped ["JavaScript"]) ++ [Builtin "Object"] ++
            map Mapped (mapped ["react"]))%list /\
  detectTechStack (rd ["__proto__"])
  = Throw (Error "Cannot read properties of undefined (reading 'toLowerCase')").
Proof. split; vm_compute; reflexivity. Qed.

End TechFacts.



(** ** fetchRepoData *)

Module FetchFacts.
Import GithubFetcher FetchSpec.

Section Fetch.
Variable base64_decode : string -> string.
Variable JSON_parse : string -> outcome json.

(** C1, amended.  A failure of the metadata lookup or of the language
    lookup propagates to the caller.  When both succeed the call returns
    a record and writes no file; the README, the package manifest and
    the requirements are each absent when their lookup is rejected (or
    has no content, or the manifest does not parse), and decoded
    otherwise. *)
Theorem fetchRepoData_failures (api : octokit) (owner repo : string) (w : world) :
  (forall e, repos_get api owner repo = Throw e ->
     fst (fetchRepoData base64_decode JSON_parse api owner repo w) = Throw e) /\
  (forall info e,
     repos_get api owner repo = Return info ->
     repos_listLanguages api owner repo = Throw e ->
     fst (fetchRepoData base64_decode JSON_parse api owner repo w) = Throw e) /\
  (forall info languages,
     repos_get api owner repo = Return info ->
     repos_listLanguages api owner repo = Return languages ->
     exists data w',
       fetchRepoData base64_decode JSON_parse api owner repo w
       = (Return data, w') /\
       files w' = files w /\
       rd_languages data = Some languages /\
       rd_readme data = text_of base64_decode (repos_getReadme api owner repo) /\
       rd_packageJson data
       = manifest_of base64_decode JSON_parse
           (repos_getContent api owner repo "package.json") /\
       rd_requirements data
       = text_of base64_decode
           (repos_getContent api owner repo "requirements.txt")).
Proof.
  unfold fetchRepoData, bind, try_catch, lift, log, ret, decode_content, throw.
  split; [|split].
  - intros e ->. reflexivity.
  - intros info e -> Hl. cbn.
    destruct (repos_getReadme api owner repo) as [[[t|]]|]; cbn;
    (destruct (repos_getContent api owner repo "package.json") as [[[t1|]]|];
     cbn; [destruct (JSON_parse (base64_decode t1)); cbn| |]);
    (destruct (repos_getContent api owner repo "requirements.txt")
       as [[[t2|]]|]; cbn; rewrite Hl; reflexivity).
  - intros info languages -> Hl. cbn.
    destruct (repos_getReadme api owner repo) as [[[t|]]|]; cbn;
    (destruct (repos_getContent api owner repo "package.json") as [[[t1|]]|];
     cbn; [destruct (JSON_parse (base64_decode t1)); cbn| |]);
    (destruct (repos_getContent api owner repo "requirements.txt")
       as [[[t2|]]|]; cbn; rewrite Hl;
     eexists; eexists; (split; [reflexivity|]); cbn; repeat split;
     reflexivity).
Qed.

End Fetch.

Lemma fetchRepoData_failures_witness :
  fst (fetchRepoData (fun s => s) (fun _ => Return JNull) languages_down
         "o" "demo" empty_world)
  = Throw (Error "Server Error").
Proof.
  destruct (fetchRepoData_failures (fun s => s) (fun _ => Return JNull)
              languages_down "o" "demo" empty_world) as (_ & H & _).
  exact (H sample_info (Error "Server Error") eq_refl eq_refl).
Defined.

(** The language lookup is not guarded: with the repository found and
    the language lookup rejected, no record is returned. *)
Lemma fetchRepoData_languages_fatal :
  ~ only_metadata_fatal (fun s => s) (fun _ => Return JNull) languages_down
      "o" "demo" empty_world.
Proof.
  intros H. destruct (H sample_info eq_refl) as (data & w' & E & _).
  cbv in E. discriminate E.
Qed.

End FetchFacts.



(** ** parseReadme *)

Module ReadmeFacts.
Import StrFacts RegexFacts GithubFetcher ReadmeSpec.

(** C10.  For [null], [undefined] and the empty string the result is the
    object without fields: reading [features], [installation] or
    [description] from it gives [undefined].  Every other README gives
    the object with the three fields. *)
Theorem parseReadme_absent :
  parseReadme None = EmptyObject /\
  parseReadme (Some "") = EmptyObject /\
  get_features EmptyObject = None /\
  get_installation EmptyObject = None /\
  get_description EmptyObject = None /\
  (forall text, text <> "" ->
     exists info,
       parseReadme (Some text) = Fields info /\
       get_features (Fields info) = Some (features info) /\
       get_installation (Fields info) = Some (installation info) /\
       get_description (Fields info) = Some (description info)).
Proof.
  repeat split.
  intros [|c text] H; [congruence|].
  eexists. repeat split.
Qed.

Lemma parseReadme_absent_witness :
  exists info, parseReadme (Some "# Demo") = Fields info /\
               get_features (Fields info) = Some [].
Proof.
  destruct parseReadme_absent as (_ & _ & _ & _ & _ & H).
  destruct (H "# Demo" ltac:(discriminate)) as (info & E & Hf & _).
  exists info. split; [exact E|].
  rewrite Hf. f_equal.
  assert (E' : Fields info = parseReadme (Some "# Demo")) by now symmetry.
  cbv in E'. now injection E' as ->.
Defined.

(** *** The description *)

Lemma match_newline (p : option ascii) (s : string) :
  match_here plain newline p 0 s =
  match s with
  | String c s' =>
      if Ascii.eqb c nl then Some (RMatch 0 (String nl "") [] s') else None
  | "" => None
  end.
Proof.
  unfold match_here, newline. cbn [exec]. unfold one.
  cbn [rest caps prev atom_ok plain ignoreCase].
  destruct s as [|c s']; [reflexivity|].
  destruct (Ascii.eqb_spec c nl) as [->|]; [|reflexivity].
  cbn [rest caps]. now rewrite (taken_eq _ (String nl "") s').
Qed.

Lemma replace_newline (s : string) :
  forall before p,
    replace_all_from plain newline " " before p 0 s = flatten s.
Proof.
  induction s as [|c s IH]; intros before p; [reflexivity|].
  cbn [replace_all_from flatten]. rewrite match_newline.
  destruct (Ascii.eqb c nl).
  - cbn [m_text String.length expand]. simpl append. f_equal. apply IH.
  - f_equal. apply IH.
Qed.

Lemma first_description_find (paragraphs : list string) :
  first_description paragraphs =
  match find (fun para => describes (cleaned para)) paragraphs with
  | Some para => slice0 500 (flatten (cleaned para))
  | None => ""
  end.
Proof.
  induction paragraphs as [|para more IH]; [reflexivity|].
  cbn [first_description find].
  destruct (describes (cleaned para)); [|exact IH].
  unfold re_replace_all. now rewrite replace_newline.
Qed.

Lemma substring_length (n : nat) (s : string) :
  String.length (substring 0 n s) <= n.
Proof.
  revert s. induction n as [|n IH]; intros [|c s]; cbn; try lia.
  specialize (IH s). lia.
Qed.

Lemma all_substring (f : ascii -> bool) (n : nat) (s : string) :
  all f s = true -> all f (substring 0 n s) = true.
Proof.
  revert s. induction n as [|n IH]; intros [|c s]; cbn; auto.
  intros H. apply andb_true_iff in H as [-> H]. now apply IH.
Qed.

Lemma flatten_no_newline (s : string) :
  all (fun c => negb (Ascii.eqb c nl)) (flatten s) = true.
Proof.
  induction s as [|c s IH]; [reflexivity|]. cbn [flatten all].
  rewrite IH, andb_true_r. now destruct (Ascii.eqb c nl) eqn:E; [|rewrite E].
Qed.

(** *** Cleaning a paragraph *)

Lemma terminator_is_space (c : ascii) :
  is_space c = false -> is_line_terminator c = false.
Proof.
  destruct c as [b0 b1 b2 b3 b4 b5 b6 b7].
  destruct b0, b1, b2, b3, b4, b5, b6, b7;
    intros H; try reflexivity; discriminate H.
Qed.

(** A paragraph that opens with a heading line loses that line. *)
Lemma cleaned_heading (hashes title body : string) :
  hashes <> "" -> all is_hash hashes = true ->
  title <> "" -> all in_line title = true -> stops is_space title ->
  cleaned (hashes ++ " " ++ title ++ String nl body) = trim body.
Proof.
  intros Hh Hah Ht Hat Hst. unfold cleaned. f_equal.
  destruct hashes as [|h hashes]; [congruence|].
  destruct title as [|t title]; [congruence|].
  cbn [all] in Hah, Hat. cbn [stops] in Hst.
  apply andb_true_iff in Hah as [Hh0 Hah].
  apply andb_true_iff in Hat as [Ht0 Hat].
  set (goal := Some (MState (Some nl) body [])).
  assert (A3 : forall p,
    exec plain (Opt (Lit nl)) Some (MState p (String nl body) []) = goal).
  { intros p. reflexivity. }
  assert (A2 : forall p,
    exec plain (Plus dot >> Opt (Lit nl)) Some
      (MState p (String t (title ++ String nl body)) []) = goal).
  { intros p. rewrite exec_seq.
    assert (Hr : run_end plain dot (Some t) [] (title ++ String nl body)
                 = MState (last_char (Some t) title) (String nl body) [])
      by (apply (run_end_app dot in_line);
          [reflexivity | exact Hat | reflexivity]).
    rewrite plus_commit;
      [rewrite Hr; apply A3 | exact Ht0 | rewrite Hr, A3; discriminate]. }
  assert (A1 : forall p,
    exec plain (Plus ws >> Plus dot >> Opt (Lit nl)) Some
      (MState p (String " " (String t (title ++ String nl body))) []) = goal).
  { intros p. rewrite exec_seq.
    assert (Hr : run_end plain ws (Some " "%char) []
                   (String t (title ++ String nl body))
                 = MState (Some " "%char)
                     (String t (title ++ String nl body)) []).
    { apply (run_end_app ws is_space _ _ "");
        [reflexivity | reflexivity | exact Hst]. }
    rewrite plus_commit;
      [rewrite Hr; apply A2 | reflexivity | rewrite Hr, A2; discriminate]. }
  assert (A0 :
    exec plain heading_line Some
      (MState None
         (String h (hashes ++ String " " (String t (title ++ String nl body))))
         []) = goal).
  { unfold heading_line. rewrite exec_seq, exec_bol. cbn [at_bol prev].
    rewrite exec_seq.
    assert (Hr : run_end plain (Lit "#") (Some h) []
                   (hashes ++ String " " (String t (title ++ String nl body)))
                 = MState (last_char (Some h) hashes)
                     (String " " (String t (title ++ String nl body))) []).
    { apply (run_end_app (Lit "#") is_hash);
        [reflexivity | exact Hah | reflexivity]. }
    rewrite plus_commit;
      [rewrite Hr; apply A1 | exact Hh0 | rewrite Hr, A1; discriminate]. }
  unfold re_replace, re_match. cbn [append].
  rewrite (search_from_here _ _ _ _ _ _ A0). reflexivity.
Qed.

(** A paragraph that does not open with [#] is only trimmed. *)
Lemma cleaned_plain (para : string) :
  stops is_hash para -> cleaned para = trim para.
Proof.
  intros Hs. unfold cleaned. f_equal. unfold re_replace, re_match.
  rewrite search_from_none; [reflexivity|].
  intros a b ->. unfold heading_line. rewrite exec_seq, exec_bol.
  destruct a as [|c a].
  - cbn [append last_char at_bol prev]. cbn [append] in Hs.
    rewrite exec_seq. cbn [exec]. unfold one. cbn [rest].
    destruct b as [|x b]; [reflexivity|]. cbn [stops] in Hs.
    unfold is_hash in Hs. cbn [atom_ok plain ignoreCase]. now rewrite Hs.
  - destruct (last_char_some None c a) as [x ->]. reflexivity.
Qed.

Lemma description_found (text : string) :
  text <> "" ->
  exists info,
    parseReadme (Some text) = Fields info /\
    description info = found_description text.
Proof.
  intros H. destruct text as [|c text]; [congruence|].
  eexists. split; [reflexivity|]. cbn [description].
  apply first_description_find.
Qed.

Lemma found_description_short (text : string) :
  String.length (found_description text) <= 500 /\
  all (fun c => negb (Ascii.eqb c nl)) (found_description text) = true.
Proof.
  unfold found_description.
  destruct (find _ _) as [para|]; [|split; [cbn; lia | reflexivity]].
  split; [apply substring_length|].
  apply all_substring, flatten_no_newline.
Qed.

(** C3, amended.  The description of a non-empty README comes from the
    first paragraph, between runs of blank lines, whose cleaned text is
    non-empty, does not start with [#] or a code fence and has more than
    50 code units: it is that cleaned text with every newline turned
    into a space, cut to 500 code units; it is empty when no paragraph
    qualifies.  It has at most 500 code units and no newline.  The
    cleaned text of a paragraph is the paragraph without its leading
    heading line, trimmed: a paragraph that opens with a heading line
    loses that line, a paragraph that does not open with [#] is only
    trimmed. *)
Theorem parseReadme_description :
  (forall text, text <> "" ->
     exists info,
       parseReadme (Some text) = Fields info /\
       description info = found_description text /\
       String.length (description info) <= 500 /\
       all (fun c => negb (Ascii.eqb c nl)) (description info) = true) /\
  (forall hashes title body,
     hashes <> "" -> all is_hash hashes = true ->
     title <> "" -> all in_line title = true -> stops is_space title ->
     cleaned (hashes ++ " " ++ title ++ String nl body) = trim body) /\
  (forall para, stops is_hash para -> cleaned para = trim para).
Proof.
  split; [|split].
  - intros text H. destruct (description_found text H) as (info & E & Hd).
    exists info. split; [exact E|]. split; [exact Hd|].
    rewrite Hd. apply found_description_short.
  - apply cleaned_heading.
  - apply cleaned_plain.
Qed.

Lemma parseReadme_description_witness :
  (exists info,
     parseReadme (Some titled_readme) = Fields info /\
     description info
     = "This tool converts markdown files into static pages very quickly.") /\
  cleaned "## Usage
Run it." = "Run it." /\
  cleaned "  Run it.  " = "Run it.".
Proof.
  destruct parseReadme_description as (H1 & H2 & H3).
  split; [|split].
  - destruct (H1 titled_readme ltac:(discriminate)) as (info & E & Hd & _).
    exists info. split; [exact E|]. rewrite Hd. reflexivity.
  - exact (H2 "##" "Usage" "Run it." ltac:(discriminate) eq_refl
              ltac:(discriminate) eq_refl eq_refl).
  - exact (H3 "  Run it.  " eq_refl).
Defined.

(** The description is not that of the statement: the paragraph of
    [titled_readme] that opens with the title line is taken, without the
    title. *)
Lemma parseReadme_description_not_as_stated :
  get_description (parseReadme (Some titled_readme))
  = Some "This tool converts markdown files into static pages very quickly."
  /\ stated_description titled_readme = ""
  /\ get_description (parseReadme (Some titled_readme))
     <> Some (stated_description titled_readme).
Proof.
  split; [reflexivity|]. split; [reflexivity|]. discriminate.
Qed.

End ReadmeFacts.



Module FeatureFacts.
Import StrFacts RegexFacts GithubFetcher ReadmeSpec Samples.

(** The list of features never has more than six entries. *)
Lemma features_at_most_six (readme : string) :
  List.length (extract_features readme) <= 6.
Proof.
  unfold extract_features.
  destruct (re_match flag_i features_section readme) as [m|]; [|cbn; lia].
  destruct (re_match_all flag_m bullet_line (group 1 m)) as [bs|]; [|cbn; lia].
  rewrite length_map. apply firstn_le_length.
Qed.

(** A README in which the heading pattern matches nowhere has no
    features, and parsing it does not fail. *)
Lemma features_without_heading (readme : string) :
  re_match flag_i features_section readme = None ->
  extract_features readme = [].
Proof. unfold extract_features. now intros ->. Qed.

(** C4 at a README whose feature list is its last line: the section is
    not recognised, since nothing follows the last bullet, and no
    feature is kept; with a newline after the last bullet the first six
    are. *)
Theorem parseReadme_features_unterminated :
  get_features (parseReadme (Some eight_features)) = Some [] /\
  get_features (parseReadme (Some (eight_features ++ String nl "")))
  = Some ["one"; "two"; "three"; "four"; "five"; "six"].
Proof. split; vm_compute; reflexivity. Qed.

End FeatureFacts.



(** ** updateBrowseHtml *)

Module UpdaterFacts.
Import StrFacts RegexFacts TemplateGenerator BrowseUpdater Samples.

(** Both patterns end with the comment: where one of them succeeds, the
    comment occurs. *)
Lemma insertPattern_marker (st res : mstate) :
  exec plain insertPattern Some st = Some res ->
  exists a b, rest st = a ++ marker ++ b.
Proof.
  unfold insertPattern. rewrite exec_group. intros H.
  do 10 (apply seq_reaches in H as (? & ? & H & ?)).
  apply lit_reaches in H as [b Hb].
  eexists. exists b.
  repeat match goal with E : rest _ = _ ++ rest _ |- _ =>
    rewrite E; clear E end.
  rewrite Hb, <- !app_assoc. reflexivity.
Qed.

Lemma fallbackPattern_marker (st res : mstate) :
  exec plain fallbackPattern Some st = Some res ->
  exists a b, rest st = a ++ marker ++ b.
Proof.
  unfold fallbackPattern. rewrite exec_group. intros H.
  do 4 (apply seq_reaches in H as (? & ? & H & ?)).
  apply lit_reaches in H as [b Hb].
  eexists. exists b.
  repeat match goal with E : rest _ = _ ++ rest _ |- _ =>
    rewrite E; clear E end.
  rewrite Hb, <- !app_assoc. reflexivity.
Qed.

Lemma test_needs_marker (r : regex) (content : string) :
  (forall st res, exec plain r Some st = Some res ->
     exists a b, rest st = a ++ marker ++ b) ->
  includes content marker = false -> re_test plain r content = false.
Proof.
  intros Hr Hm. unfold re_test, re_match.
  destruct (search_from plain r None 0 content) as [m|] eqn:E; [|reflexivity].
  apply search_from_found in E as (a & b & st & -> & Hex & _).
  apply Hr in Hex as (x & y & Hb). cbn [rest] in Hb. subst b.
  assert (H : includes (a ++ x ++ marker ++ y) marker = true).
  { apply includes_iff. exists (a ++ x), y. now rewrite app_assoc. }
  congruence.
Qed.

Section Paths.
Variable path_join : string -> string -> string.

(** When neither pattern matches the page, the call throws and the world
    is left as it was: nothing is written. *)
Lemma updateBrowseHtml_no_match (projectData : projectData)
    (filename portfolioPath content : string) (w : world) :
  files w (path_join portfolioPath "browse.html") = Some content ->
  re_test plain insertPattern content = false ->
  re_test plain fallbackPattern content = false ->
  updateBrowseHtml path_join projectData filename portfolioPath w
  = (Throw (Error "Could not find insertion point in browse.html"), w).
Proof.
  intros Hf H1 H2. unfold updateBrowseHtml, bind, readFile.
  rewrite Hf, H1, H2. reflexivity.
Qed.

(** When the first pattern matches, the page is written once: the text
    in front of the match, the replacement for the match, the text
    after it.  With a card without dollar sign the replacement is the
    card and the closing block. *)
Lemma updateBrowseHtml_match (projectData : projectData)
    (filename portfolioPath content : string) (w : world) (m : rmatch) :
  files w (path_join portfolioPath "browse.html") = Some content ->
  re_match plain insertPattern content = Some m ->
  all (fun c => negb (Ascii.eqb c "$"))
      (generateProjectCard projectData filename) = true ->
  exists w',
    updateBrowseHtml path_join projectData filename portfolioPath w
    = (Return tt, w') /\
    files w' (path_join portfolioPath "browse.html")
    = Some (substring 0 (m_index m) content ++
            generateProjectCard projectData filename ++ closing ++
            m_after m) /\
    (forall p, p <> path_join portfolioPath "browse.html" ->
       files w' p = files w p).
Proof.
  intros Hf Hm Hc. unfold updateBrowseHtml.
  set (card := generateProjectCard projectData filename) in *.
  unfold bind, readFile. rewrite Hf. unfold re_test, re_replace.
  rewrite Hm. unfold ret, writeFile, log. cbv beta iota zeta.
  eexists. split; [reflexivity|]. cbn [files]. split.
  - rewrite String.eqb_refl. f_equal. f_equal.
    rewrite expand_plain, app_assoc; [reflexivity|].
    rewrite all_app, Hc. reflexivity.
  - intros p Hp. apply String.eqb_neq in Hp. now rewrite Hp.
Qed.

(** A page without the comment has no anchor. *)
Lemma updateBrowseHtml_no_marker (projectData : projectData)
    (filename portfolioPath content : string) (w : world) :
  files w (path_join portfolioPath "browse.html") = Some content ->
  includes content marker = false ->
  updateBrowseHtml path_join projectData filename portfolioPath w
  = (Throw (Error "Could not find insertion point in browse.html"), w).
Proof.
  intros Hf Hm. apply (updateBrowseHtml_no_match _ _ _ content); auto.
  - apply test_needs_marker; [apply insertPattern_marker | exact Hm].
  - apply test_needs_marker; [apply fallbackPattern_marker | exact Hm].
Qed.

End Paths.

(** C8 at a page in the expected layout: the match is replaced by the
    card and a closing block that lacks the first closing tag of the
    match, so the page loses that tag instead of keeping everything
    around the new card. *)
Theorem updateBrowseHtml_drops_closing_tag :
  let card := generateProjectCard sample_project "day-7-my-app.html" in
  let written := page_before ++ card ++ closing ++ page_after in
  page_anchor = "</div>" ++ closing /\
  (exists w',
     updateBrowseHtml join sample_project "day-7-my-app.html" "site"
       (site gallery_page) = (Return tt, w') /\
     files w' "site/browse.html" = Some written) /\
  written <> page_before ++ card ++ page_anchor ++ page_after.
Proof.
  intros card written. split; [reflexivity|]. split.
  - eexists. split; [vm_compute; reflexivity|]. vm_compute. reflexivity.
  - intros H. apply (f_equal String.length) in H. vm_compute in H.
    discriminate H.
Qed.

End UpdaterFacts.



(** ** gitCommitAndPush *)

Module GitFacts.
Import GitOperations GitSpec.

(** Staging a file sends one [add] and comes to no error, whatever the
    client answers. *)
Lemma stage_sends (git : client) (file : string) (s : session) :
  exists w',
    stage git file s = (Return tt, Session w' (sent s ++ [Add file])%list) /\
    files w' = files (env s) /\ dirs w' = dirs (env s) /\
    console w' =
    (console (env s) ++ [staging_line (git_add git (sent s) file) file])%list.
Proof.
  unfold stage, gtry, gbind, call, say, io, log. cbn [env sent].
  destruct (git_add git (sent s) file) as [[]|e]; cbn;
    eexists; repeat split; reflexivity.
Qed.

Lemma staging_done (git : client) (filename : string) (s : session) :
  exists w',
    for_each ["projects/" ++ filename; "browse.html"] (stage git) s
    = (Return tt, Session w' (staged (sent s) filename)) /\
    files w' = files (env s) /\ dirs w' = dirs (env s) /\
    console w' =
    (console (env s) ++
     [staging_line (git_add git (sent s) ("projects/" ++ filename))
        ("projects/" ++ filename);
      staging_line
        (git_add git (sent s ++ [Add ("projects/" ++ filename)])%list
           "browse.html")
        "browse.html"])%list.
Proof.
  cbn [for_each]. unfold gbind at 1.
  destruct (stage_sends git ("projects/" ++ filename) s)
    as (w1 & -> & Hf1 & Hd1 & Hc1).
  unfold gbind at 1.
  destruct (stage_sends git "browse.html"
              (Session w1 (sent s ++ [Add ("projects/" ++ filename)])%list))
    as (w2 & -> & Hf2 & Hd2 & Hc2).
  cbn [env sent] in *. unfold gret, staged.
  rewrite <- List.app_assoc. cbn [List.app].
  exists w2. repeat split; try congruence.
  rewrite Hc2, Hc1, <- List.app_assoc. reflexivity.
Qed.

Section Client.
Variable simpleGit : string -> client.

(** The whole run, by the answers of the client. *)
Lemma publish_run (repoPath projectTitle filename : string) (s : session) :
  let git := simpleGit repoPath in
  let msg := commit_message projectTitle filename in
  let h2 := staged (sent s) filename in
  let h3 := committed (sent s) projectTitle filename in
  let w2 :=
    printed (env s)
      ["Staging changes...";
       staging_line (git_add git (sent s) ("projects/" ++ filename))
         ("projects/" ++ filename);
       staging_line
         (git_add git (sent s ++ [Add ("projects/" ++ filename)])%list
            "browse.html")
         "browse.html";
       "Creating commit..."] in
  gitCommitAndPush simpleGit repoPath projectTitle filename s =
  match git_commit git h2 msg with
  | Throw e => (Throw e, Session w2 h3)
  | Return _ =>
      match git_push git h3 "origin" "main" with
      | Return _ =>
          (Return tt,
           Session (printed w2 ["Pushing to remote...";
                                "Successfully pushed to origin/main"])
                   (h3 ++ [push_main])%list)
      | Throw _ =>
          match git_push git (h3 ++ [push_main])%list "origin" "master" with
          | Return _ =>
              (Return tt,
               Session (printed w2 ["Pushing to remote...";
                                    "Successfully pushed to origin/master"])
                       (h3 ++ [push_main; push_master])%list)
          | Throw e2 =>
              (Throw e2,
               Session (printed w2
                          ["Pushing to remote...";
                           "Failed to push. You may need to push manually."])
                       (h3 ++ [push_main; push_master])%list)
          end
      end
  end.
Proof.
  intros git msg h2 h3 w2. unfold push_main, push_master.
  unfold gitCommitAndPush. fold git. fold msg.
  unfold gbind at 1. unfold say at 1, io, log. cbn [env sent].
  unfold gbind at 1.
  destruct (staging_done git filename
              (Session (World (files (env s)) (dirs (env s))
                          (console (env s) ++ ["Staging changes..."])%list)
                       (sent s)))
    as (w1 & -> & Hf & Hd & Hc).
  cbn [env sent files dirs console] in *.
  assert (Hw : World (files w1) (dirs w1)
                 (console w1 ++ ["Creating commit..."])%list = w2).
  { unfold w2, printed. rewrite Hf, Hd, Hc, <- !List.app_assoc. reflexivity. }
  unfold gbind at 1. unfold say at 1, io, log. cbn [env sent]. rewrite Hw.
  unfold gbind at 1. unfold call at 1. cbn [env sent].
  fold h2. change (h2 ++ [Commit msg])%list with h3.
  destruct (git_commit git h2 msg) as [[]|e]; [|reflexivity].
  unfold gbind at 1. unfold say at 1, io, log. cbn [env sent].
  unfold gtry at 1. unfold gbind at 1. unfold call at 1. cbn [env sent].
  destruct (git_push git h3 "origin" "main") as [[]|e1].
  - unfold say, io, log. cbn [env sent files dirs console]. unfold printed.
    cbn [files dirs console]. rewrite <- List.app_assoc. reflexivity.
  - unfold gtry at 1. unfold gbind at 1. unfold call at 1. cbn [env sent].
    rewrite <- List.app_assoc. cbn [List.app].
    destruct (git_push git (h3 ++ [Push "origin" "main"])%list "origin" "master")
      as [[]|e2].
    + unfold say, io, log. cbn [env sent files dirs console]. unfold printed.
      cbn [files dirs console]. rewrite <- List.app_assoc. reflexivity.
    + unfold gbind, say, io, log, gthrow.
      cbn [env sent files dirs console]. unfold printed.
      cbn [files dirs console]. rewrite <- List.app_assoc. reflexivity.
Qed.

Lemma last_line_printed (w : world) (lines : list string) (line : string) :
  last_line (printed w (lines ++ [line])) = line.
Proof.
  unfold last_line, printed. cbn [console].
  rewrite List.app_assoc. apply last_last.
Qed.

(** X1.  A publication always stages the page and the gallery, in this
    order, and then sends the commit, whatever the client answers to the
    staging: a file that cannot be staged costs a warning line and
    nothing else.  After the commit nothing is sent but the push to
    [main] and, after it, the push to [master].  No file is written. *)
Theorem gitCommitAndPush_always_commits
    (repoPath projectTitle filename : string) (s : session) :
  let git := simpleGit repoPath in
  exists o s' more lines,
    gitCommitAndPush simpleGit repoPath projectTitle filename s = (o, s') /\
    sent s' = (committed (sent s) projectTitle filename ++ more)%list /\
    (more = [] \/ more = [push_main] \/ more = [push_main; push_master]) /\
    console (env s') =
    (console (env s) ++
     ["Staging changes...";
      staging_line (git_add git (sent s) ("projects/" ++ filename))
        ("projects/" ++ filename);
      staging_line
        (git_add git (sent s ++ [Add ("projects/" ++ filename)])%list
           "browse.html")
        "browse.html";
      "Creating commit..."] ++ lines)%list /\
    files (env s') = files (env s) /\ dirs (env s') = dirs (env s).
Proof.
  intros git. rewrite publish_run. fold git.
  destruct (git_commit git _ _) as [[]|e].
  - destruct (git_push git _ "origin" "main") as [[]|e1];
      [|destruct (git_push git _ "origin" "master") as [[]|e2]];
      do 2 eexists; eexists; eexists;
      (split; [reflexivity|]); cbn [sent env printed console files dirs];
      (split; [reflexivity|]);
      (split; [auto|]);
      (split; [rewrite <- !List.app_assoc; reflexivity | auto]).
  - do 2 eexists. exists [], [].
    split; [reflexivity|]. cbn [sent env printed console files dirs].
    split; [now rewrite List.app_nil_r|].
    split; [auto|]. split; [reflexivity | auto].
Qed.

(** X2.  When the commit is rejected the publication is rejected with
    the error of the commit, and nothing is pushed: the commit is the
    last command sent. *)
Theorem gitCommitAndPush_commit_rejected
    (repoPath projectTitle filename : string) (s : session) (e : exn) :
  git_commit (simpleGit repoPath) (staged (sent s) filename)
    (commit_message projectTitle filename) = Throw e ->
  exists w',
    gitCommitAndPush simpleGit repoPath projectTitle filename s
    = (Throw e, Session w' (committed (sent s) projectTitle filename)) /\
    last_line w' = "Creating commit...".
Proof.
  intros H. rewrite publish_run, H. eexists. split; [reflexivity|].
  apply (last_line_printed _ [_; _; _]).
Qed.

(** X3.  After the commit the branch [main] is pushed.  When that push
    succeeds nothing else is sent; when it is rejected [master] is
    pushed, once, and the publication succeeds if that push does; when
    both are rejected the publication is rejected with the error of the
    second push, after the line that asks for a manual push. *)
Theorem gitCommitAndPush_push_fallback
    (repoPath projectTitle filename : string) (s : session) :
  let git := simpleGit repoPath in
  let h3 := committed (sent s) projectTitle filename in
  git_commit git (staged (sent s) filename)
    (commit_message projectTitle filename) = Return tt ->
  (git_push git h3 "origin" "main" = Return tt ->
   exists w',
     gitCommitAndPush simpleGit repoPath projectTitle filename s
     = (Return tt, Session w' (h3 ++ [push_main])%list) /\
     last_line w' = "Successfully pushed to origin/main") /\
  (forall e1,
     git_push git h3 "origin" "main" = Throw e1 ->
     git_push git (h3 ++ [push_main])%list "origin" "master" = Return tt ->
     exists w',
       gitCommitAndPush simpleGit repoPath projectTitle filename s
       = (Return tt, Session w' (h3 ++ [push_main; push_master])%list) /\
       last_line w' = "Successfully pushed to origin/master") /\
  (forall e1 e2,
     git_push git h3 "origin" "main" = Throw e1 ->
     git_push git (h3 ++ [push_main])%list "origin" "master" = Throw e2 ->
     exists w',
       gitCommitAndPush simpleGit repoPath projectTitle filename s
       = (Throw e2, Session w' (h3 ++ [push_main; push_master])%list) /\
       last_line w' = "Failed to push. You may need to push manually.").
Proof.
  intros git h3 Hc. rewrite publish_run. fold git. fold h3. rewrite Hc.
  split; [|split].
  - intros ->. eexists. split; [reflexivity|].
    apply (last_line_printed _ [_]).
  - intros e1 -> ->. eexists. split; [reflexivity|].
    apply (last_line_printed _ [_]).
  - intros e1 e2 -> ->. eexists. split; [reflexivity|].
    apply (last_line_printed _ [_]).
Qed.

End Client.

Lemma gitCommitAndPush_commit_rejected_witness :
  exists w',
    gitCommitAndPush (fun _ => nothing_to_commit) "site" "My App"
      "day-7-my-app.html" fresh
    = (Throw (Error "nothing to commit"),
       Session w' [Add "projects/day-7-my-app.html"; Add "browse.html";
                   Commit (commit_message "My App" "day-7-my-app.html")]) /\
    last_line w' = "Creating commit...".
Proof.
  exact (gitCommitAndPush_commit_rejected (fun _ => nothing_to_commit)
           "site" "My App" "day-7-my-app.html" fresh
           (Error "nothing to commit") eq_refl).
Defined.

Lemma gitCommitAndPush_push_fallback_witness :
  (exists w',
     gitCommitAndPush (fun _ => obliging) "site" "My App" "day-7-my-app.html"
       fresh
     = (Return tt,
        Session w' (committed [] "My App" "day-7-my-app.html" ++ [push_main])%list)
     /\ last_line w' = "Successfully pushed to origin/main") /\
  (exists w',
     gitCommitAndPush (fun _ => without_main) "site" "My App"
       "day-7-my-app.html" fresh
     = (Return tt,
        Session w' (committed [] "My App" "day-7-my-app.html" ++
                    [push_main; push_master])%list)
     /\ last_line w' = "Successfully pushed to origin/master") /\
  (exists w',
     gitCommitAndPush (fun _ => offline) "site" "My App" "day-7-my-app.html"
       fresh
     = (Throw (Error "could not push master"),
        Session w' (committed [] "My App" "day-7-my-app.html" ++
                    [push_main; push_master])%list)
     /\ last_line w' = "Failed to push. You may need to push manually.").
Proof.
  split; [|split].
  - exact (proj1 (gitCommitAndPush_push_fallback (fun _ => obliging)
                    "site" "My App" "day-7-my-app.html" fresh eq_refl)
                 eq_refl).
  - exact (proj1 (proj2 (gitCommitAndPush_push_fallback (fun _ => without_main)
                    "site" "My App" "day-7-my-app.html" fresh eq_refl))
                 _ eq_refl eq_refl).
  - exact (proj2 (proj2 (gitCommitAndPush_push_fallback (fun _ => offline)
                    "site" "My App" "day-7-my-app.html" fresh eq_refl))
                 _ _ eq_refl eq_refl).
Defined.

End GitFacts.



(** ** updateBrowseHtml, run after run *)

Module GalleryFacts.
Import StrFacts RegexFacts TemplateGenerator BrowseUpdater GallerySpec Samples.

(** A pattern that succeeds somewhere is found by the search. *)
Lemma search_from_reaches (fl : flags) (r : regex) (a b : string) :
  forall pv i st,
    exec fl r Some (MState (last_char pv a) b []) = Some st ->
    exists m, search_from fl r pv i (a ++ b) = Some m.
Proof.
  induction a as [|c a IH]; intros pv i st H.
  - cbn [append]. cbn [last_char] in H.
    erewrite search_from_here by exact H. eauto.
  - cbn [append search_from]. unfold match_here.
    destruct (exec fl r Some (MState pv (String c (a ++ b)) [])) as [st0|];
      [eauto|].
    apply (IH (Some c) (S i) st). exact H.
Qed.

(** The replacement text ends as it is written when its last part has
    no dollar sign and begins with a code unit that no [$] sequence
    takes. *)
Lemma expand_keeps_tail (m : rmatch) (before : string) (ng : nat)
    (d : ascii) (tl : string) :
  inert d = true ->
  all (fun c => negb (Ascii.eqb c "$")) (String d tl) = true ->
  forall n a, String.length a <= n ->
    exists x, expand m before ng (a ++ String d tl) = x ++ String d tl.
Proof.
  intros Hd Hall.
  assert (Hnd : is_digit d = false).
  { unfold inert in Hd. apply andb_true_iff in Hd as [Hd _].
    now destruct (is_digit d). }
  assert (Hsp : Ascii.eqb d "$" = false /\ Ascii.eqb d "&" = false /\
                Ascii.eqb d "`" = false /\ Ascii.eqb d "'" = false).
  { unfold inert, any_of in Hd. apply andb_true_iff in Hd as [_ Hd].
    cbn [list_ascii_of_string existsb] in Hd.
    destruct (Ascii.eqb d "$"), (Ascii.eqb d "&"), (Ascii.eqb d "`"),
      (Ascii.eqb d "'"); try discriminate Hd; auto. }
  destruct Hsp as (Hs1 & Hs2 & Hs3 & Hs4).
  set (tail := String d tl) in *.
  assert (H0 : expand m before ng tail = tail) by now apply expand_plain.
  induction n as [|n IH]; intros a Hn.
  - destruct a; [|cbn in Hn; lia]. exists "". exact H0.
  - destruct a as [|c a1]; [exists ""; exact H0|].
    cbn [String.length] in Hn.
    assert (IH1 : exists x, expand m before ng (a1 ++ tail) = x ++ tail)
      by (apply IH; lia).
    cbn [append expand].
    destruct (Ascii.eqb c "$") eqn:Ec; cbn [negb].
    2:{ destruct IH1 as [x ->]. now exists (String c x). }
    destruct a1 as [|d1 a2].
    + cbn [append]. unfold tail at 1. rewrite Hs1, Hs2, Hs3, Hs4, Hnd.
      cbn [negb]. fold tail. rewrite H0. now exists "$".
    + cbn [String.length] in Hn.
      assert (IH2 : exists x, expand m before ng (a2 ++ tail) = x ++ tail)
        by (apply IH; lia).
      cbn [append].
      destruct (Ascii.eqb d1 "$");
        [destruct IH2 as [x ->]; now exists (String "$" x)|].
      destruct (Ascii.eqb d1 "&");
        [destruct IH2 as [x ->]; exists (m_text m ++ x);
         now rewrite app_assoc|].
      destruct (Ascii.eqb d1 "`");
        [destruct IH2 as [x ->]; exists (before ++ x);
         now rewrite app_assoc|].
      destruct (Ascii.eqb d1 "'");
        [destruct IH2 as [x ->]; exists (m_after m ++ x);
         now rewrite app_assoc|].
      destruct (is_digit d1); cbn [negb].
      2:{ destruct IH1 as [x H1]. cbn [append] in H1. rewrite H1.
          now exists (String "$" x). }
      assert (Hone : exists x,
        (if (1 <=? code d1 - 48) && (code d1 - 48 <=? ng)
         then group (code d1 - 48) m ++ expand m before ng (a2 ++ tail)
         else String "$" (String d1 (expand m before ng (a2 ++ tail))))
        = x ++ tail).
      { destruct IH2 as [x ->].
        destruct ((1 <=? code d1 - 48) && (code d1 - 48 <=? ng)).
        - exists (group (code d1 - 48) m ++ x). now rewrite app_assoc.
        - now exists (String "$" (String d1 x)). }
      destruct a2 as [|d2 a3].
      * cbn [append]. unfold tail at 1. rewrite Hnd. cbn [negb].
        fold tail. exact Hone.
      * cbn [append]. cbn [append] in Hone.
        destruct (is_digit d2); cbn [negb]; [|exact Hone].
        destruct (ng <? two_digits d1 d2); [exact Hone|].
        cbn [String.length] in Hn.
        assert (IH3 : exists x, expand m before ng (a3 ++ tail) = x ++ tail)
          by (apply IH; lia).
        destruct IH3 as [x ->].
        destruct (1 <=? two_digits d1 d2).
        -- exists (group (two_digits d1 d2) m ++ x). now rewrite app_assoc.
        -- now exists (String "$" (String d1 (String d2 x))).
Qed.

(** Joining texts: the last one comes last. *)
Lemma concat_last (l : list string) (x : string) :
  String.concat "" (l ++ [x]) = String.concat "" l ++ x.
Proof.
  induction l as [|y l IH]; [reflexivity|].
  destruct l as [|z l].
  - cbn. reflexivity.
  - change (String.concat "" ((y :: z :: l) ++ [x]))
      with (y ++ String.concat "" ((z :: l) ++ [x])).
    rewrite IH. change (String.concat "" (y :: z :: l))
      with (y ++ String.concat "" (z :: l)).
    now rewrite app_assoc.
Qed.

(** Every card ends with the same closing tags. *)
Lemma card_tail (projectData : projectData) (filename : string) :
  exists c1, generateProjectCard projectData filename = c1 ++ card_end.
Proof.
  unfold generateProjectCard.
  match goal with
  | |- exists c1, String.concat "" ?l = _ =>
      exists (String.concat "" (removelast l));
      rewrite (@app_removelast_last string l "") at 1 by discriminate
  end.
  rewrite concat_last. reflexivity.
Qed.

(** Where the pattern is found, the replacement stands between the text
    in front of the match and the text after it. *)
Lemma replaced_shape (fl : flags) (r : regex) (t content : string) :
  re_test fl r content = true ->
  exists pre m before post,
    re_replace fl r t content
    = pre ++ expand m before (ngroups r) t ++ post.
Proof.
  unfold re_test, re_replace.
  destruct (re_match fl r content) as [m|]; [|discriminate].
  intros _. now exists (substring 0 (m_index m) content), m,
    (substring 0 (m_index m) content), (m_after m).
Qed.

(** The anchor of the first pattern is found in every text that holds a
    card followed by the closing block. *)
Lemma anchor_after_card (pre c1 post : string) :
  re_test plain insertPattern (pre ++ (c1 ++ card_end ++ closing) ++ post)
  = true.
Proof.
  unfold re_test, re_match.
  set (t0 := "
                        </div>
                    </div>
                ").
  assert (E : pre ++ (c1 ++ card_end ++ closing) ++ post
              = (pre ++ c1 ++ t0) ++ ("</div>" ++ closing ++ post)).
  { change card_end with (t0 ++ "</div>").
    now rewrite !app_assoc. }
  rewrite E.
  destruct (search_from_reaches plain insertPattern (pre ++ c1 ++ t0)
              ("</div>" ++ closing ++ post) None 0
              (MState (Some ">"%char) post
                 [(1, taken ("</div>" ++ closing ++ post) post)]))
    as [m ->]; [|reflexivity].
  lazy -[taken last_char append]. reflexivity.
Qed.

(** The page an update writes, whichever pattern placed the card. *)
Lemma written_page (fl : flags) (r : regex) (projectData : projectData)
    (filename content : string) :
  re_test fl r content = true ->
  re_test plain insertPattern
    (re_replace fl r (generateProjectCard projectData filename ++ closing)
       content) = true.
Proof.
  intros H.
  destruct (replaced_shape fl r
              (generateProjectCard projectData filename ++ closing)
              content H) as (pre & m & before & post & ->).
  destruct (card_tail projectData filename) as [c1 ->].
  rewrite app_assoc.
  destruct (expand_keeps_tail m before (ngroups r) nl
              (substring 1 (String.length (card_end ++ closing))
                 (card_end ++ closing))
              eq_refl eq_refl (String.length c1) c1 (le_n _)) as [x Hx].
  change (String nl (substring 1 (String.length (card_end ++ closing))
                       (card_end ++ closing)))
    with (card_end ++ closing) in Hx.
  rewrite Hx. apply anchor_after_card.
Qed.

Section Paths.
Variable path_join : string -> string -> string.


(** X5.  A page that has been updated can be updated again: the page an
    update writes holds the anchor of the first pattern, behind the new
    card, so that the next update, of any project, returns as well. *)
Theorem updateBrowseHtml_repeatable (projectData : projectData)
    (filename portfolioPath : string) (w w' : world) :
  let browsePath := path_join portfolioPath "browse.html" in
  updateBrowseHtml path_join projectData filename portfolioPath w
  = (Return tt, w') ->
  (exists page,
     files w' browsePath = Some page /\
     re_test plain insertPattern page = true) /\
  (forall next nextFilename,
     exists w'',
       updateBrowseHtml path_join next nextFilename portfolioPath w'
       = (Return tt, w'')).
Proof.
  intros browsePath H.
  assert (Hp : exists page,
    files w' browsePath = Some page /\
    re_test plain insertPattern page = true).
  { revert H. unfold updateBrowseHtml. fold browsePath.
    unfold bind at 1. unfold readFile.
    destruct (files w browsePath) as [content|]; [|discriminate].
    unfold bind at 1.
    destruct (re_test plain insertPattern content) eqn:H1; cbn [negb].
    - unfold ret at 1. unfold bind, writeFile, log. intros H.
      injection H as <-. cbn [files]. rewrite String.eqb_refl.
      eexists. split; [reflexivity|]. now apply written_page.
    - destruct (re_test plain fallbackPattern content) eqn:H2;
        [|discriminate].
      unfold ret at 1. unfold bind, writeFile, log. intros H.
      injection H as <-. cbn [files]. rewrite String.eqb_refl.
      eexists. split; [reflexivity|]. now apply written_page. }
  split; [exact Hp|].
  destruct Hp as (page & Hf & Ht). intros next nextFilename.
  unfold updateBrowseHtml. fold browsePath.
  unfold bind at 1. unfold readFile. rewrite Hf.
  unfold bind at 1. rewrite Ht. cbn [negb]. eexists. reflexivity.
Qed.

End Paths.

Lemma updateBrowseHtml_repeatable_witness :
  exists w' w'',
    updateBrowseHtml join sample_project "day-7-my-app.html" "site"
      (site gallery_page) = (Return tt, w') /\
    updateBrowseHtml join sample_project "day-8-next.html" "site" w'
    = (Return tt, w'').
Proof.
  eexists.
  assert (H : updateBrowseHtml join sample_project "day-7-my-app.html" "site"
                (site gallery_page) = (Return tt, _))
    by (vm_compute; reflexivity).
  destruct (proj2 (updateBrowseHtml_repeatable join sample_project
                     "day-7-my-app.html" "site" _ _ H)
              sample_project "day-8-next.html") as [w'' H2].
  exists w''. split; [exact H | exact H2].
Defined.

End GalleryFacts.



(** ** Names and numbers, from one project to the next *)

Module NamingFacts.
Import StrFacts RegexFacts SlugFacts FilenameFacts DoubleFacts NumberFacts.
Import SlugSpec NumberSpec NamingSpec TemplateGenerator Float64 BrowseUpdater.

(** *** Decimal numerals *)

Lemma numeral_digits (d : Decimal.uint) :
  all is_digit (DecimalString.NilEmpty.string_of_uint d) = true.
Proof. induction d; cbn; auto. Qed.

Lemma numeral_read_acc (d : Decimal.uint) :
  forall p,
    fold_left (fun n c => (10 * n + N.of_nat (code c - 48))%N)
      (list_ascii_of_string (DecimalString.NilEmpty.string_of_uint d))
      (N.pos p)
    = N.pos (Pos.of_uint_acc d p).
Proof.
  induction d; intros p; cbn [DecimalString.NilEmpty.string_of_uint
    list_ascii_of_string fold_left Pos.of_uint_acc]; [reflexivity|..];
    rewrite <- IHd; f_equal;
    match goal with
    | |- context [N.of_nat ?x] =>
        let v := eval vm_compute in (N.of_nat x) in
        change (N.of_nat x) with v
    end; lia.
Qed.

Lemma numeral_read (d : Decimal.uint) :
  mathInt (DecimalString.NilEmpty.string_of_uint d) = Pos.of_uint d.
Proof.
  unfold mathInt.
  induction d; cbn [DecimalString.NilEmpty.string_of_uint
    list_ascii_of_string fold_left Pos.of_uint]; [reflexivity|exact IHd|..];
    apply numeral_read_acc.
Qed.

(** The numeral of a number is a non-empty run of digits, and reading it
    gives the number back. *)
Lemma decimal_round_trip (n : N) :
  decimal n <> "" /\ all is_digit (decimal n) = true /\
  mathInt (decimal n) = n.
Proof.
  unfold decimal.
  assert (H : DecimalString.NilZero.string_of_uint (N.to_uint n)
              = DecimalString.NilEmpty.string_of_uint (N.to_uint n)).
  { destruct n as [|p]; [reflexivity|]. cbn [N.to_uint].
    pose proof (DecimalPos.Unsigned.to_uint_nonnil p) as Hp.
    now destruct (Pos.to_uint p). }
  rewrite H. split; [|split].
  - destruct n as [|p]; [discriminate|]. cbn [N.to_uint].
    pose proof (DecimalPos.Unsigned.to_uint_nonnil p) as Hp.
    destruct (Pos.to_uint p); try discriminate. congruence.
  - apply numeral_digits.
  - rewrite numeral_read. apply DecimalN.Unsigned.of_to.
Qed.

(** *** The code units of a generated name *)

Lemma all_impl (f g : ascii -> bool) (s : string) :
  (forall c, f c = true -> g c = true) -> all f s = true -> all g s = true.
Proof.
  intros H. induction s as [|c s IH]; [reflexivity|]. cbn [all].
  intros Hs. apply andb_true_iff in Hs as [Hc Hs].
  now rewrite (H c Hc), IH.
Qed.

Lemma digit_filename_char (c : ascii) :
  is_digit c = true -> filename_char c = true.
Proof.
  intros H. unfold filename_char, alnum. rewrite H.
  now rewrite orb_true_r.
Qed.

Lemma words_filename_chars (need : bool) (s : string) :
  words need s = true -> all filename_char s = true.
Proof.
  revert need. induction s as [|c s IH]; intros need; [reflexivity|].
  cbn [words all]. unfold filename_char at 1.
  destruct (alnum c).
  - intros H. cbn [orb andb]. eauto.
  - destruct (Ascii.eqb c "-"); [|discriminate]. cbn [orb andb].
    destruct need; [discriminate|]. cbn [negb andb]. eauto.
Qed.

Lemma slug_filename_chars (title : string) :
  all filename_char (slugify title) = true.
Proof.
  pose proof (slugify_is_slug title) as H. unfold is_slug in H.
  destruct (slugify title) as [|c s]; [reflexivity|].
  exact (words_filename_chars true _ H).
Qed.

(** What [\d+] finds is a run of digits. *)
Lemma digits_found (label : string) (m : rmatch) :
  re_match plain digits label = Some m ->
  m_text m <> "" /\ all is_digit (m_text m) = true.
Proof.
  unfold re_match. intros H.
  apply search_from_found in H as (a & b & st & -> & Hex & ->).
  unfold digits in Hex. rewrite exec_digits in Hex by discriminate.
  destruct b as [|c s']; [discriminate|].
  destruct (is_digit c) eqn:Ec; [|discriminate].
  injection Hex as <-. cbn [m_text rest].
  rewrite (taken_eq _ (String c (take_while is_digit s'))
             (drop_while is_digit s'))
    by (cbn [append]; now rewrite take_drop).
  split; [discriminate|]. cbn [all]. now rewrite Ec, all_take_while.
Qed.

(** The number part of a generated name. *)
Lemma filename_shape (now : N) (title : string) (projectNumber : option string) :
  exists num,
    generateFilename now title projectNumber
    = "day-" ++ num ++ "-" ++ slugify title ++ ".html" /\
    num <> "" /\ all is_digit num = true.
Proof.
  unfold generateFilename.
  destruct projectNumber as [label|].
  - destruct (re_match plain digits label) as [m|] eqn:E.
    + exists (m_text m). split; [reflexivity|]. exact (digits_found label m E).
    + exists (decimal now). split; [reflexivity|].
      split; apply decimal_round_trip.
  - exists (decimal now). split; [reflexivity|].
    split; apply decimal_round_trip.
Qed.

(** X6.  Every generated file name is made of lower-case letters,
    digits, hyphens and the dot alone, whatever the title and the label:
    it holds no path separator, no space and no quote.  It begins with
    [day-] and ends with [.html], so the scan for the next project
    number takes it into account. *)
Theorem generateFilename_safe (now : N) (title : string)
    (projectNumber : option string) :
  all filename_char (generateFilename now title projectNumber) = true /\
  conventional (generateFilename now title projectNumber) = true.
Proof.
  destruct (filename_shape now title projectNumber) as (num & -> & _ & Hd).
  split.
  - rewrite !all_app.
    rewrite (all_impl _ _ _ digit_filename_char Hd), slug_filename_chars.
    reflexivity.
  - unfold conventional. apply andb_true_iff. split.
    + apply prefix_iff. eexists. reflexivity.
    + replace ("day-" ++ num ++ "-" ++ slugify title ++ ".html")
        with (("day-" ++ num ++ "-" ++ slugify title) ++ ".html")
        by (rewrite !app_assoc; reflexivity).
      apply endsWith_app.
Qed.

(** *** The next number *)

Section Paths.
Variable path_join : string -> string -> string.

Lemma next_number_eq (portfolioPath : string) (w : world)
    (names : list string) :
  dirs w (path_join portfolioPath "projects") = Some names ->
  getNextProjectNumber path_join portfolioPath w
  = (Return (add (fold_left larger (filter conventional names) (Finite 0))
                 (Finite 1)), w).
Proof.
  intros H. unfold getNextProjectNumber, try_catch, bind, readdir, ret.
  rewrite H. reflexivity.
Qed.

(** X7.  The numbering advances by one, below 2^53.  When the scan of
    the projects directory gives [n], a number below 2^53, and the page
    of the next project is generated with a label that carries [n]
    (such as [Project n]) and put into the directory, the scan gives
    [n + 1]. *)
Theorem next_number_advances (portfolioPath : string) (w w2 : world)
    (names names2 : list string) (now : N) (title pre post : string) (n : N) :
  dirs w (path_join portfolioPath "projects") = Some names ->
  fst (getNextProjectNumber path_join portfolioPath w) = Return (Finite n) ->
  (n < exact_below)%N ->
  all non_digit pre = true -> stops is_digit post ->
  dirs w2 (path_join portfolioPath "projects") = Some names2 ->
  listing_with (generateFilename now title (Some (pre ++ decimal n ++ post)))
    names names2 ->
  getNextProjectNumber path_join portfolioPath w2
  = (Return (Finite (n + 1)), w2).
Proof.
  intros Hd Hn Hb Hpre Hpost Hd2 Hl.
  rewrite (next_number_eq _ _ _ Hd) in Hn. cbn [fst] in Hn.
  injection Hn as Hn.
  rewrite (next_number_eq _ _ _ Hd2). f_equal. f_equal.
  destruct (fold_left larger (filter conventional names) (Finite 0))
    as [t|] eqn:Et; [|discriminate Hn].
  cbn [add] in Hn. apply nearest_small in Hn; [|exact Hb].
  assert (Ht : (t < exact_below)%N) by lia.
  destruct (fold_larger_small names t Et Ht) as (Hub & _).
  destruct (decimal_round_trip n) as (Hne & Hdig & Hread).
  set (f := generateFilename now title (Some (pre ++ decimal n ++ post))) in *.
  assert (Hf : number_of f = Some n).
  { apply number_of_iff.
    pose proof (generated_name_numbered now title pre (decimal n) post
                  Hpre Hne Hdig Hpost) as Hg.
    now rewrite Hread in Hg. }
  destruct (fold_larger names2 (Finite 0)) as (_ & Hub2 & Hatt2).
  cbn zeta in Hub2, Hatt2.
  set (top2 := fold_left larger (filter conventional names2) (Finite 0)) in *.
  assert (H1 : gtb (Finite n) top2 = false).
  { rewrite <- (nearest_exact n Hb). apply (Hub2 f n); [|exact Hf].
    apply Hl. now left. }
  assert (E2 : top2 = Finite n).
  { destruct Hatt2 as [H0|(g & m & Hg & Hgm & H0)].
    - rewrite H0 in H1. apply gtb_finite in H1. lia.
    - apply Hl in Hg as [->|Hg].
      + rewrite Hf in Hgm. injection Hgm as <-.
        now rewrite H0, nearest_exact.
      + pose proof (Hub g m Hg Hgm) as Hm.
        rewrite H0, nearest_exact in H1 by lia.
        apply gtb_finite in H1. lia. }
  rewrite E2. cbn [add]. now apply nearest_succ.
Qed.

End Paths.

Lemma next_number_advances_witness :
  let join := fun a b => a ++ "/" ++ b in
  let listing := fun names =>
    World (fun _ => None)
          (fun p => if String.eqb p "site/projects" then Some names else None)
          [] in
  let names := ["day-1-a.html"; "day-12-b.html"; "index.html"] in
  getNextProjectNumber join "site"
    (listing ("day-13-my-app.html" :: names))
  = (Return (Finite 14), listing ("day-13-my-app.html" :: names)).
Proof.
  intros join listing names.
  apply (next_number_advances join "site" (listing names)
           (listing ("day-13-my-app.html" :: names)) names
           ("day-13-my-app.html" :: names) 0%N "My App" "Project " "" 13%N);
    try reflexivity.
  intros g. cbn [In]. split; intros [H|H]; auto.
Defined.

End NamingFacts.



(** ** parseGitHubUrl: what a result looks like *)

Module RefFacts.
Import StrFacts RegexFacts UrlFacts UrlSpec GithubFetcher.

(** References can be looked for: there is a leftmost one, or none. *)
Lemma ref_decided (host url : string) :
  (exists o r, first_ref host url o r) \/ no_ref host url.
Proof.
  destruct (find_ref host url) as [[[o r] post]|] eqn:E.
  - left. exists o, r. exact (find_ref_first _ _ _ _ _ E).
  - right. exact (find_ref_none _ _ E).
Qed.

(** The result for the leftmost reference of a form. *)
Lemma parse_ref_result (host : string) (rest_patterns : list regex)
    (url o r : string) :
  first_ref host url o r ->
  exists r',
    parse_with (ref_pattern host :: rest_patterns) url = Return (RepoRef o r') /\
    o <> "" /\ all nonslash o = true /\ all nonslash r' = true /\
    includes url (host ++ o ++ "/" ++ r') = true /\
    (r' = "" -> r = ".git").
Proof.
  intros H. destruct (parse_first_ref host rest_patterns url o r H)
    as (r' & Hs & E).
  exists r'. split; [exact E|].
  destruct H as (pre & s & post & -> & (-> & Ho & Hr & Hao & Har & _) & _).
  split; [exact Ho|]. split; [exact Hao|].
  destruct Hs as [->|[-> _]].
  - rewrite all_app in Har. apply andb_true_iff in Har as [Har _].
    split; [exact Har|]. split.
    + apply includes_iff. exists pre, (".git" ++ post).
      now rewrite !app_assoc.
    + now intros ->.
  - split; [exact Har|]. split.
    + apply includes_iff. exists pre, post. now rewrite !app_assoc.
    + intros ->. congruence.
Qed.

(** X8.  What [parseGitHubUrl] returns was read in its input: the owner
    is not empty, neither the owner nor the repository name holds a
    [/], and [github.com/owner/name] or [github.com:owner/name] occurs
    in the input.  The name is empty only for a reference whose name is
    [.git].  What it throws is the error [Invalid GitHub URL] with the
    input, and only for an input without a reference of either form. *)
Theorem parseGitHubUrl_result (url : string) :
  match parseGitHubUrl url with
  | Return ref =>
      owner ref <> "" /\
      all nonslash (owner ref) = true /\ all nonslash (repo ref) = true /\
      (includes url ("github.com/" ++ owner ref ++ "/" ++ repo ref) = true \/
       includes url ("github.com:" ++ owner ref ++ "/" ++ repo ref) = true) /\
      (repo ref = "" -> includes url (owner ref ++ "/.git") = true)
  | Throw e =>
      e = Error ("Invalid GitHub URL: " ++ url) /\
      no_ref "github.com/" url /\ no_ref "github.com:" url
  end.
Proof.
  unfold parseGitHubUrl, patterns.
  change url_pattern with (ref_pattern "github.com/").
  change ssh_pattern with (ref_pattern "github.com:").
  assert (Hgit : forall host o r,
    first_ref host url o r -> r = ".git" ->
    includes url (o ++ "/.git") = true).
  { intros host o r (pre & s & post & -> & (-> & _) & _) ->.
    apply includes_iff. exists (pre ++ host), post.
    now rewrite !app_assoc. }
  destruct (ref_decided "github.com/" url) as [(o & r & H)|H0].
  - destruct (parse_ref_result _ [ref_pattern "github.com:"] _ _ _ H)
      as (r' & -> & Ho & Hao & Har & Hin & He).
    cbn [owner repo]. repeat split; auto.
    intros E. exact (Hgit _ _ _ H (He E)).
  - rewrite (parse_no_ref _ _ _ H0).
    destruct (ref_decided "github.com:" url) as [(o & r & H)|H1].
    + destruct (parse_ref_result _ [] _ _ _ H)
        as (r' & -> & Ho & Hao & Har & Hin & He).
      cbn [owner repo]. repeat split; auto.
      intros E. exact (Hgit _ _ _ H (He E)).
    + rewrite (parse_no_ref _ _ _ H1). cbn [parse_with]. auto.
Qed.

End RefFacts.



(** ** fetchRepoData: what is printed *)

Module TranscriptFacts.
Import GithubFetcher FetchSpec TranscriptSpec.

Section Fetch.
Variable base64_decode : string -> string.
Variable JSON_parse : string -> outcome json.

(** X9.  A fetch prints its opening line, whatever comes of it.  Once
    the repository is found, an absent README (rejected, or without
    content) costs one warning line; an absent or unreadable
    [package.json] and an absent [requirements.txt] are passed over in
    silence, and so is the outcome of the language lookup.  No file and
    no directory is touched. *)
Theorem fetchRepoData_console (api : octokit) (owner repo : string) (w : world) :
  let w' := snd (fetchRepoData base64_decode JSON_parse api owner repo w) in
  console w' =
  (console w ++ fetching_line owner repo ::
   match repos_get api owner repo with
   | Throw _ => []
   | Return _ =>
       readme_warning (text_of base64_decode (repos_getReadme api owner repo))
   end)%list /\
  files w' = files w /\ dirs w' = dirs w.
Proof.
  unfold fetchRepoData, bind, try_catch, lift, log, ret, decode_content, throw,
    fetching_line.
  destruct (repos_get api owner repo) as [info|e]; [|cbn; auto].
  cbn.
  destruct (repos_getReadme api owner repo) as [[[t|]]|]; cbn;
  (destruct (repos_getContent api owner repo "package.json") as [[[t1|]]|];
   cbn; [destruct (JSON_parse (base64_decode t1)); cbn| |]);
  (destruct (repos_getContent api owner repo "requirements.txt")
     as [[[t2|]]|]; cbn);
  destruct (repos_listLanguages api owner repo); cbn;
  rewrite <- ?List.app_assoc; auto.
Qed.

End Fetch.

End TranscriptFacts.



(** ** parseReadme: the entries of the two lists *)

Module ListFacts.
Import StrFacts RegexFacts ReadmeFacts GithubFetcher ReadmeSpec.

(** *** Trimming *)

Lemma trimStart_stops (s : string) : stops is_space (trimStart s).
Proof.
  induction s as [|c s IH]; [exact I|]. cbn [trimStart].
  destruct (is_space c) eqn:E; [exact IH | exact E].
Qed.

Lemma trimStart_id (s : string) : stops is_space s -> trimStart s = s.
Proof. destruct s as [|c s]; [reflexivity|]. cbn. now intros ->. Qed.

Lemma trimEnd_stops (s : string) :
  stops is_space s -> stops is_space (trimEnd s).
Proof.
  destruct s as [|c s]; [auto|]. cbn [stops trimEnd]. intros H.
  rewrite H. exact H.
Qed.

Lemma trimEnd_idem (s : string) : trimEnd (trimEnd s) = trimEnd s.
Proof.
  induction s as [|c s IH]; [reflexivity|]. cbn [trimEnd].
  destruct (is_space c && String.eqb (trimEnd s) "") eqn:E; [reflexivity|].
  cbn [trimEnd]. now rewrite IH, E.
Qed.

(** Trimming twice is trimming once. *)
Lemma trim_idem (s : string) : trim (trim s) = trim s.
Proof.
  unfold trim.
  rewrite (trimStart_id (trimEnd (trimStart s)))
    by apply trimEnd_stops, trimStart_stops.
  apply trimEnd_idem.
Qed.

Lemma all_trimStart (f : ascii -> bool) (s : string) :
  all f s = true -> all f (trimStart s) = true.
Proof.
  induction s as [|c s IH]; [auto|]. cbn [all trimStart]. intros H.
  destruct (is_space c); [|exact H].
  apply andb_true_iff in H as [_ H]. auto.
Qed.

Lemma all_trimEnd (f : ascii -> bool) (s : string) :
  all f s = true -> all f (trimEnd s) = true.
Proof.
  induction s as [|c s IH]; [auto|]. cbn [all trimEnd]. intros H.
  apply andb_true_iff in H as [Hc H].
  destruct (is_space c && String.eqb (trimEnd s) ""); [reflexivity|].
  cbn [all]. now rewrite Hc, IH.
Qed.

Lemma all_trim (f : ascii -> bool) (s : string) :
  all f s = true -> all f (trim s) = true.
Proof. intros H. now apply all_trimEnd, all_trimStart. Qed.

Lemma all_drop_while (f g : ascii -> bool) (s : string) :
  all g s = true -> all g (drop_while f s) = true.
Proof.
  induction s as [|c s IH]; [auto|]. cbn [all drop_while]. intros H.
  destruct (f c); [|exact H].
  apply andb_true_iff in H as [_ H]. auto.
Qed.

Lemma all_ext (f g : ascii -> bool) (s : string) :
  (forall c, f c = g c) -> all f s = all g s.
Proof.
  intros H. induction s as [|c s IH]; [reflexivity|]. cbn [all].
  now rewrite H, IH.
Qed.

(** *** What a pattern consumes *)

Lemma one_consumes (fl : flags) (a : atom) (k : mstate -> option mstate)
    (st res : mstate) :
  one fl a k st = Some res ->
  exists c y, rest st = String c y /\ atom_ok fl a c = true /\
              k (MState (Some c) y (caps st)) = Some res.
Proof.
  unfold one. destruct (rest st) as [|c y]; [discriminate|].
  destruct (atom_ok fl a c) eqn:E; [|discriminate]. eauto.
Qed.

Lemma star_consumes (fl : flags) (a : atom) (k : mstate -> option mstate)
    (cs : list (nat * string)) (s : string) (res : mstate) :
  forall p,
    star fl a k p cs s = Some res ->
    exists x y, s = x ++ y /\ all (atom_ok fl a) x = true /\
                k (MState (last_char p x) y cs) = Some res.
Proof.
  induction s as [|c s IH]; intros p; cbn [star].
  - intros H. now exists "", "".
  - destruct (atom_ok fl a c) eqn:E;
      [|intros H; now exists "", (String c s)].
    destruct (star fl a k (Some c) cs s) eqn:Es.
    + intros H. injection H as <-.
      destruct (IH _ Es) as (x & y & -> & Hx & Hk).
      exists (String c x), y. cbn [append all last_char]. now rewrite E.
    + intros H. now exists "", (String c s).
Qed.

Lemma plus_consumes (fl : flags) (a : atom) (k : mstate -> option mstate)
    (st res : mstate) :
  exec fl (Plus a) k st = Some res ->
  exists x y, rest st = x ++ y /\ x <> "" /\ all (atom_ok fl a) x = true /\
              k (MState (last_char (prev st) x) y (caps st)) = Some res.
Proof.
  cbn [exec]. intros H.
  apply one_consumes in H as (c & y & E & Hc & H). cbn [prev caps rest] in H.
  apply star_consumes in H as (x & z & -> & Hx & H).
  exists (String c x), z. cbn [append all last_char]. rewrite Hc.
  repeat split; auto. discriminate.
Qed.

(** The texts a global match lists were each matched at some place. *)
Lemma match_all_texts (fl : flags) (r : regex) (t : string) (s : string) :
  forall p skip,
    In t (match_all_from fl r p skip s) ->
    exists p' s' m, match_here fl r p' 0 s' = Some m /\ t = m_text m.
Proof.
  induction s as [|c s IH]; intros p skip; cbn [match_all_from].
  - destruct skip; [|intros []].
    destruct (match_here fl r p 0 "") as [m|] eqn:E; [|intros []].
    intros [<-|[]]. eauto.
  - destruct skip as [|n]; [|apply IH].
    destruct (match_here fl r p 0 (String c s)) as [m|] eqn:E; [|apply IH].
    intros [<-|H]; [eauto | exact (IH _ _ H)].
Qed.

(** *** The bullets *)

Lemma exec_one (fl : flags) (a : atom) (k : mstate -> option mstate)
    (st : mstate) :
  exec fl (One a) k st = one fl a k st.
Proof. reflexivity. Qed.

Lemma drop_while_all_app (f : ascii -> bool) (a b : string) :
  all f a = true -> drop_while f (a ++ b) = drop_while f b.
Proof.
  induction a as [|c a IH]; [reflexivity|]. cbn [all append drop_while].
  intros H. apply andb_true_iff in H as [-> H]. auto.
Qed.

(** What [^[-*]\s+(.+)$] matches: a mark, white space, and the rest of
    a line. *)
Lemma bullet_shape (p : option ascii) (s : string) (m : rmatch) :
  match_here flag_m bullet_line p 0 s = Some m ->
  exists c w d,
    m_text m = String c (w ++ d) /\ any_of "-*" c = true /\
    w <> "" /\ all is_space w = true /\ all in_line d = true.
Proof.
  unfold match_here.
  destruct (exec flag_m bullet_line Some (MState p s [])) as [st|] eqn:E;
    [|discriminate].
  intros H. injection H as <-. cbn [m_text].
  unfold bullet_line in E. rewrite exec_seq, exec_bol in E.
  destruct (at_bol flag_m (MState p s [])); [|discriminate].
  rewrite exec_seq, exec_one in E.
  apply one_consumes in E as (c & y & Es & Hc & E).
  cbn [rest caps] in Es, E. subst s.
  rewrite exec_seq in E.
  apply plus_consumes in E as (w & y1 & Ey & Hw & Haw & E).
  cbn [rest caps prev] in Ey, E. subst y.
  rewrite exec_seq, exec_group in E.
  apply plus_consumes in E as (d & y2 & Ey & Hd & Had & E).
  cbn [rest caps prev] in Ey, E. subst y1.
  cbn [exec] in E. destruct (at_eol flag_m _); [|discriminate].
  injection E as <-. cbn [rest].
  exists c, w, d. split.
  - apply taken_eq. cbn [append]. now rewrite app_assoc.
  - split; [exact Hc|]. split; [exact Hw|]. split.
    + now rewrite <- Haw.
    + now rewrite <- Had.
Qed.

(** Taking the mark off a bullet leaves the end of its line. *)
Lemma bullet_text (c : ascii) (w d : string) :
  any_of "-*" c = true -> w <> "" -> all is_space w = true ->
  re_replace plain bullet_mark "" (String c (w ++ d))
  = drop_while is_space d.
Proof.
  intros Hc Hw Haw. destruct w as [|x w]; [congruence|].
  cbn [all] in Haw. apply andb_true_iff in Haw as [Hx Haw].
  unfold re_replace, re_match.
  erewrite search_from_here.
  2:{ unfold bullet_mark. rewrite exec_seq, exec_bol. cbn [at_bol prev].
      rewrite exec_seq, exec_one. unfold one. cbn [rest caps prev].
      change (atom_ok plain (Cls false (any_of "-*")) c) with (any_of "-*" c).
      rewrite Hc. cbn [append].
      rewrite plus_commit; [reflexivity|exact Hx|discriminate]. }
  cbn [m_index m_after rest expand substring append]. unfold run_end.
  cbn [rest].
  rewrite (drop_while_ext _ is_space) by reflexivity.
  now apply drop_while_all_app.
Qed.

Lemma In_firstn {A} (n : nat) (l : list A) (x : A) :
  In x (firstn n l) -> In x l.
Proof.
  revert l. induction n as [|n IH]; intros [|y l]; cbn;
    try (intros []; fail).
  intros [H|H]; auto.
Qed.

(** X10.  Every feature is one trimmed line: it holds no line
    terminator and neither begins nor ends with white space. *)
Theorem features_are_trimmed_lines (readme : string) :
  Forall (fun f => all in_line f = true /\ trim f = f)
         (extract_features readme).
Proof.
  unfold extract_features.
  destruct (re_match flag_i features_section readme) as [fm|]; [|constructor].
  unfold re_match_all.
  destruct (match_all_from flag_m bullet_line None 0 (group 1 fm))
    as [|b bs] eqn:E; [constructor|].
  rewrite <- E. clear E b bs.
  apply Forall_forall. intros f Hf.
  apply in_map_iff in Hf as (b & <- & Hb).
  apply In_firstn in Hb.
  apply match_all_texts in Hb as (p & s & m & Hm & ->).
  apply bullet_shape in Hm as (c & w & d & -> & Hc & Hw & Haw & Had).
  rewrite (bullet_text c w d Hc Hw Haw).
  split; [|apply trim_idem].
  now apply all_trim, all_drop_while.
Qed.

(** X11.  Every installation command is a non-empty trimmed text. *)
Theorem installation_commands_trimmed (readme : string) :
  Forall (fun cmd => cmd <> "" /\ trim cmd = cmd)
         (extract_installation readme).
Proof.
  unfold extract_installation.
  destruct (re_match flag_i install_section readme) as [im|]; [|constructor].
  destruct (re_match_all plain code_block (group 1 im)) as [blocks|];
    [|constructor].
  apply Forall_forall. intros cmd H.
  apply filter_In in H as [H Hn].
  apply in_map_iff in H as (block & <- & _).
  split; [|apply trim_idem].
  intros E. rewrite E in Hn. discriminate.
Qed.

End ListFacts.



(** ** parseReadme: a section read back *)

Module SectionFacts.
Import StrFacts RegexFacts ReadmeFacts NamingFacts ListFacts.
Import GithubFetcher ReadmeSpec SectionSpec.

(** *** Code units under the [i] flag *)

Ltac by_cases c :=
  destruct c as [b0 b1 b2 b3 b4 b5 b6 b7];
  destruct b0, b1, b2, b3, b4, b5, b6, b7;
  try reflexivity; try discriminate.

Lemma hash_i (c : ascii) :
  atom_ok flag_i (Lit "#") c = Ascii.eqb c "#".
Proof. by_cases c. Qed.

Lemma newline_i (c : ascii) :
  atom_ok flag_i (Lit nl) c = Ascii.eqb c nl.
Proof. by_cases c. Qed.

Lemma not_newline_i (c : ascii) :
  atom_ok flag_i not_newline c = not_nl c.
Proof. by_cases c. Qed.

Lemma anything_i (c : ascii) : atom_ok flag_i anything c = true.
Proof. by_cases c. Qed.

(** *** Runs, under any flags *)

Lemma run_end_at (fl : flags) (a : atom) (f : ascii -> bool)
    (pv : option ascii) (cs : list (nat * string)) (x y : string) :
  (forall c, atom_ok fl a c = f c) ->
  all f x = true -> stops f y ->
  run_end fl a pv cs (x ++ y) = MState (last_char pv x) y cs.
Proof.
  intros Hf Hx Hy. unfold run_end.
  rewrite (take_while_ext _ f), (drop_while_ext _ f) by exact Hf.
  now rewrite (take_while_app f x y Hx Hy), (drop_while_app f x y Hx Hy).
Qed.

Lemma exec_star (fl : flags) (a : atom) (k : mstate -> option mstate)
    (st : mstate) :
  exec fl (Star a) k st = star fl a k (prev st) (caps st) (rest st).
Proof. reflexivity. Qed.

Lemma exec_lazy (fl : flags) (a : atom) (k : mstate -> option mstate)
    (st : mstate) :
  exec fl (LazyStar a) k st = lazy_star fl a k (prev st) (caps st) (rest st).
Proof. reflexivity. Qed.

(** The lazy star stops at the first place where what follows succeeds. *)
Lemma lazy_star_first (fl : flags) (a : atom) (k : mstate -> option mstate)
    (cs : list (nat * string)) (body term : string) (res : mstate) :
  (forall c, atom_ok fl a c = true) ->
  forall p,
    (forall x y, body = x ++ y -> y <> "" ->
       k (MState (last_char p x) (y ++ term) cs) = None) ->
    k (MState (last_char p body) term cs) = Some res ->
    lazy_star fl a k p cs (body ++ term) = Some res.
Proof.
  intros Ha. induction body as [|c body IH]; intros p H Hk.
  - cbn [append last_char] in *. destruct term; cbn [lazy_star]; now rewrite Hk.
  - cbn [append lazy_star].
    pose proof (H "" (String c body) eq_refl) as H0. cbn in H0.
    rewrite H0 by discriminate. rewrite Ha.
    apply IH; [|exact Hk].
    intros x y -> Hy. exact (H (String c x) y eq_refl Hy).
Qed.

(** *** The end of a section *)

(** [(?=\n##|\n$)] holds in front of what ends a section. *)
Lemma section_end_closed (term : string) (p : option ascii)
    (cs : list (nat * string)) :
  section_closed term ->
  exec flag_i section_end Some (MState p term cs) = Some (MState p term cs).
Proof.
  intros [->|[post ->]]; reflexivity.
Qed.

(** It fails inside a body no line of which begins with [##]. *)
Lemma quiet_inside (x y : string) :
  quiet (x ++ String nl y) = true -> prefix "##" y = false.
Proof.
  induction x as [|c x IH]; cbn [append quiet]; intros H;
    apply andb_true_iff in H as [H1 H2]; [|auto].
  rewrite Ascii.eqb_refl in H1. cbn [andb] in H1.
  now destruct (prefix "##" y).
Qed.

Lemma section_end_open (body term : string) (p : option ascii)
    (cs : list (nat * string)) (x y : string) :
  quiet body = true -> section_closed term ->
  body = x ++ y -> y <> "" ->
  exec flag_i section_end Some (MState p (y ++ term) cs) = None.
Proof.
  intros Hq Ht -> Hy. destruct y as [|c y]; [congruence|].
  unfold section_end. cbn [exec append]. unfold one. cbn [rest caps prev].
  rewrite newline_i.
  destruct (Ascii.eqb_spec c nl) as [->|]; [|reflexivity].
  apply quiet_inside in Hq.
  assert (Hterm : exists t, term = String nl t)
    by (destruct Ht as [->|[post ->]]; eauto).
  destruct Hterm as [t ->].
  destruct y as [|d y].
  - reflexivity.
  - cbn [append].
    change (lit "##") with (Seq (One (Lit "#")) (One (Lit "#"))).
    cbn [exec]. unfold one. cbn [rest caps prev at_eol].
    rewrite hash_i.
    destruct (Ascii.eqb_spec d "#") as [->|]; [|reflexivity].
    destruct y as [|e y]; [reflexivity|]. cbn [append].
    rewrite hash_i.
    destruct (Ascii.eqb_spec e "#") as [->|]; [|reflexivity].
    assert (Hp : prefix "##" (String "#" (String "#" y)) = true)
      by (apply prefix_iff; now exists y).
    congruence.
Qed.

(** The rest of a heading line and the body under it: the body is the
    text up to what ends the section. *)
Lemma section_read (tail body term : string) (p : option ascii) :
  all not_nl tail = true -> quiet body = true -> section_closed term ->
  exec flag_i
    (Star not_newline >> One (Lit nl) >> Group 1 (LazyStar anything) >>
     section_end)%re
    Some (MState p (tail ++ String nl (body ++ term)) [])
  = Some (MState (last_char (Some nl) body) term [(1, body)]).
Proof.
  intros Htail Hq Ht.
  rewrite exec_seq, exec_star. cbn [prev caps rest].
  rewrite star_refused.
  2:{ intros pv' c s' Hc. rewrite exec_seq, exec_one. unfold one.
      cbn [rest]. rewrite newline_i.
      rewrite not_newline_i in Hc. unfold not_nl in Hc.
      now destruct (Ascii.eqb c nl). }
  rewrite (run_end_at flag_i not_newline not_nl _ _ tail
             (String nl (body ++ term)) not_newline_i Htail)
    by reflexivity.
  rewrite exec_seq, exec_one. unfold one. cbn [rest caps prev].
  rewrite newline_i, Ascii.eqb_refl.
  rewrite exec_seq, exec_group, exec_lazy. cbn [prev caps rest].
  apply lazy_star_first.
  - apply anything_i.
  - intros x y E Hy. cbn [prev rest caps].
    exact (section_end_open body term _ _ x y Hq Ht E Hy).
  - cbn [prev rest caps]. rewrite (section_end_closed term _ _ Ht).
    now rewrite taken_app.
Qed.

(** *** The heading of a feature list *)

Lemma feature_heading (h : string) (k : mstate -> option mstate)
    (p : option ascii) (s : string) :
  In h feature_headings ->
  exec flag_i (One (Lit "#"))
    (exec flag_i (Opt (Lit "#"))
       (exec flag_i (Star ws)
          (exec flag_i
             (lit "Features" <+> lit "Key Features" <+> lit "What it does")%re
             k)))
    (MState p (h ++ s) [])
  = k (MState (last_char None h) s []).
Proof.
  intros H.
  repeat (destruct H as [<-|H];
          [cbn [append last_char]; lazy; now destruct (k _)|]).
  destruct H.
Qed.

(** The section of the features is found behind a text without [#]:
    its body is the text under the heading line. *)
Lemma features_found (pre h tail body term : string) :
  all not_hash pre = true -> In h feature_headings ->
  all not_nl tail = true -> quiet body = true -> section_closed term ->
  exists m,
    re_match flag_i features_section (with_section pre h tail body term)
    = Some m /\ group 1 m = body.
Proof.
  intros Hpre Hh Htail Hq Ht. unfold re_match, with_section.
  rewrite search_from_skip.
  - erewrite search_from_here.
    2:{ change (exec flag_i features_section Some ?st)
          with (exec flag_i (One (Lit "#"))
                  (exec flag_i (Opt (Lit "#"))
                     (exec flag_i (Star ws)
                        (exec flag_i
                           (lit "Features" <+> lit "Key Features" <+>
                            lit "What it does")%re
                           (exec flag_i
                              (Star not_newline >> One (Lit nl) >>
                               Group 1 (LazyStar anything) >> section_end)%re
                              Some))))
                  st).
        rewrite (feature_heading h _ _ _ Hh).
        apply section_read; assumption. }
    eexists. split; [reflexivity|]. reflexivity.
  - intros a b -> Hb. destruct b as [|c b]; [congruence|].
    rewrite all_app in Hpre. apply andb_true_iff in Hpre as [_ Hpre].
    cbn [all] in Hpre. apply andb_true_iff in Hpre as [Hc _].
    unfold features_section. rewrite exec_seq, exec_one. unfold one.
    cbn [append rest]. rewrite hash_i. unfold not_hash in Hc.
    now destruct (Ascii.eqb c "#").
Qed.

(** *** The bullets of a list of items *)

Lemma length_trimStart (s : string) :
  String.length (trimStart s) <= String.length s.
Proof.
  induction s as [|c s IH]; [auto|]. cbn [trimStart].
  destruct (is_space c); cbn [String.length]; lia.
Qed.

Lemma length_trimEnd (s : string) :
  String.length (trimEnd s) <= String.length s.
Proof.
  induction s as [|c s IH]; [auto|]. cbn [trimEnd].
  destruct (is_space c && String.eqb (trimEnd s) "");
    cbn [String.length]; lia.
Qed.

(** A trimmed text does not begin with white space. *)
Lemma trimmed_stops (t : string) : trim t = t -> stops is_space t.
Proof.
  destruct t as [|c t]; [intros _; exact I|]. cbn [stops]. intros H.
  destruct (is_space c) eqn:E; [|reflexivity].
  apply (f_equal String.length) in H. unfold trim in H.
  cbn [trimStart] in H. rewrite E in H.
  pose proof (length_trimEnd (trimStart t)).
  pose proof (length_trimStart t). cbn [String.length] in H. lia.
Qed.

Lemma item_shape (t : string) :
  item t ->
  exists x t', t = String x t' /\ is_space x = false /\
               in_line x = true /\ all in_line t' = true.
Proof.
  intros (Hne & Hall & Htrim). apply trimmed_stops in Htrim.
  destruct t as [|x t']; [congruence|]. cbn [stops] in Htrim.
  cbn [all] in Hall. apply andb_true_iff in Hall as [Hx Hall].
  now exists x, t'.
Qed.

(** A bullet line is matched whole, at the beginning of a line. *)
Lemma bullet_exec (p : option ascii) (t sep : string) :
  item t -> stops in_line sep -> p = None \/ p = Some nl ->
  match_here flag_m bullet_line p 0 ("- " ++ t ++ sep)
  = Some (RMatch 0 ("- " ++ t) [(1, t)] sep).
Proof.
  intros Hi Hsep Hp.
  destruct (item_shape t Hi) as (x & t' & -> & Hx & Hlx & Hall).
  assert (Hbol : forall s cs, at_bol flag_m (MState p s cs) = true)
    by (intros s cs; destruct Hp as [->| ->]; reflexivity).
  assert (Heol : forall pv cs, at_eol flag_m (MState pv sep cs) = true).
  { intros pv cs. destruct sep as [|c sep]; [reflexivity|].
    cbn [stops] in Hsep. unfold in_line in Hsep. unfold at_eol.
    cbn [rest multiline flag_m andb]. now destruct (is_line_terminator c). }
  assert (Hdots : forall pv cs,
    exec flag_m (Group 1 (Plus dot) >> Eol) Some
      (MState pv (String x t' ++ sep) cs)
    = Some (MState (last_char (Some x) t') sep ((1, String x t') :: cs))).
  { intros pv cs. rewrite exec_seq, exec_group. cbn [append].
    assert (Hr : run_end flag_m dot (Some x) cs (t' ++ sep)
                 = MState (last_char (Some x) t') sep cs).
    { apply (run_end_at flag_m dot in_line); [reflexivity|exact Hall|exact Hsep]. }
    rewrite plus_commit; rewrite ?Hr; cbn [prev rest caps exec];
      rewrite ?Heol; [|exact Hlx|discriminate].
    rewrite (taken_eq _ (String x t') sep) by reflexivity. reflexivity. }
  unfold match_here, bullet_line.
  rewrite exec_seq, exec_bol, Hbol, exec_seq, exec_one. unfold one.
  cbn [append rest caps prev].
  change (atom_ok flag_m (Cls false (any_of "-*")) "-") with true.
  cbn iota. rewrite exec_seq.
  assert (Hr : run_end flag_m ws (Some " "%char) [] (String x (t' ++ sep))
               = MState (Some " "%char) (String x (t' ++ sep)) []).
  { apply (run_end_at flag_m ws is_space _ _ "");
      [reflexivity|reflexivity|exact Hx]. }
  rewrite plus_commit; rewrite ?Hr;
    [|reflexivity|change (String x (t' ++ sep)) with (String x t' ++ sep);
                  rewrite Hdots; discriminate].
  change (String x (t' ++ sep)) with (String x t' ++ sep).
  rewrite Hdots. cbn [rest caps].
  rewrite (taken_eq _ (String "-" (String " " (String x t'))) sep)
    by reflexivity.
  reflexivity.
Qed.

(** After a match the search goes on behind it. *)
Lemma skip_over (fl : flags) (r : regex) (x s : string) :
  forall p,
    match_all_from fl r p (String.length x) (x ++ s)
    = match_all_from fl r (last_char p x) 0 s.
Proof.
  induction x as [|c x IH]; intros p; [reflexivity|].
  cbn [String.length append match_all_from last_char]. apply IH.
Qed.

(** No bullet begins with a newline. *)
Lemma blank_unmatched (blank s : string) :
  all is_nl blank = true ->
  forall p,
    match_all_from flag_m bullet_line p 0 (blank ++ s)
    = match_all_from flag_m bullet_line (last_char p blank) 0 s.
Proof.
  induction blank as [|c blank IH]; intros H p; [reflexivity|].
  cbn [all] in H. apply andb_true_iff in H as [Hc H].
  unfold is_nl in Hc. apply Ascii.eqb_eq in Hc. subst c.
  cbn [append match_all_from last_char].
  assert (E : match_here flag_m bullet_line p 0 (String nl (blank ++ s)) = None).
  { unfold match_here, bullet_line. rewrite exec_seq, exec_bol.
    destruct (at_bol flag_m _); reflexivity. }
  rewrite E. now apply IH.
Qed.

Lemma no_bullet_at_end (p : option ascii) :
  match_all_from flag_m bullet_line p 0 "" = [].
Proof.
  cbn [match_all_from]. unfold match_here, bullet_line.
  rewrite exec_seq, exec_bol. destruct (at_bol flag_m _); reflexivity.
Qed.

Lemma last_char_blank (blank : string) (p : option ascii) :
  all is_nl blank = true -> p = None \/ p = Some nl ->
  last_char p blank = None \/ last_char p blank = Some nl.
Proof.
  revert p. induction blank as [|c blank IH]; intros p H Hp; [exact Hp|].
  cbn [all] in H. apply andb_true_iff in H as [Hc H].
  unfold is_nl in Hc. apply Ascii.eqb_eq in Hc. subst c.
  cbn [last_char]. apply IH; auto.
Qed.

Lemma blank_stops (blank : string) :
  all is_nl blank = true -> stops in_line blank.
Proof.
  destruct blank as [|c blank]; [intros _; exact I|]. cbn [all stops].
  intros H. apply andb_true_iff in H as [Hc _].
  unfold is_nl in Hc. apply Ascii.eqb_eq in Hc. now subst c.
Qed.

(** The first bullet of a text, and where the search goes on. *)
Lemma bullet_first (p : option ascii) (t sep : string) :
  item t -> stops in_line sep -> p = None \/ p = Some nl ->
  match_all_from flag_m bullet_line p 0 ("- " ++ t ++ sep)
  = ("- " ++ t) ::
    match_all_from flag_m bullet_line (last_char (Some " "%char) t) 0 sep.
Proof.
  intros Hi Hsep Hp.
  pose proof (bullet_exec p t sep Hi Hsep Hp) as E.
  cbn [append] in *. cbn [match_all_from]. rewrite E.
  cbn [m_text String.length Nat.sub match_all_from]. f_equal.
  apply skip_over.
Qed.

(** The bullets of a list of items are found one by one. *)
Lemma bullets_matched (ts : list string) (trail : string) :
  Forall item ts -> all is_nl trail = true ->
  forall p, p = None \/ p = Some nl ->
    match_all_from flag_m bullet_line p 0 (bullets ts ++ trail)
    = map (fun t => "- " ++ t) ts.
Proof.
  intros Hts Htrail. induction Hts as [|t ts' Ht Hts' IH]; intros p Hp.
  - cbn [bullets append map].
    rewrite <- (app_nil_r trail), blank_unmatched by exact Htrail.
    apply no_bullet_at_end.
  - destruct ts' as [|t2 ts''].
    + cbn [bullets map]. rewrite app_assoc.
      rewrite (bullet_first p t trail Ht (blank_stops _ Htrail) Hp).
      f_equal.
      rewrite <- (app_nil_r trail), blank_unmatched by exact Htrail.
      apply no_bullet_at_end.
    + change (bullets (t :: t2 :: ts''))
        with ("- " ++ t ++ String nl (bullets (t2 :: ts''))).
      rewrite !app_assoc. cbn [append].
      change (String "-" (String " " (t ++ String nl (bullets (t2 :: ts'') ++ trail))))
        with ("- " ++ t ++ String nl (bullets (t2 :: ts'') ++ trail)).
      rewrite (bullet_first p t _ Ht) by (auto; reflexivity).
      cbn [map]. f_equal.
      cbn [match_all_from].
      assert (E' : match_here flag_m bullet_line
                     (last_char (Some " "%char) t) 0
                     (String nl (bullets (t2 :: ts'') ++ trail)) = None).
      { unfold match_here, bullet_line.
        rewrite exec_seq, exec_bol. destruct (at_bol flag_m _); reflexivity. }
      rewrite E'. apply IH. now right.
Qed.

(** *** No heading inside the list *)

Lemma quiet_line (a b : string) :
  all not_nl a = true -> quiet (a ++ b) = quiet b.
Proof.
  induction a as [|c a IH]; [reflexivity|]. cbn [all append quiet].
  intros H. apply andb_true_iff in H as [Hc H]. unfold not_nl in Hc.
  destruct (Ascii.eqb c nl); [discriminate|]. cbn [andb negb]. auto.
Qed.

Lemma quiet_blank (blank b : string) :
  all is_nl blank = true -> prefix "##" b = false ->
  quiet (blank ++ b) = quiet b.
Proof.
  induction blank as [|c blank IH]; [reflexivity|]. cbn [all append quiet].
  intros H Hb. apply andb_true_iff in H as [Hc H].
  rewrite (IH H Hb).
  destruct blank as [|d blank].
  - cbn [append]. rewrite Hb. now rewrite andb_false_r.
  - cbn [all] in H. apply andb_true_iff in H as [Hd _].
    unfold is_nl in Hd. apply Ascii.eqb_eq in Hd. subst d.
    cbn [append]. replace (prefix "##" (String nl (blank ++ b))) with false
      by reflexivity.
    now rewrite andb_false_r.
Qed.

Lemma in_line_not_nl (c : ascii) : in_line c = true -> not_nl c = true.
Proof.
  unfold in_line, not_nl, is_line_terminator.
  destruct (Ascii.eqb_spec c nl) as [->|]; [discriminate | reflexivity].
Qed.

Lemma quiet_bullets (ts : list string) (trail : string) :
  Forall item ts -> all is_nl trail = true ->
  quiet (bullets ts ++ trail) = true /\
  prefix "##" (bullets ts ++ trail) = false.
Proof.
  intros Hts Htrail.
  assert (Hq : quiet trail = true /\ prefix "##" trail = false).
  { split.
    - rewrite <- (app_nil_r trail). now rewrite quiet_blank.
    - destruct trail as [|c trail]; [reflexivity|]. cbn [all] in Htrail.
      apply andb_true_iff in Htrail as [Hc _].
      unfold is_nl in Hc. apply Ascii.eqb_eq in Hc. now subst c. }
  induction Hts as [|t ts' Ht Hts' IH]; [exact Hq|].
  assert (Hline : all not_nl ("- " ++ t) = true).
  { destruct Ht as (_ & Hall & _). cbn [append all].
    exact (all_impl _ _ _ in_line_not_nl Hall). }
  split; [|destruct ts'; reflexivity].
  destruct ts' as [|t2 ts''].
  - cbn [bullets]. rewrite quiet_line by exact Hline. apply Hq.
  - change (bullets (t :: t2 :: ts''))
      with ("- " ++ t ++ String nl (bullets (t2 :: ts''))).
    rewrite <- (app_assoc "- "), app_assoc, quiet_line by exact Hline.
    cbn [append quiet]. destruct IH as [-> ->]. reflexivity.
Qed.

(** X12.  A feature list is read back.  In a README that holds, behind
    a text without [#], a heading line [Features], [Key Features] or
    [What it does] of level one or two, then the items as bullets, one
    per line, with blank lines around them or not, and then the next
    heading of level two or more or the newline that ends the README,
    the features are the first six items, in their order. *)
Theorem features_read_back (pre heading tail lead trail term : string)
    (ts : list string) :
  all not_hash pre = true -> In heading feature_headings ->
  all not_nl tail = true ->
  all is_nl lead = true -> all is_nl trail = true ->
  Forall item ts -> section_closed term ->
  extract_features
    (with_section pre heading tail (lead ++ bullets ts ++ trail) term)
  = firstn 6 ts.
Proof.
  intros Hpre Hh Htail Hlead Htrail Hts Hterm.
  destruct (quiet_bullets ts trail Hts Htrail) as [Hq Hp].
  assert (Hbody : quiet (lead ++ bullets ts ++ trail) = true)
    by now rewrite quiet_blank.
  destruct (features_found pre heading tail _ term Hpre Hh Htail Hbody Hterm)
    as (m & Hm & Hg).
  unfold extract_features. rewrite Hm, Hg. unfold re_match_all.
  rewrite blank_unmatched by exact Hlead.
  rewrite (bullets_matched ts trail Hts Htrail)
    by (apply last_char_blank; auto).
  assert (Hback : forall l,
    Forall item l ->
    map (fun b => trim (re_replace plain bullet_mark "" b))
        (map (fun t => "- " ++ t) l) = l).
  { intros l Hl. induction Hl as [|t l Ht Hl IH]; [reflexivity|].
    cbn [map]. rewrite IH. f_equal.
    change ("- " ++ t) with (String "-" (" " ++ t)).
    rewrite (bullet_text "-" " " t eq_refl ltac:(discriminate) eq_refl).
    destruct Ht as (_ & _ & Htrim).
    pose proof (trimmed_stops t Htrim) as Hs.
    destruct t as [|c t]; [reflexivity|]. cbn [stops] in Hs.
    cbn [drop_while]. now rewrite Hs. }
  destruct ts as [|t ts']; [reflexivity|].
  cbn [map].
  change (("- " ++ t) :: map (fun t0 => "- " ++ t0) ts')
    with (map (fun t0 => "- " ++ t0) (t :: ts')).
  rewrite firstn_map. apply Hback.
  apply Forall_forall. intros x Hx. apply In_firstn in Hx.
  revert x Hx. now apply Forall_forall.
Qed.

Lemma features_read_back_witness :
  extract_features
    "A small tool.

## Features

- one
- two
- three
- four
- five
- six
- seven
- eight

## Usage
Run it.
"
  = ["one"; "two"; "three"; "four"; "five"; "six"].
Proof.
  assert (Hi : forall t, t <> "" -> all in_line t = true -> trim t = t ->
                 item t) by (intros t H1 H2 H3; now split).
  apply (features_read_back "A small tool.

" "## Features" "" (String nl "") (String nl "")
           (String nl "## Usage
Run it.
")
           ["one"; "two"; "three"; "four"; "five"; "six"; "seven"; "eight"]);
    try reflexivity.
  - right. left. reflexivity.
  - repeat constructor; apply Hi; (discriminate || reflexivity).
  - right. eexists. reflexivity.
Defined.

End SectionFacts.



(** ** parseReadme: the installation steps read back *)

Module InstallFacts.
Import StrFacts RegexFacts ReadmeFacts NamingFacts ListFacts SectionFacts.
Import GithubFetcher ReadmeSpec SectionSpec.

Lemma install_heading (h : string) (k : mstate -> option mstate)
    (p : option ascii) (s : string) :
  In h install_headings ->
  exec flag_i (One (Lit "#"))
    (exec flag_i (Opt (Lit "#"))
       (exec flag_i (Star ws)
          (exec flag_i
             (lit "Installation" <+> lit "Getting Started" <+>
              lit "Quick Start" <+> lit "Setup")%re
             k)))
    (MState p (h ++ s) [])
  = k (MState (last_char None h) s []).
Proof.
  intros H.
  repeat (destruct H as [<-|H];
          [cbn [append last_char]; lazy; now destruct (k _)|]).
  destruct H.
Qed.

Lemma quiet_plain (body : string) :
  all not_hash body = true -> quiet body = true.
Proof.
  induction body as [|c body IH]; [reflexivity|]. cbn [all quiet].
  intros H. apply andb_true_iff in H as [_ H]. rewrite (IH H).
  destruct body as [|d body]; [now rewrite andb_false_r|].
  cbn [all] in H. apply andb_true_iff in H as [Hd _].
  unfold not_hash in Hd.
  assert (E : prefix "##" (String d body) = false).
  { destruct (prefix "##" (String d body)) eqn:E; [|reflexivity].
    apply prefix_iff in E as [b E]. injection E as -> _. discriminate. }
  rewrite E. now rewrite andb_false_r.
Qed.

(** The installation section is found behind a text without [#]. *)
Lemma install_found (pre h tail body term : string) :
  all not_hash pre = true -> In h install_headings ->
  all not_nl tail = true -> quiet body = true -> section_closed term ->
  exists m,
    re_match flag_i install_section (with_section pre h tail body term)
    = Some m /\ group 1 m = body.
Proof.
  intros Hpre Hh Htail Hq Ht. unfold re_match, with_section.
  rewrite search_from_skip.
  - erewrite search_from_here.
    2:{ change (exec flag_i install_section Some ?st)
          with (exec flag_i (One (Lit "#"))
                  (exec flag_i (Opt (Lit "#"))
                     (exec flag_i (Star ws)
                        (exec flag_i
                           (lit "Installation" <+> lit "Getting Started" <+>
                            lit "Quick Start" <+> lit "Setup")%re
                           (exec flag_i
                              (Star not_newline >> One (Lit nl) >>
                               Group 1 (LazyStar anything) >> section_end)%re
                              Some))))
                  st).
        rewrite (install_heading h _ _ _ Hh).
        apply section_read; assumption. }
    eexists. split; [reflexivity|]. reflexivity.
  - intros a b -> Hb. destruct b as [|c b]; [congruence|].
    rewrite all_app in Hpre. apply andb_true_iff in Hpre as [_ Hpre].
    cbn [all] in Hpre. apply andb_true_iff in Hpre as [Hc _].
    unfold install_section. rewrite exec_seq, exec_one. unfold one.
    cbn [append rest]. rewrite hash_i. unfold not_hash in Hc.
    now destruct (Ascii.eqb c "#").
Qed.

(** *** Code blocks *)

Lemma plain_no_tick (c : ascii) :
  plain_char c = true -> Ascii.eqb c "`" = false.
Proof.
  unfold plain_char. destruct (Ascii.eqb c "`"); [discriminate | reflexivity].
Qed.

Lemma plain_not_hash (c : ascii) : plain_char c = true -> not_hash c = true.
Proof.
  unfold plain_char, not_hash. intros H.
  now apply andb_true_iff in H as [_ H].
Qed.

Lemma word_no_tick (c : ascii) : is_word c = true -> Ascii.eqb c "`" = false.
Proof.
  destruct (Ascii.eqb_spec c "`") as [->|]; [discriminate | reflexivity].
Qed.

Lemma anything_plain (c : ascii) : atom_ok plain anything c = true.
Proof. cbn. now destruct (is_space c). Qed.

(** No fence begins at a code unit that is not a backquote. *)
Lemma fence_absent (k : mstate -> option mstate) (p : option ascii)
    (c : ascii) (s : string) (cs : list (nat * string)) :
  Ascii.eqb c "`" = false ->
  exec plain (lit fence) k (MState p (String c s) cs) = None.
Proof.
  intros H. rewrite exec_lit. unfold fence. cbn [strip_prefix].
  now rewrite H.
Qed.

(** A match at the front of a text, and where the search goes on. *)
Lemma found_first (fl : flags) (r : regex) (p : option ascii)
    (c : ascii) (x rest : string) (m : rmatch) :
  match_here fl r p 0 (String c (x ++ rest)) = Some m ->
  m_text m = String c x ->
  match_all_from fl r p 0 (String c (x ++ rest))
  = String c x :: match_all_from fl r (last_char (Some c) x) 0 rest.
Proof.
  intros Hm Ht. cbn [match_all_from]. rewrite Hm, Ht.
  cbn [String.length Nat.sub]. rewrite Nat.sub_0_r.
  f_equal. apply skip_over.
Qed.

Lemma code_block_absent (p : option ascii) (c : ascii) (s : string) :
  Ascii.eqb c "`" = false ->
  match_here plain code_block p 0 (String c s) = None.
Proof.
  intros H. unfold match_here, code_block.
  now rewrite exec_seq, fence_absent.
Qed.

Lemma code_block_at_end (p : option ascii) :
  match_all_from plain code_block p 0 "" = [].
Proof. reflexivity. Qed.

(** No block begins in a text without backquote. *)
Lemma prose_unmatched (x s : string) :
  all plain_char x = true ->
  forall p,
    match_all_from plain code_block p 0 (x ++ s)
    = match_all_from plain code_block (last_char p x) 0 s.
Proof.
  induction x as [|c x IH]; intros H p; [reflexivity|].
  cbn [all] in H. apply andb_true_iff in H as [Hc H].
  cbn [append match_all_from last_char].
  rewrite (code_block_absent p c _ (plain_no_tick c Hc)). now apply IH.
Qed.

(** What stands between the fences of a block. *)
Lemma block_split (st : step) (rest : string) :
  block st ++ rest
  = fence ++ (lang st ++ String nl (cmd st ++ String nl "")) ++ fence ++ rest.
Proof.
  unfold block. rewrite !app_assoc. cbn [append].
  rewrite !app_assoc. cbn [append]. reflexivity.
Qed.

Lemma inside_no_tick (st : step) :
  well_formed st ->
  all (fun c => negb (Ascii.eqb c "`"))
      (lang st ++ String nl (cmd st ++ String nl "")) = true.
Proof.
  intros (_ & Hl & _ & _ & Hc).
  rewrite all_app. apply andb_true_iff. split.
  - apply (all_impl is_word); [|exact Hl].
    intros c H. now rewrite (word_no_tick c H).
  - cbn [all]. change (negb (Ascii.eqb nl "`")) with true. cbn [andb].
    rewrite all_app. apply andb_true_iff. split; [|reflexivity].
    apply (all_impl plain_char); [|exact Hc].
    intros c H. now rewrite (plain_no_tick c H).
Qed.

(** A block is matched whole, from its first fence to its second. *)
Lemma block_exec (p : option ascii) (st : step) (after : string) :
  well_formed st ->
  match_here plain code_block p 0 (block st ++ after)
  = Some (RMatch 0 (block st) [] after).
Proof.
  intros Hw. unfold match_here.
  assert (E : exec plain code_block Some (MState p (block st ++ after) [])
              = Some (MState (Some "`"%char) after [])).
  { rewrite block_split. unfold code_block.
    rewrite exec_seq, exec_lit, strip_prefix_app.
    rewrite exec_seq, exec_lazy. cbn [prev caps rest].
    apply lazy_star_first.
    - apply anything_plain.
    - intros x y E Hy. destruct y as [|c y]; [congruence|].
      cbn [append]. apply fence_absent.
      pose proof (inside_no_tick st Hw) as Hn. rewrite E, all_app in Hn.
      apply andb_true_iff in Hn as [_ Hn]. cbn [all] in Hn.
      apply andb_true_iff in Hn as [Hc _]. now destruct (Ascii.eqb c "`").
    - now rewrite exec_lit, strip_prefix_app. }
  rewrite E. cbn [rest caps]. now rewrite taken_app.
Qed.

Lemma found_text (fl : flags) (r : regex) (p : option ascii)
    (txt after : string) (m : rmatch) :
  txt <> "" ->
  match_here fl r p 0 (txt ++ after) = Some m -> m_text m = txt ->
  match_all_from fl r p 0 (txt ++ after)
  = txt :: match_all_from fl r (last_char p txt) 0 after.
Proof.
  destruct txt as [|c x]; [congruence|]. intros _ Hm Ht.
  cbn [append last_char] in *. exact (found_first fl r p c x after m Hm Ht).
Qed.

Lemma block_not_empty (st : step) : block st <> "".
Proof. unfold block, fence. discriminate. Qed.

(** The blocks of the steps are found one by one. *)
Lemma blocks_matched (steps : list step) (trail : string) :
  Forall well_formed steps -> all plain_char trail = true ->
  forall p,
    match_all_from plain code_block p 0 (fenced steps ++ trail)
    = map block steps.
Proof.
  intros Hs Htrail. induction Hs as [|st more Hst Hmore IH]; intros p.
  - cbn [fenced append map].
    rewrite <- (app_nil_r trail), prose_unmatched by exact Htrail.
    reflexivity.
  - cbn [fenced map]. rewrite !app_assoc.
    rewrite prose_unmatched by apply Hst.
    rewrite (found_text plain code_block (last_char p (prose st)) (block st)
               (fenced more ++ trail)
               (RMatch 0 (block st) [] (fenced more ++ trail))
               (block_not_empty st) (block_exec _ st _ Hst) eq_refl).
    f_equal. apply IH.
Qed.

(** *** The commands of a block *)

Lemma replace_skip_over (fl : flags) (r : regex) (t x s : string) :
  forall before p,
    replace_all_from fl r t before p (String.length x) (x ++ s)
    = replace_all_from fl r t (before ++ x) (last_char p x) 0 s.
Proof.
  induction x as [|c x IH]; intros before p.
  - cbn [String.length append last_char]. now rewrite app_nil_r.
  - cbn [String.length append replace_all_from last_char].
    rewrite IH. now rewrite app_assoc.
Qed.

Lemma replace_found (fl : flags) (r : regex) (t before : string)
    (p : option ascii) (txt after : string) (m : rmatch) :
  txt <> "" ->
  match_here fl r p 0 (txt ++ after) = Some m -> m_text m = txt ->
  replace_all_from fl r t before p 0 (txt ++ after)
  = expand m before (ngroups r) t ++
    replace_all_from fl r t (before ++ txt) (last_char p txt) 0 after.
Proof.
  destruct txt as [|c x]; [congruence|]. intros _ Hm Ht.
  cbn [append last_char] in *. cbn [replace_all_from]. rewrite Hm, Ht.
  cbn [String.length]. f_equal. rewrite replace_skip_over.
  f_equal. now rewrite app_assoc.
Qed.

Lemma fence_mark_absent (p : option ascii) (c : ascii) (s : string) :
  Ascii.eqb c "`" = false ->
  match_here plain fence_mark p 0 (String c s) = None.
Proof.
  intros H. unfold match_here, fence_mark.
  now rewrite exec_seq, fence_absent.
Qed.

(** A text without backquote is kept as it is. *)
Lemma replace_copy (t x s : string) :
  all (fun c => negb (Ascii.eqb c "`")) x = true ->
  forall before p,
    replace_all_from plain fence_mark t before p 0 (x ++ s)
    = x ++ replace_all_from plain fence_mark t (before ++ x) (last_char p x) 0 s.
Proof.
  induction x as [|c x IH]; intros H before p.
  - cbn [append last_char]. now rewrite app_nil_r.
  - cbn [all] in H. apply andb_true_iff in H as [Hc H].
    cbn [append replace_all_from last_char].
    rewrite fence_mark_absent by now destruct (Ascii.eqb c "`").
    f_equal. rewrite IH by exact H. now rewrite app_assoc.
Qed.

(** The first fence of a block goes with its tag and the newline. *)
Lemma open_fence (p : option ascii) (tag s : string) :
  all is_word tag = true ->
  match_here plain fence_mark p 0 ((fence ++ tag ++ String nl "") ++ s)
  = Some (RMatch 0 (fence ++ tag ++ String nl "") [] s).
Proof.
  intros Ht. unfold match_here.
  assert (E : exec plain fence_mark Some
                (MState p ((fence ++ tag ++ String nl "") ++ s) [])
              = Some (MState (Some nl) s [])).
  { rewrite !app_assoc. cbn [append]. unfold fence_mark.
    rewrite exec_seq, exec_lit, strip_prefix_app.
    rewrite exec_seq, exec_star. cbn [prev caps rest].
    assert (Hr : forall q,
      run_end plain word q [] (tag ++ String nl s)
      = MState (last_char q tag) (String nl s) []).
    { intros q. apply (run_end_at plain word is_word);
        [reflexivity|exact Ht|reflexivity]. }
    rewrite star_commit; rewrite Hr; [reflexivity | discriminate]. }
  rewrite E. cbn [rest caps]. now rewrite taken_app.
Qed.

Lemma close_fence (p : option ascii) :
  match_here plain fence_mark p 0 (fence ++ "")
  = Some (RMatch 0 fence [] "").
Proof. reflexivity. Qed.

Lemma trimEnd_blank (a b : string) :
  all is_space b = true -> trimEnd (a ++ b) = trimEnd a.
Proof.
  intros Hb. induction a as [|c a IH].
  - cbn [append]. induction b as [|d b IHb]; [reflexivity|].
    cbn [all] in Hb. apply andb_true_iff in Hb as [Hd Hb].
    cbn [trimEnd]. now rewrite (IHb Hb), Hd.
  - cbn [append trimEnd]. now rewrite IH.
Qed.

(** The commands of a block: what stands between its fences, without
    the tag. *)
Lemma block_commands (st : step) :
  well_formed st ->
  trim (re_replace_all plain fence_mark "" (block st)) = cmd st.
Proof.
  intros Hw. pose proof Hw as (_ & Hl & Hne & Htrim & Hc).
  assert (E : re_replace_all plain fence_mark "" (block st)
              = cmd st ++ String nl "").
  { unfold re_replace_all.
    replace (block st)
      with ((fence ++ lang st ++ String nl "") ++
            (cmd st ++ String nl "") ++ fence ++ "")
      by (unfold block; rewrite ?app_assoc; cbn [append];
          rewrite ?app_assoc; cbn [append]; now rewrite ?app_nil_r).
    rewrite (replace_found plain fence_mark "" "" None
               (fence ++ lang st ++ String nl "")
               ((cmd st ++ String nl "") ++ fence ++ "")
               (RMatch 0 (fence ++ lang st ++ String nl "") []
                  ((cmd st ++ String nl "") ++ fence ++ ""))
               ltac:(unfold fence; discriminate)
               (open_fence None (lang st) _ Hl) eq_refl).
    cbn [expand append].
    rewrite replace_copy.
    2:{ rewrite all_app. apply andb_true_iff. split; [|reflexivity].
        apply (all_impl plain_char); [|exact Hc].
        intros c H. now rewrite (plain_no_tick c H). }
    match goal with
    | |- context [replace_all_from plain fence_mark "" ?b ?q 0 (fence ++ "")] =>
        rewrite (replace_found plain fence_mark "" b q fence ""
                   (RMatch 0 fence [] "")
                   ltac:(unfold fence; discriminate)
                   (close_fence q) eq_refl)
    end.
    cbn [expand append replace_all_from].
    unfold match_here, fence_mark. rewrite exec_seq, exec_lit.
    cbn. now rewrite !app_nil_r. }
  rewrite E. unfold trim.
  rewrite trimStart_id.
  2:{ apply trimmed_stops in Htrim. destruct (cmd st); [congruence|exact Htrim]. }
  rewrite trimEnd_blank by reflexivity.
  unfold trim in Htrim.
  rewrite trimStart_id in Htrim by now apply trimmed_stops.
  exact Htrim.
Qed.

Lemma word_not_hash (c : ascii) : is_word c = true -> not_hash c = true.
Proof.
  unfold not_hash.
  destruct (Ascii.eqb_spec c "#") as [->|]; [discriminate | reflexivity].
Qed.

Lemma fenced_no_hash (steps : list step) (trail : string) :
  Forall well_formed steps -> all plain_char trail = true ->
  all not_hash (fenced steps ++ trail) = true.
Proof.
  intros Hs Htrail. induction Hs as [|st more Hst Hmore IH].
  - exact (all_impl _ _ _ plain_not_hash Htrail).
  - destruct Hst as (Hp & Hl & _ & _ & Hc).
    cbn [fenced]. unfold block. rewrite !all_app. cbn [all].
    rewrite !all_app. fold (all not_hash (fenced more ++ trail)).
    rewrite (all_impl _ _ _ plain_not_hash Hp),
            (all_impl _ _ _ word_not_hash Hl),
            (all_impl _ _ _ plain_not_hash Hc).
    rewrite all_app in IH. apply andb_true_iff in IH as [-> ->].
    reflexivity.
Qed.

(** X13.  The installation steps are read back.  In a README that
    holds, behind a text without [#], a heading line [Installation],
    [Getting Started], [Quick Start] or [Setup] of level one or two,
    then steps written as fenced blocks with words between them, and
    then the next heading of level two or more or the newline that ends
    the README, the installation is the list of the commands of the
    blocks, all of them, in their order, without fences and tags. *)
Theorem installation_read_back (pre heading tail trail term : string)
    (steps : list step) :
  all not_hash pre = true -> In heading install_headings ->
  all not_nl tail = true ->
  Forall well_formed steps -> all plain_char trail = true ->
  section_closed term ->
  extract_installation
    (with_section pre heading tail (fenced steps ++ trail) term)
  = map cmd steps.
Proof.
  intros Hpre Hh Htail Hs Htrail Hterm.
  assert (Hq : quiet (fenced steps ++ trail) = true)
    by now apply quiet_plain, fenced_no_hash.
  destruct (install_found pre heading tail _ term Hpre Hh Htail Hq Hterm)
    as (m & Hm & Hg).
  unfold extract_installation. rewrite Hm, Hg. unfold re_match_all.
  rewrite (blocks_matched steps trail Hs Htrail).
  assert (Hback :
    filter (fun c => 0 <? String.length c)
      (map (fun b => trim (re_replace_all plain fence_mark "" b))
           (map block steps)) = map cmd steps).
  { clear Hq Hm Hg. induction Hs as [|st more Hst Hmore IH]; [reflexivity|].
    cbn [map filter]. rewrite (block_commands st Hst), IH.
    destruct Hst as (_ & _ & Hne & _).
    destruct (cmd st); [congruence | reflexivity]. }
  destruct steps as [|st more]; [reflexivity|]. exact Hback.
Qed.

Lemma installation_read_back_witness :
  extract_installation
    "A small tool.

## Installation

Get the packages:

```bash
npm install
npm run build
```

Then start it:

```
npm start
```

## Usage
Run it.
"
  = ["npm install
npm run build"; "npm start"].
Proof.
  apply (installation_read_back "A small tool.

" "## Installation" "" (String nl "")
           (String nl "## Usage
Run it.
")
           [Step "
Get the packages:

" "bash" "npm install
npm run build";
            Step "

Then start it:

" "" "npm start"]);
    try reflexivity.
  - right. left. reflexivity.
  - repeat constructor; cbn; discriminate.
  - right. eexists. reflexivity.
Defined.

End InstallFacts.



(** ** updateBrowseHtml on a page in the expected layout *)

Module LayoutFacts.
Import StrFacts RegexFacts UrlFacts NamingFacts ListFacts SectionFacts UpdaterFacts.
Import TemplateGenerator BrowseUpdater LayoutSpec Samples.

(** *** Texts *)

(** Two ways to cut a text: one cut comes first. *)
Lemma app_eq_app (a b c d : string) :
  a ++ b = c ++ d ->
  (exists z, c = a ++ z /\ b = z ++ d) \/
  (exists z, a = c ++ z /\ d = z ++ b).
Proof.
  revert c. induction a as [|x a IH]; intros c H.
  - left. exists c. auto.
  - destruct c as [|y c].
    + right. exists (String x a). auto.
    + cbn [append] in H. injection H as -> H.
      destruct (IH c H) as [(z & -> & ->)|(z & -> & ->)];
        [left | right]; exists z; auto.
Qed.

Lemma count_none (f : ascii -> bool) (s : string) :
  all (fun c => negb (f c)) s = true -> count f s = 0.
Proof.
  induction s as [|c s IH]; [reflexivity|]. cbn [all count].
  intros H. apply andb_true_iff in H as [Hc H]. rewrite (IH H).
  now destruct (f c).
Qed.

Lemma space_not_lt (s : string) :
  all is_space s = true -> count is_lt s = 0.
Proof.
  intros H. apply count_none. apply (all_impl is_space); [|exact H].
  intros c Hc. unfold is_lt.
  destruct (Ascii.eqb_spec c "<") as [->|]; [discriminate | reflexivity].
Qed.

Lemma space_not_bang (s : string) :
  all is_space s = true -> count is_bang s = 0.
Proof.
  intros H. apply count_none. apply (all_impl is_space); [|exact H].
  intros c Hc. unfold is_bang.
  destruct (Ascii.eqb_spec c "!") as [->|]; [discriminate | reflexivity].
Qed.

(** *** The pattern at the closing tags *)

Lemma tag_refuses (tag : string) (k : mstate -> option mstate)
    (pv : option ascii) (c : ascii) (s : string) (cs : list (nat * string)) :
  is_space c = true ->
  exec plain (lit (String "<" tag)) k (MState pv (String c s) cs) = None.
Proof.
  intros Hc. rewrite exec_lit. cbn [strip_prefix].
  destruct (Ascii.eqb_spec c "<") as [->|]; [discriminate | reflexivity].
Qed.

(** A tag and the white space behind it, in front of something that
    does not begin with white space. *)
Lemma tag_gap (tag g s : string) (r : regex) (k : mstate -> option mstate)
    (p : option ascii) (cs : list (nat * string)) :
  all is_space g = true -> stops is_space s ->
  (forall pv c s', is_space c = true ->
     exec plain r k (MState pv (String c s') cs) = None) ->
  exec plain (lit tag >> Star ws >> r) k (MState p (tag ++ g ++ s) cs)
  = exec plain r k (MState (last_char (last_char p tag) g) s cs).
Proof.
  intros Hg Hs Hk. rewrite exec_seq, exec_lit, strip_prefix_app.
  rewrite exec_seq, exec_star. cbn [prev caps rest].
  rewrite star_refused by (intros pv c s' Hc; now apply Hk).
  now rewrite (run_end_app ws is_space _ _ g s (fun c => eq_refl) Hg Hs).
Qed.

(** The white space in front of the comment: the pattern asks for a
    newline in it. *)
Lemma gap_to_marker (kf : mstate -> option mstate) (y after : string)
    (p : option ascii) (cs : list (nat * string)) :
  all is_space y = true ->
  exec plain (Star ws >> lit marker) kf (MState p (y ++ marker ++ after) cs)
  = kf (MState (Some ">"%char) after cs).
Proof.
  intros Hy. rewrite exec_seq, exec_star. cbn [prev caps rest].
  rewrite star_refused
    by (intros pv c s' Hc; unfold marker; now apply tag_refuses).
  rewrite (run_end_app ws is_space _ _ y (marker ++ after)
             (fun c => eq_refl) Hy) by reflexivity.
  cbn [prev caps rest]. rewrite exec_lit, strip_prefix_app.
  reflexivity.
Qed.

Lemma gap_with_newline (kf : mstate -> option mstate) (g after : string)
    (cs : list (nat * string)) :
  all is_space g = true ->
  forall p,
    star plain ws (exec plain (One (Lit nl) >> Star ws >> lit marker) kf)
      p cs (g ++ marker ++ after)
    = if all no_newline g then None else kf (MState (Some ">"%char) after cs).
Proof.
  intros Hg.
  assert (Hk : forall q c y,
    all is_space y = true ->
    exec plain (One (Lit nl) >> Star ws >> lit marker) kf
      (MState q (String c (y ++ marker ++ after)) cs)
    = if no_newline c then None else kf (MState (Some ">"%char) after cs)).
  { intros q c y Hy. rewrite exec_seq, exec_one. unfold one.
    cbn [rest caps prev atom_ok plain ignoreCase]. unfold no_newline.
    destruct (Ascii.eqb c nl); [|reflexivity]. cbn [negb].
    now apply gap_to_marker. }
  induction g as [|c g IH]; intros p.
  - cbn [append all]. unfold marker. reflexivity.
  - cbn [all] in Hg. apply andb_true_iff in Hg as [Hc Hg].
    cbn [append star all].
    change (atom_ok plain ws c) with (is_space c). rewrite Hc.
    rewrite (IH Hg), (Hk p c g Hg).
    destruct (all no_newline g); destruct (no_newline c); cbn [andb];
      try reflexivity;
      destruct (kf (MState (Some ">"%char) after cs)) eqn:E;
      rewrite ?E; reflexivity.
Qed.

(** The pattern succeeds at the closing tags, and takes them with the
    comment. *)
Lemma anchor_exec (p : option ascii) (g1 g2 g3 g4 after : string) :
  all is_space g1 = true -> all is_space g2 = true ->
  all is_space g3 = true -> all is_space g4 = true ->
  all no_newline g4 = false ->
  exec plain insertPattern Some
    (MState p (closing_tags g1 g2 g3 g4 ++ marker ++ after) [])
  = Some (MState (Some ">"%char) after
            [(1, closing_tags g1 g2 g3 g4 ++ marker)]).
Proof.
  intros H1 H2 H3 H4 Hn. unfold insertPattern. rewrite exec_group.
  assert (Hr : forall tag r k pv c s' cs,
    is_space c = true ->
    exec plain (lit (String "<" tag) >> r) k (MState pv (String c s') cs)
    = None).
  { intros tag r k pv c s' cs Hc. rewrite exec_seq. now apply tag_refuses. }
  unfold closing_tags. rewrite !app_assoc.
  rewrite tag_gap; [|exact H1|reflexivity|intros; now apply Hr].
  rewrite tag_gap; [|exact H2|reflexivity|intros; now apply Hr].
  rewrite tag_gap; [|exact H3|reflexivity|intros; now apply Hr].
  rewrite exec_seq, exec_lit, strip_prefix_app, exec_seq, exec_star.
  cbn [prev caps rest].
  rewrite gap_with_newline by exact H4. rewrite Hn.
  cbn [prev rest caps]. f_equal. f_equal. f_equal. f_equal.
  set (tags := "</div>" ++ g1 ++ "</div>" ++ g2 ++ "</div>" ++ g3 ++
               "</section>" ++ g4).
  replace ("</div>" ++ g1 ++ "</div>" ++ g2 ++ "</div>" ++ g3 ++
           "</section>" ++ g4 ++ marker ++ after)
    with ((tags ++ marker) ++ after)
    by (unfold tags; now rewrite !app_assoc).
  rewrite taken_app. unfold tags. now rewrite !app_assoc.
Qed.

(** *** No anchor in front of the first comment *)

Lemma lit_consumes (m : string) (k : mstate -> option mstate)
    (st res : mstate) :
  exec plain (lit m) k st = Some res ->
  exists b, rest st = m ++ b /\
            k (MState (last_char (prev st) m) b (caps st)) = Some res.
Proof.
  destruct st as [p s cs]. rewrite exec_lit. cbn [rest prev caps].
  destruct (strip_prefix m s) as [b|] eqn:E; [|discriminate].
  intros H. exists b. split; [now apply strip_prefix_inv | exact H].
Qed.

Lemma last_space (w : string) (c : ascii) :
  all is_space w = true -> is_space c = true ->
  exists d, last_char (Some c) w = Some d /\ is_space d = true.
Proof.
  revert c. induction w as [|x w IH]; intros c Hw Hc; [now exists c|].
  cbn [all] in Hw. apply andb_true_iff in Hw as [Hx Hw].
  cbn [last_char]. now apply IH.
Qed.

(** What the pattern takes in front of the comment: four tags and white
    space, with a newline in the last run. *)
Lemma match_shape (p : option ascii) (s : string) (res : mstate) :
  exec plain insertPattern Some (MState p s []) = Some res ->
  exists M after,
    s = M ++ marker ++ after /\
    count is_lt M = 4 /\ count is_bang M = 0 /\
    (exists M', M = String "<" M') /\
    (exists d, last_char None M = Some d /\ is_space d = true).
Proof.
  unfold insertPattern. rewrite exec_group. intros H.
  rewrite exec_seq in H. apply lit_consumes in H as (b1 & E1 & H).
  rewrite exec_seq, exec_star in H. apply star_consumes in H as (w1 & b2 & E2 & W1 & H).
  rewrite exec_seq in H. apply lit_consumes in H as (b3 & E3 & H).
  rewrite exec_seq, exec_star in H. apply star_consumes in H as (w2 & b4 & E4 & W2 & H).
  rewrite exec_seq in H. apply lit_consumes in H as (b5 & E5 & H).
  rewrite exec_seq, exec_star in H. apply star_consumes in H as (w3 & b6 & E6 & W3 & H).
  rewrite exec_seq in H. apply lit_consumes in H as (b7 & E7 & H).
  rewrite exec_seq, exec_star in H. apply star_consumes in H as (w4 & b8 & E8 & W4 & H).
  rewrite exec_seq, exec_one in H. apply one_consumes in H as (c & b9 & E9 & Hc & H).
  rewrite exec_seq, exec_star in H. apply star_consumes in H as (w5 & b10 & E10 & W5 & H).
  apply lit_consumes in H as (after & E11 & _).
  cbn [rest prev caps] in *.
  assert (Hnl : c = nl).
  { cbn in Hc. now apply Ascii.eqb_eq in Hc. }
  subst c. subst.
  exists ("</div>" ++ w1 ++ "</div>" ++ w2 ++ "</div>" ++ w3 ++ "</section>" ++
          w4 ++ String nl w5), after.
  assert (S1 : all is_space w1 = true) by exact W1.
  assert (S2 : all is_space w2 = true) by exact W2.
  assert (S3 : all is_space w3 = true) by exact W3.
  assert (S4 : all is_space w4 = true) by exact W4.
  assert (S5 : all is_space w5 = true) by exact W5.
  split; [now rewrite !app_assoc|]. split; [|split; [|split]].
  - rewrite !count_app. cbn [count].
    rewrite (space_not_lt w1 S1), (space_not_lt w2 S2), (space_not_lt w3 S3),
            (space_not_lt w4 S4), (space_not_lt w5 S5).
    reflexivity.
  - rewrite !count_app. cbn [count].
    rewrite (space_not_bang w1 S1), (space_not_bang w2 S2),
            (space_not_bang w3 S3), (space_not_bang w4 S4),
            (space_not_bang w5 S5).
    reflexivity.
  - eexists. reflexivity.
  - rewrite !last_char_app. cbn [last_char]. now apply last_space.
Qed.

Lemma tags_count (g1 g2 g3 g4 : string) :
  all is_space g1 = true -> all is_space g2 = true ->
  all is_space g3 = true -> all is_space g4 = true ->
  count is_lt (closing_tags g1 g2 g3 g4) = 4.
Proof.
  intros S1 S2 S3 S4. unfold closing_tags. rewrite !count_app.
  cbn [count].
  now rewrite (space_not_lt g1 S1), (space_not_lt g2 S2),
              (space_not_lt g3 S3), (space_not_lt g4 S4).
Qed.

(** A text that goes on with the comment, cut later: the piece between
    the cuts begins as the comment does. *)
Lemma comment_start (z x y : string) :
  marker ++ x = z ++ marker ++ y ->
  z = "" \/ z = "<" \/ exists z', z = String "<" (String "!" z').
Proof.
  intros H. destruct z as [|a z]; [now left|]. right.
  cbn [append] in H. unfold marker in H at 1. cbn [append] in H.
  injection H as <- H. destruct z as [|b z]; [now left|]. right.
  cbn [append] in H. injection H as <- H. now exists z.
Qed.

Lemma shorter_prefix (x u y v : string) :
  x ++ u = y ++ v -> String.length x <= String.length y ->
  exists t, y = x ++ t.
Proof.
  intros H L. destruct (app_eq_app _ _ _ _ H) as [(z & -> & _)|(z & -> & _)].
  - now exists z.
  - rewrite length_app in L. destruct z; [|cbn in L; lia].
    exists "". now rewrite !app_nil_r.
Qed.

(** In front of the tags that close the gallery, with no comment before
    theirs, the pattern matches nowhere. *)
Lemma no_earlier_anchor (a b g1 g2 g3 g4 after : string) :
  all is_space g1 = true -> all is_space g2 = true ->
  all is_space g3 = true -> all is_space g4 = true ->
  includes ((a ++ b) ++ closing_tags g1 g2 g3 g4 ++ marker_head) marker
  = false ->
  b <> "" ->
  exec plain insertPattern Some
    (MState (last_char None a)
            (b ++ closing_tags g1 g2 g3 g4 ++ marker ++ after) [])
  = None.
Proof.
  intros S1 S2 S3 S4 Hn Hb.
  destruct (exec _ _ _ _) as [res|] eqn:E; [exfalso|reflexivity].
  apply match_shape in E
    as (M & after' & Es & Clt & Cbang & (M' & EM) & (d & Ld & Sd)).
  pose proof (tags_count g1 g2 g3 g4 S1 S2 S3 S4) as Ct.
  set (tags := closing_tags g1 g2 g3 g4) in *.
  assert (Same : M = b ++ tags -> False).
  { intros ->. rewrite count_app, Ct in Clt.
    destruct b as [|c b]; [now apply Hb|].
    cbn [append] in EM. injection EM as -> _.
    cbn [count] in Clt. change (is_lt "<") with true in Clt.
    cbn in Clt. lia. }
  rewrite <- (app_assoc b tags) in Es.
  destruct (app_eq_app _ _ _ _ Es) as [(z & EMz & Ez)|(z & Ebz & Ez)].
  - destruct (comment_start z after after' Ez) as [->|[->|(z' & ->)]].
    + apply Same. now rewrite EMz, app_nil_r.
    + rewrite EMz, last_char_app in Ld. cbn [last_char] in Ld.
      injection Ld as <-. discriminate Sd.
    + rewrite EMz, count_app in Cbang. cbn [count] in Cbang.
      change (is_bang "<") with false in Cbang.
      change (is_bang "!") with true in Cbang.
      cbn in Cbang. lia.
  - destruct z as [|c z].
    + apply Same. now rewrite Ebz, app_nil_r.
    + assert (Ez' : marker ++ after'
                    = (String c z ++ marker_head) ++ ">" ++ after).
      { rewrite Ez. change marker with (marker_head ++ ">").
        now rewrite !app_assoc. }
      apply shorter_prefix in Ez' as [t Et].
      * assert (Hin : includes ((a ++ b) ++ tags ++ marker_head) marker
                      = true).
        { apply includes_iff. exists (a ++ M), t.
          rewrite <- Et, !app_assoc. f_equal.
          rewrite <- (app_assoc b tags), <- (app_assoc M).
          now rewrite Ebz. }
        rewrite Hin in Hn. discriminate.
      * rewrite length_app. cbn. lia.
Qed.

(** The anchor is found where the closing tags begin. *)
Lemma anchor_found (before g1 g2 g3 g4 after : string) :
  all is_space g1 = true -> all is_space g2 = true ->
  all is_space g3 = true -> all is_space g4 = true ->
  all no_newline g4 = false ->
  includes (before ++ closing_tags g1 g2 g3 g4 ++ marker_head) marker
  = false ->
  re_match plain insertPattern
    (before ++ closing_tags g1 g2 g3 g4 ++ marker ++ after)
  = Some (RMatch (String.length before)
                 (closing_tags g1 g2 g3 g4 ++ marker)
                 [(1, closing_tags g1 g2 g3 g4 ++ marker)] after).
Proof.
  intros S1 S2 S3 S4 N4 Hn. unfold re_match.
  rewrite search_from_skip.
  - rewrite (search_from_here plain insertPattern _ _ _ _
               (anchor_exec _ g1 g2 g3 g4 after S1 S2 S3 S4 N4)).
    cbn [rest caps]. f_equal. f_equal.
    rewrite <- (app_assoc (closing_tags g1 g2 g3 g4)). apply taken_app.
  - intros a b -> Hb. now apply no_earlier_anchor.
Qed.

Section Paths.
Variable path_join : string -> string -> string.

(** X14.  On a page whose gallery closes with three
    [</div>] and a [</section>], apart by white space only, and then,
    after white space with a newline in it, the comment, the comment
    having no earlier occurrence that ends at or before this one, the
    card is written between the text in front of the closing tags and
    the closing block, whatever stands in front and after; nothing of
    the page in front of the tags or after the comment is changed. *)
Theorem updateBrowseHtml_layout (pd : projectData)
    (filename portfolioPath before g1 g2 g3 g4 after : string) (w : world) :
  files w (path_join portfolioPath "browse.html")
  = Some (before ++ closing_tags g1 g2 g3 g4 ++ marker ++ after) ->
  all is_space g1 = true -> all is_space g2 = true ->
  all is_space g3 = true -> all is_space g4 = true ->
  all no_newline g4 = false ->
  includes (before ++ closing_tags g1 g2 g3 g4 ++ marker_head) marker
  = false ->
  all no_dollar (generateProjectCard pd filename) = true ->
  exists w',
    updateBrowseHtml path_join pd filename portfolioPath w
    = (Return tt, w') /\
    files w' (path_join portfolioPath "browse.html")
    = Some (before ++ generateProjectCard pd filename ++ closing ++ after).
Proof.
  intros Hf S1 S2 S3 S4 N4 Hn Hd.
  pose proof (anchor_found before g1 g2 g3 g4 after S1 S2 S3 S4 N4 Hn) as Hm.
  destruct (updateBrowseHtml_match path_join pd filename portfolioPath _ w _ Hf Hm Hd)
    as (w' & Hrun & Hw & _).
  exists w'. split; [exact Hrun|].
  rewrite Hw. cbn [m_index m_after]. now rewrite substring_app.
Qed.

End Paths.

Lemma updateBrowseHtml_layout_witness :
  exists w',
    updateBrowseHtml join sample_project "day-7-my-app.html" "site"
      (site gallery_page) = (Return tt, w') /\
    files w' "site/browse.html"
    = Some (page_before ++
            generateProjectCard sample_project "day-7-my-app.html" ++
            closing ++ page_after).
Proof.
  apply (updateBrowseHtml_layout join sample_project "day-7-my-app.html"
           "site" page_before
           (String nl "            ") (String nl "        ")
           (String nl "    ") (String nl (String nl "    "))
           page_after (site gallery_page));
    vm_compute; reflexivity.
Defined.

End LayoutFacts.
